(** * Indicator formula engine and analytics pipeline of me_system_backend

    Shallow embedding of [indicators/services.py] (formula evaluation,
    filtering, indicator computation) and [analytics/services.py]
    (dimension aggregation, cache fingerprint, cache get / put), with the
    [AnalyticsCache] table of [analytics/models.py]. *)

From Stdlib Require Import ZArith List String Ascii Bool Lia Sorted Permutation.
From Stdlib Require Import Floats.SpecFloat DecimalString DecimalZ.
Import ListNotations.
Open Scope string_scope.
Open Scope list_scope.
Set Warnings "-register-all".

(* ================================================================= *)
(** ** Python values, exceptions and the exception monad *)
(* ================================================================= *)

(** The Python exceptions the embedded code can raise.  The payload is
    the text [str(e)] gives. *)
Inductive py_exc : Type :=
| ValueError (msg : string)
| ZeroDivisionError (msg : string)
| NameError (msg : string)
| SyntaxError (msg : string)
| OverflowError (msg : string)
| TypeError (msg : string)
| AttributeError (msg : string)
| DoesNotExist
| MultipleObjectsReturned
| IntegrityError (msg : string)
| SystemExit (code : string).

(** [str(e)] *)
Definition exc_str (e : py_exc) : string :=
  match e with
  | ValueError m | ZeroDivisionError m | NameError m | SyntaxError m
  | OverflowError m | TypeError m | AttributeError m => m
  | DoesNotExist => "AnalyticsCache matching query does not exist."
  | MultipleObjectsReturned => "get() returned more than one AnalyticsCache"
  | IntegrityError m => m
  | SystemExit c => c
  end.

(** Whether an exception is an instance of [Exception], the class an
    [except Exception] clause catches ([SystemExit] derives from
    [BaseException] only). *)
Definition is_exception (e : py_exc) : bool :=
  match e with
  | SystemExit _ => false
  | _ => true
  end.

(** A computation that returns a value or raises. *)
Inductive result (A : Type) : Type :=
| Ok (a : A)
| Raise (e : py_exc).
Arguments Ok {A} a.
Arguments Raise {A} e.

Definition bind {A B} (m : result A) (k : A -> result B) : result B :=
  match m with
  | Ok a => k a
  | Raise e => Raise e
  end.

Notation "x <- m ;; k" := (bind m (fun x => k))
  (at level 61, m at next level, right associativity).

(** JSON values, as stored in the [JSONField]s of the models
    ([dimensions], [filters], [layout], [display_options], the cached
    [data]).  A Python dict is an association list in insertion order.
    JSON numbers are modelled as integers (indicator ids, sizes); JSON
    floats are not part of this value model. *)
Inductive json : Type :=
| JNull
| JBool (b : bool)
| JInt (z : Z)
| JStr (s : string)
| JList (l : list json)
| JDict (kvs : list (string * json)).

(* ================================================================= *)
(** ** Python [float] (IEEE 754 binary64) and its [repr] *)
(* ================================================================= *)

(** Decimal rendering of a Python [int], [str(z)]. *)
Definition Z_str (z : Z) : string := NilEmpty.string_of_int (Z.to_int z).

Module PyFloat.
Local Open Scope Z_scope.

Definition prec : Z := 53.
Definition emax : Z := 1024.

(** A Python float is a binary64 value, as in [SpecFloat]. *)
Definition t : Type := spec_float.

Definition add (x y : t) : t := SFadd prec emax x y.
Definition sub (x y : t) : t := SFsub prec emax x y.
Definition mul (x y : t) : t := SFmul prec emax x y.
Definition div (x y : t) : t := SFdiv prec emax x y.
Definition opp (x : t) : t := SFopp x.
Definition ltb (x y : t) : bool := SFltb x y.
Definition eqb (x y : t) : bool := SFeqb x y.
Definition pinf : t := S754_infinity false.
Definition ninf : t := S754_infinity true.
Definition zero : t := S754_zero false.
Definition nan : t := S754_nan.

Definition is_nan (x : t) : bool :=
  match x with S754_nan => true | _ => false end.
Definition is_inf (x : t) : bool :=
  match x with S754_infinity _ => true | _ => false end.
Definition is_zero (x : t) : bool :=
  match x with S754_zero _ => true | _ => false end.

(** Structural equality of binary64 values (identity of the bit pattern
    up to the NaN payload). *)
Definition same (x y : t) : bool :=
  match x, y with
  | S754_zero a, S754_zero b | S754_infinity a, S754_infinity b => Bool.eqb a b
  | S754_nan, S754_nan => true
  | S754_finite a m e, S754_finite b m' e' =>
      Bool.eqb a b && Pos.eqb m m' && Z.eqb e e'
  | _, _ => false
  end.

(** The binary64 value nearest to [n / d] (ties to even), as a correctly
    rounded division does it. *)
Definition of_ratio (neg : bool) (n d : positive) : t :=
  let '(m, e, l) := SFdiv_core_binary prec emax (Zpos n) 0 (Zpos d) 0 in
  binary_round_aux prec emax neg m e l.

(** [float(n) / float(d)] done exactly and rounded once: the value of a
    decimal literal, or Python's [int / int]. *)
Definition of_Q (n : Z) (d : positive) : t :=
  match n with
  | Z0 => S754_zero false
  | Zpos p => of_ratio false p d
  | Zneg p => of_ratio true p d
  end.

(** [float(z)] for a Python int (infinite when out of range). *)
Definition of_Z (z : Z) : t := binary_normalize prec emax z 0 false.

(** Exact value of a finite float as [num / den] with [num, den > 0]. *)
Definition exact (m : positive) (e : Z) : positive * positive :=
  match e with
  | Zpos p => (Pos.mul m (Pos.pow 2 p), 1%positive)
  | Z0 => (m, 1%positive)
  | Zneg p => (m, Pos.pow 2 p)
  end.

Definition ndigits (n : Z) : Z := Z.of_nat (String.length (Z_str n)).

(** [floor (log10 (num / den))] *)
Definition floor_log10 (num den : Z) : Z :=
  if den <=? num then ndigits (num / den) - 1
  else
    let j0 := ndigits den - ndigits num in
    if den <=? num * 10 ^ j0 then - j0 else - (j0 + 1).

(** [a / b] rounded to the nearest integer, ties to even. *)
Definition round_div (a b : Z) : Z :=
  let '(q, r) := Z.div_eucl a b in
  match Z.compare (2 * r) b with
  | Lt => q
  | Gt => q + 1
  | Eq => if Z.even q then q else q + 1
  end.

(** [num / den] rounded to [p] significant decimal digits: the digits
    [D] (an integer of exactly [p] digits) and the exponent [E] with
    value [D * 10^E]. *)
Definition round_sig (num den p : Z) : Z * Z :=
  let E := floor_log10 num den - p + 1 in
  let D := if E <=? 0 then round_div (num * 10 ^ (- E)) den
           else round_div num (den * 10 ^ E) in
  if D =? 10 ^ p then (10 ^ (p - 1), E + 1) else (D, E).

(** The float a decimal [D * 10^E] denotes. *)
Definition of_decimal (D E : Z) : t :=
  if 0 <=? E then of_Z (D * 10 ^ E)
  else of_Q D (Z.to_pos (10 ^ (- E))).

(** Shortest round-tripping digits of a positive finite float: the first
    precision among 1..17 whose nearest decimal reads back as [x]. *)
Fixpoint shortest_from (fuel : nat) (p num den : Z) (x : t) : Z * Z :=
  match fuel with
  | O => round_sig num den p
  | S f =>
      let '(D, E) := round_sig num den p in
      if same (of_decimal D E) x then (D, E)
      else shortest_from f (p + 1) num den x
  end.

Fixpoint zeros (n : nat) : string :=
  match n with O => "" | S n' => String "0" (zeros n') end.

(** Layout of [repr]: digits [ds] with the decimal point at [decpt]
    (value [0.ds * 10^decpt]); exponent notation when [decpt <= -4] or
    [decpt > 16], as CPython's [float_repr_style = 'short']. *)
Definition layout (ds : string) (decpt : Z) : string :=
  let n := Z.of_nat (String.length ds) in
  if (decpt <=? -4) || (16 <? decpt) then
    let x := decpt - 1 in
    let mant := match ds with
                | String c rest =>
                    if (n =? 1) then String c "" else String c ("." ++ rest)
                | EmptyString => "" end in
    let xs := Z_str (Z.abs x) in
    mant ++ "e" ++ (if x <? 0 then "-" else "+") ++
      (if Z.abs x <? 10 then "0" ++ xs else xs)
  else if decpt <=? 0 then "0." ++ zeros (Z.to_nat (- decpt)) ++ ds
  else if decpt <? n then
    substring 0 (Z.to_nat decpt) ds ++ "." ++
      substring (Z.to_nat decpt) (Z.to_nat (n - decpt)) ds
  else ds ++ zeros (Z.to_nat (decpt - n)) ++ ".0".

(** [repr(x)] (also [str(x)]) of a float. *)
Definition repr (x : t) : string :=
  match x with
  | S754_nan => "nan"
  | S754_infinity false => "inf"
  | S754_infinity true => "-inf"
  | S754_zero false => "0.0"
  | S754_zero true => "-0.0"
  | S754_finite s m e =>
      let '(num, den) := exact m e in
      let '(D, E) := shortest_from 16 1 (Zpos num) (Zpos den)
                       (S754_finite false m e) in
      let ds := Z_str D in
      (if s then "-" else "") ++ layout ds (E + ndigits D)
  end.

End PyFloat.

(* ================================================================= *)
(** ** Python [str] helpers and the regular expressions of
       [_evaluate_formula] *)
(* ================================================================= *)

(** Inside the formula engine a Python [str] is a list of characters;
    a character is an [ascii] read as the code point 0..255. *)
Module PyStr.
Local Open Scope nat_scope.
Local Open Scope list_scope.

Definition las : string -> list ascii := list_ascii_of_string.
Definition sol : list ascii -> string := string_of_list_ascii.

Definition code (c : ascii) : nat := nat_of_ascii c.

Definition ascii_eqb (a b : ascii) : bool := Ascii.eqb a b.

(** [str.isspace()] on one character; also the [\s] class of [re] on
    [str] patterns. *)
Definition is_space (c : ascii) : bool :=
  let n := code c in
  ((9 <=? n) && (n <=? 13)) || ((28 <=? n) && (n <=? 32)) ||
  (n =? 133) || (n =? 160).

(** [\w] of [re] on [str] patterns (Unicode word characters). *)
Definition is_word (c : ascii) : bool :=
  let n := code c in
  ((48 <=? n) && (n <=? 57)) || ((65 <=? n) && (n <=? 90)) || (n =? 95) ||
  ((97 <=? n) && (n <=? 122)) ||
  (n =? 170) || (n =? 178) || (n =? 179) || (n =? 181) || (n =? 185) ||
  (n =? 186) || (n =? 188) || (n =? 189) || (n =? 190) ||
  ((192 <=? n) && (n <=? 255) && negb (n =? 215) && negb (n =? 247)).

(** The character class [[\w\s\-\.]] of [field_pattern]. *)
Definition is_field_char (c : ascii) : bool :=
  is_word c || is_space c || ascii_eqb c "-"%char || ascii_eqb c "."%char.

Definition dquote : ascii := ascii_of_nat 34.

(** The class of the two quote characters, single and double. *)
Definition is_quote (c : ascii) : bool := ascii_eqb c "'"%char || ascii_eqb c dquote.

(** Upper-casing of ASCII letters, for [re.IGNORECASE] on the function
    names (all ASCII letters). *)
Definition upper (c : ascii) : ascii :=
  let n := code c in
  if (97 <=? n) && (n <=? 122) then ascii_of_nat (n - 32) else c.

Fixpoint span (p : ascii -> bool) (s : list ascii) : list ascii * list ascii :=
  match s with
  | [] => ([], [])
  | c :: s' => if p c then let '(a, b) := span p s' in (c :: a, b) else ([], s)
  end.

Fixpoint lstrip (p : ascii -> bool) (s : list ascii) : list ascii :=
  match s with
  | [] => []
  | c :: s' => if p c then lstrip p s' else s
  end.

Definition rstrip (p : ascii -> bool) (s : list ascii) : list ascii :=
  rev (lstrip p (rev s)).

(** [s.strip()] *)
Definition strip (s : list ascii) : list ascii := rstrip is_space (lstrip is_space s).

(** [s.strip] with the two quote characters as argument. *)
Definition strip_quotes (s : list ascii) : list ascii :=
  rstrip is_quote (lstrip is_quote s).

Fixpoint prefixb (p s : list ascii) : bool :=
  match p, s with
  | [], _ => true
  | a :: p', b :: s' => ascii_eqb a b && prefixb p' s'
  | _ :: _, [] => false
  end.

Fixpoint replace_from (old new : list ascii) (skip : nat) (s : list ascii)
  : list ascii :=
  match s with
  | [] => []
  | c :: s' =>
      match skip with
      | S k => replace_from old new k s'
      | O => if prefixb old s
             then new ++ replace_from old new (pred (List.length old)) s'
             else c :: replace_from old new O s'
      end
  end.

(** [s.replace(old, new)]: every non-overlapping occurrence, left to
    right (an empty [old] matches between all characters). *)
Definition replace (s old new : list ascii) : list ascii :=
  match old with
  | [] => new ++ flat_map (fun c => c :: new) s
  | _ => replace_from old new O s
  end.

(** [sep.join(xs)] *)
Fixpoint join (sep : string) (xs : list string) : string :=
  match xs with
  | [] => ""
  | [x] => x
  | x :: xs' => String.append x (String.append sep (join sep xs'))
  end.

End PyStr.

Module Regex.
Import PyStr.
Local Open Scope nat_scope.
Local Open Scope list_scope.

(** Case-insensitive literal at the head of the subject; the rest. *)
Fixpoint match_ci (name : list ascii) (s : list ascii) : option (list ascii) :=
  match name, s with
  | [], _ => Some s
  | n :: name', c :: s' => if ascii_eqb (upper c) n then match_ci name' s' else None
  | _ :: _, [] => None
  end.

(** [NAME\(([\w\s\-\.]+)\)] tried at the head of the subject: group 1
    and the rest.  The class excludes [)], so the greedy run can only
    succeed at its maximal length. *)
Definition match_call (name : list ascii) (s : list ascii)
  : option (list ascii * list ascii) :=
  match match_ci name s with
  | Some (c :: r) =>
      if ascii_eqb c "("%char then
        let '(g1, r') := span is_field_char r in
        match g1, r' with
        | _ :: _, c' :: rest => if ascii_eqb c' ")" then Some (g1, rest) else None
        | _, _ => None
        end
      else None
  | _ => None
  end.

(** An optional quote character, then [)]. *)
Definition close_at (r : list ascii) : option (list ascii) :=
  match r with
  | c :: r' =>
      if is_quote c then
        match r' with
        | c2 :: r'' => if ascii_eqb c2 ")"%char then Some r'' else None
        | [] => None
        end
      else if ascii_eqb c ")"%char then Some r' else None
  | [] => None
  end.

(** The lazy group 2 [([^\)]+?)] followed by an optional quote and [)]:
    the group grows one character at a time. *)
Fixpoint lazy_value (r : list ascii) : option (list ascii * list ascii) :=
  match r with
  | [] => None
  | c :: r' =>
      if ascii_eqb c ")"%char then None
      else match close_at r' with
           | Some rest => Some ([c], rest)
           | None =>
               match lazy_value r' with
               | Some (g, rest) => Some (c :: g, rest)
               | None => None
               end
           end
  end.

(** An optional quote (tried taken first), then the lazy group 2. *)
Definition quote_value (r : list ascii) : option (list ascii * list ascii) :=
  match r with
  | c :: r' =>
      if is_quote c then
        match lazy_value r' with
        | Some x => Some x
        | None => lazy_value r
        end
      else lazy_value r
  | [] => None
  end.

(** [\s*] backtracking from its longest run: [rev_ws] holds the spaces
    still to give back, the last one first. *)
Fixpoint ws_backtrack (rev_ws : list ascii) (r : list ascii)
  : option (list ascii * list ascii) :=
  match quote_value r with
  | Some x => Some x
  | None =>
      match rev_ws with
      | [] => None
      | c :: rw => ws_backtrack rw (c :: r)
      end
  end.

Definition value_part (r : list ascii) : option (list ascii * list ascii) :=
  let '(ws, r0) := span is_space r in ws_backtrack (rev ws) r0.

(** [percentage_pattern] (see [_evaluate_formula]) at the head of the
    subject: [PERCENTAGE(], group 1 over the field class, a comma, spaces,
    an optional quote, the lazy group 2, an optional quote and [)].
    Result: groups 1 and 2 and the rest. *)
Definition match_percentage (s : list ascii)
  : option ((list ascii * list ascii) * list ascii) :=
  match match_ci (las "PERCENTAGE") s with
  | Some (c :: r) =>
      if ascii_eqb c "("%char then
        let '(g1, r1) := span is_field_char r in
        match g1, r1 with
        | _ :: _, c' :: r2 =>
            if ascii_eqb c' "," then
              match value_part r2 with
              | Some (g2, rest) => Some ((g1, g2), rest)
              | None => None
              end
            else None
        | _, _ => None
        end
      else None
  | _ => None
  end.

(** [re.finditer]: leftmost matches, scanning resumes after each match;
    each match as its text (group 0) and its groups. *)
Fixpoint finditer {A : Type} (m : list ascii -> option (A * list ascii))
    (skip : nat) (s : list ascii) : list (list ascii * A) :=
  match s with
  | [] => []
  | c :: s' =>
      match skip with
      | S k => finditer m k s'
      | O =>
          match m s with
          | Some (g, rest) =>
              let n := List.length s - List.length rest in
              (firstn n s, g) :: finditer m (pred n) s'
          | None => finditer m O s'
          end
      end
  end.

End Regex.

(* ================================================================= *)
(** ** Survey data frames, as [IndicatorComputationService] sees them *)
(* ================================================================= *)

Module Frame.
Import PyStr.
Local Open Scope Z_scope.

(** Python objects of the indicator payloads (names, formulas, filter
    criteria, result dictionaries); a dict keeps insertion order. *)
Inductive pyobj : Type :=
| ONone
| OBool (b : bool)
| OInt (z : Z)
| OFloat (f : PyFloat.t)
| OStr (s : string)
| OList (l : list pyobj)
| ODict (kvs : list (string * pyobj)).

(** [bool(o)] *)
Definition py_truthy (o : pyobj) : bool :=
  match o with
  | ONone => false
  | OBool b => b
  | OInt z => negb (z =? 0)
  | OFloat f => negb (PyFloat.is_zero f)
  | OStr s => negb (String.eqb s "")
  | OList l => match l with [] => false | _ => true end
  | ODict kvs => match kvs with [] => false | _ => true end
  end.

(** [type(o).__name__] *)
Definition type_name (o : pyobj) : string :=
  match o with
  | ONone => "NoneType" | OBool _ => "bool" | OInt _ => "int"
  | OFloat _ => "float" | OStr _ => "str" | OList _ => "list"
  | ODict _ => "dict"
  end.

(** [d.get(k)] on a dict: the first binding of [k], [None] if absent. *)
Fixpoint dict_get (kvs : list (string * pyobj)) (k : string) : pyobj :=
  match kvs with
  | [] => ONone
  | (k', v) :: r => if String.eqb k' k then v else dict_get r k
  end.

(** A cell of an [object] column. *)
Inductive cell : Type :=
| CInt (z : Z)
| CFloat (f : PyFloat.t)
| CStr (s : string)
| CNone.

(** A column as pandas stores it: an [int64] column, a [float64] column
    (missing values are NaN there), or an [object] column. *)
Inductive column : Type :=
| IntCol (l : list Z)
| FloatCol (l : list PyFloat.t)
| ObjCol (l : list cell).

(** A [DataFrame]: named columns in order and the length of its index. *)
Record frame : Type := mk_frame {
  cols : list (string * column);
  nrows : nat
}.

(** [df.columns.tolist()] *)
Definition columns (df : frame) : list string := map fst (cols df).

Definition col_len (c : column) : nat :=
  match c with
  | IntCol l => List.length l
  | FloatCol l => List.length l
  | ObjCol l => List.length l
  end.

(** The cells of a column, read as objects. *)
Definition col_cells (c : column) : list cell :=
  match c with
  | IntCol l => map CInt l
  | FloatCol l => map CFloat l
  | ObjCol l => l
  end.


(** [df[c]] after [c in df.columns]: the column named [c]. *)
Fixpoint lookup_col (c : string) (l : list (string * column)) : option column :=
  match l with
  | [] => None
  | (n, col) :: r => if String.eqb n c then Some col else lookup_col c r
  end.

(** [pd.isna] on one cell. *)
Definition is_na (c : cell) : bool :=
  match c with
  | CNone => true
  | CFloat f => PyFloat.is_nan f
  | _ => false
  end.

(** [series.count()]: the non-missing values. *)
Definition col_count (c : column) : Z :=
  Z.of_nat (List.length (filter (fun x => negb (is_na x)) (col_cells c))).

(** Boolean indexing [df[mask]]: the rows where [mask] holds, in order,
    in every column (dtypes kept). *)
Fixpoint keep {A : Type} (mask : list bool) (l : list A) : list A :=
  match mask, l with
  | b :: m, x :: r => if b then x :: keep m r else keep m r
  | _, _ => []
  end.

Definition col_select (mask : list bool) (c : column) : column :=
  match c with
  | IntCol l => IntCol (keep mask l)
  | FloatCol l => FloatCol (keep mask l)
  | ObjCol l => ObjCol (keep mask l)
  end.

Definition select (mask : list bool) (df : frame) : frame :=
  mk_frame (map (fun nc => (fst nc, col_select mask (snd nc))) (cols df))
           (List.length (filter (fun b => b) mask)).

(** [series.astype(str)] on one cell: [str] of the stored value. *)
Definition cell_str (c : cell) : string :=
  match c with
  | CInt z => Z_str z
  | CFloat f => PyFloat.repr f
  | CStr s => s
  | CNone => "None"
  end.

End Frame.

(* ================================================================= *)
(** ** Python's [float(eval(s))] on arithmetic expressions *)
(* ================================================================= *)

(** The residual formula is handed to Python's [eval].  This module
    gives its meaning on the arithmetic fragment: numeric literals, the
    unbound names [nan] and [inf] that [str] of a NaN or infinite float
    produces, unary [+ -], binary [+ - * /] and parentheses, separated
    by spaces and tabs.  [arith_eval] is [None] outside the fragment. *)
Module Arith.
Import PyStr.
Local Open Scope Z_scope.

Inductive pyval : Type :=
| VInt (z : Z)
| VFloat (f : PyFloat.t).

Inductive binop : Type := Add | Sub | Mul | Div.

Inductive token : Type :=
| TNum (v : pyval)
| TName (n : list ascii)
| TOp (o : binop)
| TLParen
| TRParen.

Inductive expr : Type :=
| ENum (v : pyval)
| EName (n : list ascii)
| EPos (e : expr)
| ENeg (e : expr)
| EBin (o : binop) (a b : expr).

Definition is_digit (c : ascii) : bool :=
  let n := nat_of_ascii c in ((48 <=? n) && (n <=? 57))%nat.

Definition is_ident_start (c : ascii) : bool :=
  let n := nat_of_ascii c in
  ((65 <=? n) && (n <=? 90) || (97 <=? n) && (n <=? 122) || (n =? 95))%nat.

Definition is_ident_char (c : ascii) : bool := is_ident_start c || is_digit c.

(** Value of a run of decimal digits. *)
Definition digits_val (ds : list ascii) : Z :=
  match NilEmpty.uint_of_string (sol ds) with
  | Some u => Z.of_uint u
  | None => 0
  end.

(** A decimal integer literal is [0], [00]... or has no leading zero. *)
Definition int_literal_ok (ds : list ascii) : bool :=
  String.eqb (Z_str (digits_val ds)) (sol ds) ||
  forallb (fun c => Ascii.eqb c "0"%char) ds.

(** The exponent part [e[+-]digits] of a float literal, if present. *)
Definition lex_exponent (s : list ascii) : option (option (Z * list ascii)) :=
  match s with
  | e :: r =>
      if Ascii.eqb e "e"%char || Ascii.eqb e "E"%char then
        let '(sg, r1) := match r with
                         | c :: r' => if Ascii.eqb c "-"%char then (-1, r')
                                      else if Ascii.eqb c "+"%char then (1, r')
                                      else (1, r)
                         | [] => (1, r)
                         end in
        let '(ds, r2) := span is_digit r1 in
        match ds with
        | [] => None
        | _ => Some (Some (sg * digits_val ds, r2))
        end
      else Some None
  | [] => Some None
  end.

(** A numeric literal at the head of [s] (which starts with a digit or
    a dot); the rest must not continue it. *)
Definition lex_number (s : list ascii) : option (pyval * list ascii) :=
  let '(d1, r1) := span is_digit s in
  let '(frac, r2) :=
    match r1 with
    | c :: r => if Ascii.eqb c "."%char
                then let '(d2, r') := span is_digit r in (Some d2, r')
                else (None, r1)
    | [] => (None, r1)
    end in
  match lex_exponent r2 with
  | None => None
  | Some ex =>
      let r3 := match ex with Some (_, r) => r | None => r2 end in
      let stop := match r3 with
                  | c :: _ => negb (is_ident_char c || Ascii.eqb c "."%char)
                  | [] => true
                  end in
      if negb stop then None else
      match frac, ex with
      | None, None =>
          if int_literal_ok d1 then Some (VInt (digits_val d1), r3) else None
      | _, _ =>
          let d2 := match frac with Some d => d | None => [] end in
          let x := match ex with Some (x, _) => x | None => 0 end in
          match d1 ++ d2 with
          | [] => None
          | ds => Some (VFloat (PyFloat.of_decimal (digits_val ds)
                                  (x - Z.of_nat (List.length d2))), r3)
          end
      end
  end.

Definition is_blank (c : ascii) : bool :=
  Ascii.eqb c " "%char || Ascii.eqb c (ascii_of_nat 9).

Fixpoint tokenize (fuel : nat) (s : list ascii) : option (list token) :=
  match fuel with
  | O => None
  | S f =>
      match s with
      | [] => Some []
      | c :: r =>
          if is_blank c then tokenize f r
          else if Ascii.eqb c "+"%char then option_map (cons (TOp Add)) (tokenize f r)
          else if Ascii.eqb c "-"%char then option_map (cons (TOp Sub)) (tokenize f r)
          else if Ascii.eqb c "*"%char then option_map (cons (TOp Mul)) (tokenize f r)
          else if Ascii.eqb c "/"%char then option_map (cons (TOp Div)) (tokenize f r)
          else if Ascii.eqb c "("%char then option_map (cons TLParen) (tokenize f r)
          else if Ascii.eqb c ")"%char then option_map (cons TRParen) (tokenize f r)
          else if is_digit c || Ascii.eqb c "."%char then
            match lex_number s with
            | Some (v, r') => option_map (cons (TNum v)) (tokenize f r')
            | None => None
            end
          else if is_ident_start c then
            let '(n, r') := span is_ident_char s in
            if String.eqb (sol n) "nan" || String.eqb (sol n) "inf"
            then option_map (cons (TName n)) (tokenize f r')
            else None
          else None
      end
  end.

(** Recursive descent over Python's grammar for the fragment:
    [expr: term (('+'|'-') term)*], [term: factor (('*'|'/') factor)*],
    [factor: ('+'|'-') factor | atom], [atom: NUMBER | NAME | '(' expr ')']. *)
Fixpoint parse_expr (fuel : nat) (ts : list token) : option (expr * list token) :=
  match fuel with
  | O => None
  | S f =>
      match parse_term f ts with
      | Some (a, r) => expr_rest f a r
      | None => None
      end
  end
with expr_rest (fuel : nat) (a : expr) (ts : list token) : option (expr * list token) :=
  match fuel with
  | O => None
  | S f =>
      match ts with
      | TOp Add :: r =>
          match parse_term f r with
          | Some (b, r') => expr_rest f (EBin Add a b) r'
          | None => None
          end
      | TOp Sub :: r =>
          match parse_term f r with
          | Some (b, r') => expr_rest f (EBin Sub a b) r'
          | None => None
          end
      | _ => Some (a, ts)
      end
  end
with parse_term (fuel : nat) (ts : list token) : option (expr * list token) :=
  match fuel with
  | O => None
  | S f =>
      match parse_factor f ts with
      | Some (a, r) => term_rest f a r
      | None => None
      end
  end
with term_rest (fuel : nat) (a : expr) (ts : list token) : option (expr * list token) :=
  match fuel with
  | O => None
  | S f =>
      match ts with
      | TOp Mul :: r =>
          match parse_factor f r with
          | Some (b, r') => term_rest f (EBin Mul a b) r'
          | None => None
          end
      | TOp Div :: r =>
          match parse_factor f r with
          | Some (b, r') => term_rest f (EBin Div a b) r'
          | None => None
          end
      | _ => Some (a, ts)
      end
  end
with parse_factor (fuel : nat) (ts : list token) : option (expr * list token) :=
  match fuel with
  | O => None
  | S f =>
      match ts with
      | TOp Add :: r =>
          match parse_factor f r with
          | Some (e, r') => Some (EPos e, r')
          | None => None
          end
      | TOp Sub :: r =>
          match parse_factor f r with
          | Some (e, r') => Some (ENeg e, r')
          | None => None
          end
      | TNum v :: r => Some (ENum v, r)
      | TName n :: r => Some (EName n, r)
      | TLParen :: r =>
          match parse_expr f r with
          | Some (e, TRParen :: r') => Some (e, r')
          | _ => None
          end
      | _ => None
      end
  end.

(** [float(z)] for an int operand. *)
Definition int_to_float (z : Z) : result PyFloat.t :=
  let f := PyFloat.of_Z z in
  if PyFloat.is_inf f then Raise (OverflowError "int too large to convert to float")
  else Ok f.

Definition float_of (v : pyval) : result PyFloat.t :=
  match v with
  | VInt z => int_to_float z
  | VFloat f => Ok f
  end.

(** [x / y] on ints: the correctly rounded quotient. *)
Definition int_true_div (x y : Z) : result pyval :=
  if y =? 0 then Raise (ZeroDivisionError "division by zero")
  else
    let neg := xorb (x <? 0) (y <? 0) in
    let q := match Z.abs x with
             | Z0 => S754_zero neg
             | Zpos p => PyFloat.of_ratio neg p (Z.to_pos (Z.abs y))
             | Zneg _ => S754_zero neg
             end in
    if PyFloat.is_inf q
    then Raise (OverflowError "integer division result too large for a float")
    else Ok (VFloat q).

Definition apply_binop (o : binop) (a b : pyval) : result pyval :=
  match a, b with
  | VInt x, VInt y =>
      match o with
      | Add => Ok (VInt (x + y))
      | Sub => Ok (VInt (x - y))
      | Mul => Ok (VInt (x * y))
      | Div => int_true_div x y
      end
  | _, _ =>
      fa <- float_of a ;;
      fb <- float_of b ;;
      match o with
      | Add => Ok (VFloat (PyFloat.add fa fb))
      | Sub => Ok (VFloat (PyFloat.sub fa fb))
      | Mul => Ok (VFloat (PyFloat.mul fa fb))
      | Div => if PyFloat.is_zero fb
               then Raise (ZeroDivisionError "float division by zero")
               else Ok (VFloat (PyFloat.div fa fb))
      end
  end.

(** Evaluation, operands left to right. *)
Fixpoint eval_expr (e : expr) : result pyval :=
  match e with
  | ENum v => Ok v
  | EName n => Raise (NameError ("name '" ++ sol n ++ "' is not defined"))
  | EPos a => eval_expr a
  | ENeg a =>
      v <- eval_expr a ;;
      match v with
      | VInt z => Ok (VInt (- z))
      | VFloat f => Ok (VFloat (PyFloat.opp f))
      end
  | EBin o a b =>
      va <- eval_expr a ;;
      vb <- eval_expr b ;;
      apply_binop o va vb
  end.

(** [float(eval(s))] for [s] in the fragment; [None] outside it. *)
Definition arith_eval (s : list ascii) : option (result PyFloat.t) :=
  match tokenize (S (List.length s)) s with
  | Some ts =>
      match parse_expr (4 * List.length ts + 4) ts with
      | Some (e, []) => Some (v <- eval_expr e ;; float_of v)
      | _ => None
      end
  | None => None
  end.

End Arith.

(* ================================================================= *)
(** ** [IndicatorComputationService] *)
(* ================================================================= *)

Module Indicators.
Import PyStr Regex Frame Arith.
Local Open Scope Z_scope.

(** The service object as the formula's [eval] can see it: [self.df]
    and [self.total_rows]. [__init__] sets [total_rows] to
    [len(dataframe)]; an [eval] may rebind it to any object. *)
Record service : Type := mk_service {
  df : frame;
  total_rows : pyobj
}.

(** [IndicatorComputationService(dataframe)] *)
Definition init (dataframe : frame) : service :=
  mk_service dataframe (OInt (Z.of_nat (nrows dataframe))).

(** The library behaviour the service relies on and that this
    development does not fix:
    - numpy's summation and [minimum]/[maximum] reductions of a float64
      array;
    - pandas' reading of a numeric string under [errors='coerce']
      ([None] when it coerces to NaN; [inl] for an integer, [inr] for a
      float);
    - [list_eq c l], the mask [df[column] == l] for a list that numpy
      does not turn into a flat array of [int64], [float64], [bool],
      [str] or [object] scalars (nested lists or dicts, ints outside
      [int64]);
    - [eval_other s self df], that is [float(eval(s))] for a residual
      formula outside the arithmetic fragment of [Arith] that holds an
      ASCII letter. [eval] runs in the frame of [_evaluate_formula], with
      [self] and the local [df] in scope. It may change them, as in
      [setattr(self, 'total_rows', 0)], [df.drop(df.index, inplace=True)]
      or [self.df.drop(self.df.index, inplace=True)]. It yields the
      service and the local frame as it leaves them. The effects
      modelled are those on [self.df] (kept a DataFrame), on
      [self.total_rows] and on the local frame. Effects on the rest of
      the interpreter are not represented: rebinding [self.df] to
      another type, instance attributes that shadow the service's
      methods, patched modules, and other frames reached through
      [sys._getframe];
    - [eval_literal s], that is [float(eval(s))] for a residual formula
      outside the fragment with no ASCII letter. Such an expression
      names no variable of the method and nothing it could change:
      [_] and non-ASCII letters spell no bound name outside an
      interactive session. So it neither reads nor changes [self] or
      [df]. *)
Record backend : Type := mk_backend {
  float_sum : list PyFloat.t -> PyFloat.t;
  float_min : list PyFloat.t -> PyFloat.t;
  float_max : list PyFloat.t -> PyFloat.t;
  parse_number : string -> option (Z + PyFloat.t);
  list_eq : column -> list pyobj -> result (list bool);
  eval_other : list ascii -> service -> frame -> result PyFloat.t * (service * frame);
  eval_literal : list ascii -> result PyFloat.t
}.

Section Service.
Variable B : backend.

(** A numpy scalar: [int64] or [float64]. *)
Inductive num : Type :=
| NInt (z : Z)
| NFloat (f : PyFloat.t).

(** [str] of a numpy scalar. *)
Definition num_str (n : num) : string :=
  match n with
  | NInt z => Z_str z
  | NFloat f => PyFloat.repr f
  end.

(** [int64] wrap-around. *)
Definition wrap64 (z : Z) : Z := (z + 2 ^ 63) mod 2 ^ 64 - 2 ^ 63.

(** The series [pd.to_numeric(s, errors='coerce')]: [int64] when every
    value reads as an integer, [float64] otherwise. *)
Inductive num_series : Type :=
| IntSeries (l : list Z)
| FloatSeries (l : list PyFloat.t).

Definition cell_num (c : cell) : option (Z + PyFloat.t) :=
  match c with
  | CInt z => Some (inl z)
  | CFloat f => Some (inr f)
  | CStr s => parse_number B s
  | CNone => None
  end.

Fixpoint all_ints (l : list (option (Z + PyFloat.t))) : option (list Z) :=
  match l with
  | [] => Some []
  | Some (inl z) :: r => option_map (cons z) (all_ints r)
  | _ => None
  end.

Definition as_float (o : option (Z + PyFloat.t)) : PyFloat.t :=
  match o with
  | Some (inl z) => PyFloat.of_Z z
  | Some (inr f) => f
  | None => PyFloat.nan
  end.

Definition to_numeric (c : column) : num_series :=
  match c with
  | IntCol l => IntSeries l
  | FloatCol l => FloatSeries l
  | ObjCol l =>
      let ns := map cell_num l in
      match all_ints ns with
      | Some zs => IntSeries zs
      | None => FloatSeries (map as_float ns)
      end
  end.

Definition not_nan (f : PyFloat.t) : bool := negb (PyFloat.is_nan f).

Definition fill (v : PyFloat.t) (l : list PyFloat.t) : list PyFloat.t :=
  map (fun x => if PyFloat.is_nan x then v else x) l.

(** [.sum()]: skips NaN (filled with 0 before numpy sums). *)
Definition series_sum (s : num_series) : num :=
  match s with
  | IntSeries l => NInt (wrap64 (fold_left Z.add l 0))
  | FloatSeries l => NFloat (float_sum B (fill PyFloat.zero l))
  end.

(** [.mean()]: the float64 sum over the count of non-NaN values, NaN
    when there are none. *)
Definition series_mean (s : num_series) : num :=
  match s with
  | IntSeries l =>
      if (List.length l =? 0)%nat then NFloat PyFloat.nan
      else NFloat (PyFloat.div (float_sum B (map PyFloat.of_Z l))
                               (PyFloat.of_Z (Z.of_nat (List.length l))))
  | FloatSeries l =>
      let n := List.length (filter not_nan l) in
      if (n =? 0)%nat then NFloat PyFloat.nan
      else NFloat (PyFloat.div (float_sum B (fill PyFloat.zero l))
                               (PyFloat.of_Z (Z.of_nat n)))
  end.

(** [.min()] / [.max()]: NaN when no value is present. *)
Definition series_min (s : num_series) : num :=
  match s with
  | IntSeries [] => NFloat PyFloat.nan
  | IntSeries (z :: r) => NInt (fold_left Z.min r z)
  | FloatSeries l =>
      if existsb not_nan l then NFloat (float_min B (fill PyFloat.pinf l))
      else NFloat PyFloat.nan
  end.

Definition series_max (s : num_series) : num :=
  match s with
  | IntSeries [] => NFloat PyFloat.nan
  | IntSeries (z :: r) => NInt (fold_left Z.max r z)
  | FloatSeries l =>
      if existsb not_nan l then NFloat (float_max B (fill PyFloat.ninf l))
      else NFloat PyFloat.nan
  end.

(** [str] of each aggregate on a column, as substituted in the formula. *)
Definition count_value (c : column) : string := Z_str (col_count c).
Definition sum_value (c : column) : string := num_str (series_sum (to_numeric c)).
Definition avg_value (c : column) : string := num_str (series_mean (to_numeric c)).
Definition min_value (c : column) : string := num_str (series_min (to_numeric c)).
Definition max_value (c : column) : string := num_str (series_max (to_numeric c)).

Definition column_error (column : string) (df : frame) : py_exc :=
  ValueError ("Column '" ++ column ++
              "' not found in survey data. Available columns: " ++
              join ", " (columns df)).

(** The body of one [for match in re.finditer(pattern, formula_eval,
    re.IGNORECASE)] loop: the matches were found in the string as it was
    when the loop started; each replaces every occurrence of its text in
    the current string with the value of its column. *)
Fixpoint call_loop (value : column -> string) (df : frame)
    (ms : list (list ascii * list ascii)) (fe : list ascii) : result (list ascii) :=
  match ms with
  | [] => Ok fe
  | (g0, g1) :: r =>
      let column := sol (strip g1) in
      match lookup_col column (cols df) with
      | Some col => call_loop value df r (replace fe g0 (las (value col)))
      | None => Raise (column_error column df)
      end
  end.

Definition call_pass (name : string) (value : column -> string) (df : frame)
    (fe : list ascii) : result (list ascii) :=
  call_loop value df (finditer (match_call (las name)) O fe) fe.

(** [series.astype(str) == v] and [.sum()] of the resulting booleans. *)
Definition astype_str (c : column) : list string := map cell_str (col_cells c).
Definition eq_str (xs : list string) (v : string) : list bool :=
  map (fun x => String.eqb x v) xs.
Definition bool_sum (bs : list bool) : Z :=
  Z.of_nat (List.length (filter (fun b => b) bs)).

(** [(count / len(df)) * 100 if len(df) > 0 else 0] *)
Definition percentage (df : frame) (c : column) (value : string) : num :=
  let count := bool_sum (eq_str (astype_str c) value) in
  if (0 <? nrows df)%nat
  then NFloat (PyFloat.mul (PyFloat.div (PyFloat.of_Z count)
                                        (PyFloat.of_Z (Z.of_nat (nrows df))))
                           (PyFloat.of_Z 100))
  else NInt 0.

Fixpoint percentage_loop (df : frame)
    (ms : list (list ascii * (list ascii * list ascii))) (fe : list ascii)
    : result (list ascii) :=
  match ms with
  | [] => Ok fe
  | (g0, (g1, g2)) :: r =>
      let column := sol (strip g1) in
      let value := sol (strip_quotes (strip g2)) in
      match lookup_col column (cols df) with
      | Some col =>
          percentage_loop df r (replace fe g0 (las (num_str (percentage df col value))))
      | None => Raise (column_error column df)
      end
  end.

Definition percentage_pass (df : frame) (fe : list ascii) : result (list ascii) :=
  percentage_loop df (finditer match_percentage O fe) fe.

(** The five function passes and the [PERCENTAGE] pass, in order. *)
Definition substitute (formula : string) (df : frame) : result (list ascii) :=
  fe1 <- call_pass "COUNT" count_value df (las formula) ;;
  fe2 <- call_pass "SUM" sum_value df fe1 ;;
  fe3 <- call_pass "AVG" avg_value df fe2 ;;
  fe4 <- call_pass "MIN" min_value df fe3 ;;
  fe5 <- call_pass "MAX" max_value df fe4 ;;
  percentage_pass df fe5.

Definition is_ascii_letter (c : ascii) : bool :=
  let n := nat_of_ascii c in ((65 <=? n) && (n <=? 90) || (97 <=? n) && (n <=? 122))%nat.

(** [float(eval(s))] in the frame of [_evaluate_formula], whose [self]
    and [df] it may read and change: the value or the exception, and
    the service and local frame afterwards. *)
Definition eval_float (s : list ascii) (self : service) (df : frame)
    : result PyFloat.t * (service * frame) :=
  match arith_eval s with
  | Some r => (r, (self, df))
  | None =>
      if existsb is_ascii_letter s then eval_other B s self df
      else (eval_literal B s, (self, df))
  end.

(** [_evaluate_formula]: the value or the exception, with the service
    and the local frame as they are when it returns. *)
Definition _evaluate_formula (self : service) (formula : string) (df : frame)
    : result PyFloat.t * (service * frame) :=
  match substitute formula df with
  | Raise e => (Raise e, (self, df))
  | Ok formula_eval =>
      let '(r, st) := eval_float formula_eval self df in
      match r with
      | Ok result => (Ok result, st)
      | Raise e =>
          if is_exception e
          then (Raise (ValueError ("Could not evaluate formula: " ++ formula ++
                                   ". Evaluation error: " ++ exc_str e)), st)
          else (Raise e, st)
      end
  end.

(** Exact comparison of a float with an int, as Python's [==] does it. *)
Definition float_eq_int (f : PyFloat.t) (z : Z) : bool :=
  match f with
  | S754_zero _ => z =? 0
  | S754_finite s m e =>
      let v := if s then Zneg m else Zpos m in
      if 0 <=? e then v * 2 ^ e =? z else v =? z * 2 ^ (- e)
  | _ => false
  end.

Definition is_obj (c : column) : bool :=
  match c with ObjCol _ => true | _ => false end.

(** [cell == v] as pandas compares a column with a scalar: a missing
    value never compares equal; an [int64]/[float64] column compares as
    float64, an [object] column with Python's [==]. *)
Definition cell_eq (obj : bool) (c : cell) (v : pyobj) : bool :=
  if is_na c then false else
  match c, v with
  | CInt z, OInt w => z =? w
  | CInt z, OBool b => z =? (if b then 1 else 0)
  | CInt z, OFloat f => if obj then float_eq_int f z else PyFloat.eqb (PyFloat.of_Z z) f
  | CFloat x, OInt w => if obj then float_eq_int x w else PyFloat.eqb x (PyFloat.of_Z w)
  | CFloat x, OBool b => PyFloat.eqb x (PyFloat.of_Z (if b then 1 else 0))
  | CFloat x, OFloat f => PyFloat.eqb x f
  | CStr s, OStr t => String.eqb s t
  | _, _ => false
  end.

(** An int that fits [int64]. *)
Definition in_int64 (z : Z) : bool := (- 2 ^ 63 <=? z) && (z <? 2 ^ 63).

(** A list element that [np.asarray] stores as one scalar. *)
Definition flat_scalar (o : pyobj) : bool :=
  match o with
  | OList _ | ODict _ => false
  | OInt z => in_int64 z
  | _ => true
  end.

Definition is_none (o : pyobj) : bool := match o with ONone => true | _ => false end.
Definition is_str (o : pyobj) : bool := match o with OStr _ => true | _ => false end.
Definition is_float (o : pyobj) : bool := match o with OFloat _ => true | _ => false end.
Definition is_int (o : pyobj) : bool := match o with OInt _ => true | _ => false end.

(** An element of a [str] array: [str] of the scalar. *)
Definition str_scalar (o : pyobj) : pyobj :=
  match o with
  | OBool b => OStr (if b then "True" else "False")
  | OInt z => OStr (Z_str z)
  | OFloat f => OStr (PyFloat.repr f)
  | o => o
  end.

(** An element of a [float64] array. *)
Definition float_scalar (o : pyobj) : pyobj :=
  match o with
  | OBool b => OFloat (PyFloat.of_Z (if b then 1 else 0))
  | OInt z => OFloat (PyFloat.of_Z z)
  | o => o
  end.

(** An element of an [int64] array. *)
Definition int_scalar (o : pyobj) : pyobj :=
  match o with
  | OBool b => OInt (if b then 1 else 0)
  | o => o
  end.

(** [np.asarray(l)] for a list of scalars, as the comparison then sees
    its elements: with a [None] the array has dtype [object] and keeps
    the elements; otherwise a [str] makes it a [str] array of [str] of
    each element, a [float] a [float64] array, an [int] an [int64] array
    (bools as 0 and 1), and bools alone a [bool] array. [None] for a
    list numpy does not store as a flat array of these scalars. *)
Definition asarray (l : list pyobj) : option (list pyobj) :=
  if negb (forallb flat_scalar l) then None
  else if existsb is_none l then Some l
  else if existsb is_str l then Some (map str_scalar l)
  else if existsb is_float l then Some (map float_scalar l)
  else if existsb is_int l then Some (map int_scalar l)
  else Some l.

(** [df[column] == value]. A list goes through [np.asarray] and must
    have the column's length; each cell is compared with the array
    element at its position. A numeric column against a [str] array
    matches nothing (pandas' [invalid_comparison]) and compares as
    numpy scalars otherwise; an [object] column compares with Python's
    [==] on the elements ([astype(object)] of the array). *)
Definition series_eq (c : column) (v : pyobj) : result (list bool) :=
  match v with
  | OList l =>
      match asarray l with
      | Some arr =>
          if (List.length arr =? col_len c)%nat
          then Ok (map (fun xy => cell_eq (is_obj c) (fst xy) (snd xy))
                       (combine (col_cells c) arr))
          else Raise (ValueError ("('Lengths must match to compare', (" ++
                                  Z_str (Z.of_nat (col_len c)) ++ ",), (" ++
                                  Z_str (Z.of_nat (List.length arr)) ++ ",))"))
      | None => list_eq B c l
      end
  | _ => Ok (map (fun x => cell_eq (is_obj c) x v) (col_cells c))
  end.

(** [for column, value in filter_criteria.items(): if column in
    df_filtered.columns: df_filtered = df_filtered[df_filtered[column] == value]] *)
Fixpoint filter_loop (kvs : list (string * pyobj)) (d : frame) : result frame :=
  match kvs with
  | [] => Ok d
  | (column, value) :: r =>
      match lookup_col column (cols d) with
      | Some col =>
          mask <- series_eq col value ;;
          filter_loop r (select mask d)
      | None => filter_loop r d
      end
  end.

(** [df_filtered = self.df.copy()] and the filter loop, under
    [if filter_criteria:]. *)
Definition apply_filters (d : frame) (filter_criteria : pyobj) : result frame :=
  if py_truthy filter_criteria then
    match filter_criteria with
    | ODict kvs => filter_loop kvs d
    | o => Raise (AttributeError ("'" ++ type_name o ++ "' object has no attribute 'items'"))
    end
  else Ok d.

Definition or_empty (o : pyobj) : pyobj := if py_truthy o then o else ODict [].

(** [compute_indicator]: the result dictionary (or the exception that
    escapes the [except Exception] clause), and the service afterwards.
    [rows_processed] and [total_rows] are read after the formula's
    [eval]: the length of the local frame as [eval] leaves it, and the
    [total_rows] attribute of the service as [eval] leaves it. *)
Definition compute_indicator (self : service) (indicator_name formula filter_criteria : pyobj)
    : result pyobj * service :=
  let '(attempt, self) :=
    match apply_filters (df self) filter_criteria with
    | Raise e => (Raise e, self)
    | Ok df_filtered =>
        match formula with
        | OStr f =>
            let '(r, (self', df_filtered')) := _evaluate_formula self f df_filtered in
            (match r with
             | Ok result => Ok (result, df_filtered')
             | Raise e => Raise e
             end, self')
        | o => (Raise (TypeError ("expected string or bytes-like object, got '" ++
                                  type_name o ++ "'")), self)
        end
    end in
  match attempt with
  | Ok (result, df_filtered) =>
      let value := if PyFloat.is_nan result || PyFloat.is_inf result
                   then ONone else OFloat result in
      (Ok (ODict [("indicator_name", indicator_name); ("formula", formula);
                  ("filter_criteria", or_empty filter_criteria); ("value", value);
                  ("rows_processed", OInt (Z.of_nat (nrows df_filtered)));
                  ("total_rows", total_rows self);
                  ("status", OStr "success")]), self)
  | Raise e =>
      if is_exception e then
        (Ok (ODict [("indicator_name", indicator_name); ("formula", formula);
                    ("filter_criteria", or_empty filter_criteria); ("value", ONone);
                    ("error", OStr (exc_str e)); ("status", OStr "error")]), self)
      else (Raise e, self)
  end.

(** [compute_multiple_indicators]: the results in order, the service
    threaded through the calls. *)
Fixpoint compute_multiple_indicators (self : service) (indicators : list pyobj)
    : result (list pyobj) * service :=
  match indicators with
  | [] => (Ok [], self)
  | indicator :: r =>
      match indicator with
      | ODict kvs =>
          let '(result, self) :=
            compute_indicator self (dict_get kvs "name") (dict_get kvs "formula")
                              (dict_get kvs "filter_criteria") in
          match result with
          | Ok res =>
              let '(results, self) := compute_multiple_indicators self r in
              (match results with
               | Ok rest => Ok (res :: rest)
               | Raise e => Raise e
               end, self)
          | Raise e => (Raise e, self)
          end
      | o => (Raise (AttributeError ("'" ++ type_name o ++ "' object has no attribute 'get'")), self)
      end
  end.

End Service.

(** A backend for running examples: left-to-right float sums, the first
    least (greatest) value, decimal integer strings, a list comparison
    that refuses nested lists, and an [eval] that reports a syntax error
    beyond the arithmetic fragment. *)
Definition seq_sum (l : list PyFloat.t) : PyFloat.t := fold_left PyFloat.add l PyFloat.zero.

Definition first_min (l : list PyFloat.t) : PyFloat.t :=
  match l with
  | [] => PyFloat.nan
  | x :: r => fold_left (fun acc y => if PyFloat.ltb y acc then y else acc) r x
  end.

Definition first_max (l : list PyFloat.t) : PyFloat.t :=
  match l with
  | [] => PyFloat.nan
  | x :: r => fold_left (fun acc y => if PyFloat.ltb acc y then y else acc) r x
  end.

Definition decimal_int (s : string) : option (Z + PyFloat.t) :=
  match las s with
  | [] => None
  | ds => if forallb is_digit ds then Some (inl (digits_val ds)) else None
  end.

Definition nested_list_eq (c : column) (l : list pyobj) : result (list bool) :=
  Raise (ValueError "setting an array element with a sequence.").

Definition plain_backend : backend :=
  mk_backend seq_sum first_min first_max decimal_int nested_list_eq
             (fun _ self d => (Raise (SyntaxError "invalid syntax"), (self, d)))
             (fun _ => Raise (SyntaxError "invalid syntax")).

End Indicators.

(* ================================================================= *)
(** ** Auxiliary notions of the proofs *)
(* ================================================================= *)

Module ProofDefs.
Import PyStr Frame Indicators.

(** Deciding a property of all 256 characters by enumeration. *)
Definition all_ascii (f : ascii -> bool) : bool :=
  forallb f (map ascii_of_nat (seq 0 256)).

Definition is_paren (c : ascii) : bool :=
  ascii_eqb c "("%char || ascii_eqb c ")"%char.

Definition is_upper_letter (c : ascii) : bool :=
  let n := code c in (65 <=? n)%nat && (n <=? 90)%nat.

(** A match found by [finditer] is a match at some suffix of the
    subject, for a pattern that consumes a prefix of the subject. *)
Definition consumes {A} (m : list ascii -> option (A * list ascii)) : Prop :=
  forall t g r, m t = Some (g, r) -> exists p, t = p ++ r.

(** A list without parentheses. *)
Definition no_paren (l : list ascii) : Prop := forall z, In z l -> is_paren z = false.

Definition suffixb (x y : list ascii) : bool :=
  (List.length x <=? List.length y)%nat &&
  (if list_eq_dec ascii_dec (skipn (List.length y - List.length x) y) x then true else false).

(** The error outcome of a formula naming a column that is not in [d]. *)
Definition column_raise (d : frame) (r : result (list ascii)) : Prop :=
  exists col, lookup_col col (cols d) = None /\ r = Raise (column_error col d).

(** A string without letters, in either case. *)
Definition no_letter (s : list ascii) : Prop :=
  forall z, In z s -> is_upper_letter (upper z) = false.

(** A literal [PERCENTAGE] value as the call can write it: not empty,
    no parenthesis, and neither a blank nor a quote at either end (the
    characters between are free). *)
Definition value_ok (v : list ascii) : bool :=
  match v, rev v with
  | ch :: _, lc :: _ =>
      negb (is_space ch) && negb (is_quote ch) && negb (is_space lc) &&
      negb (is_quote lc) && forallb (fun z => negb (is_paren z)) v
  | _, _ => false
  end.

End ProofDefs.

(* ================================================================= *)
(** ** Filtering, record by record *)
(* ================================================================= *)

Module FilterSpec.
Import PyStr Frame Indicators.






End FilterSpec.

(* ================================================================= *)
(** ** Concrete inputs *)
(* ================================================================= *)

Module Scenarios.
Import PyStr Frame Arith Indicators.

(** [df.drop(df.index, inplace=True)]: every row removed, the columns
    and their dtypes kept. *)
Definition drop_all (d : frame) : frame := select [] d.

(** An [eval] that runs four expressions as Python does: two that
    rebind [self.total_rows] or empty the local frame and then yield 1,
    one that empties [self.df] and yields 1, and [exit()], which raises
    [SystemExit]. Every other residual expression is refused as
    [plain_backend] refuses it. *)
Definition mutating_eval (s : list ascii) (self : service) (d : frame)
    : result PyFloat.t * (service * frame) :=
  let e := sol s in
  if String.eqb e "setattr(self, 'total_rows', 0) or 1"
  then (Ok (PyFloat.of_Z 1), (mk_service (df self) (OInt 0), d))
  else if String.eqb e "df.drop(df.index, inplace=True) or 1"
  then (Ok (PyFloat.of_Z 1), (self, drop_all d))
  else if String.eqb e "self.df.drop(self.df.index, inplace=True) or 1"
  then (Ok (PyFloat.of_Z 1), (mk_service (drop_all (df self)) (total_rows self), d))
  else if String.eqb e "exit()"
  then (Raise (SystemExit "None"), (self, d))
  else (Raise (SyntaxError "invalid syntax"), (self, d)).

Definition mutating_backend : backend :=
  mk_backend seq_sum first_min first_max decimal_int nested_list_eq mutating_eval
             (fun _ => Raise (SyntaxError "invalid syntax")).

(** A two-row survey with the columns [Student ID] and [Course Name]. *)
Definition survey : frame :=
  mk_frame [("Student ID", ObjCol [CStr "s1"; CStr "s2"]);
            ("Course Name", ObjCol [CStr "Math"; CNone])] 2.

(** A survey whose [score] column holds no number. *)
Definition no_scores : frame := mk_frame [("score", ObjCol [CStr "n/a"; CNone])] 2.

(** A survey with an [int64] column [age]. *)
Definition ages : frame := mk_frame [("age", IntCol [25; 30]%Z)] 2.

(** A four-row survey with an object column [Course Name]. *)
Definition courses : frame :=
  mk_frame [("Course Name", ObjCol [CStr "Computer Science"; CStr "N/A";
                                    CStr "Computer Science"; CNone])] 4.

End Scenarios.

(* ================================================================= *)
(** ** [AnalyticsCache] table and [_get_from_cache] / [_save_to_cache] *)
(* ================================================================= *)

Module Cache.
Local Open Scope Z_scope.

(** One row of the [AnalyticsCache] table ([analytics/models.py]).
    Times are microseconds since an arbitrary epoch. *)
Record cache_row : Type := mk_row {
  row_id : nat;                      (* auto primary key *)
  cache_key : string;                (* unique=True *)
  row_project : Z;
  row_visualization : option Z;
  row_data : json;
  row_metadata : json;               (* default=dict *)
  row_created_at : Z;                (* auto_now_add *)
  row_expires_at : Z;
  row_hit_count : Z                  (* default=0 *)
}.

(** The table: its rows and the next value of the id sequence. *)
Record cache_table : Type := mk_table {
  rows : list cache_row;
  next_id : nat
}.

(** [timedelta(hours=24)] *)
Definition ttl : Z := 24 * 3600 * 1000000.

(** [obj.save()]: write the instance back to the row with its primary key. *)
Definition save (r : cache_row) (t : cache_table) : cache_table :=
  mk_table (map (fun r' => if Nat.eqb (row_id r') (row_id r) then r else r')
                (rows t))
           (next_id t).

(** [AnalyticsCache.objects.get(cache_key=k, expires_at__gt=now)] *)
Definition objects_get_live (now : Z) (k : string) (t : cache_table)
  : result cache_row :=
  match filter (fun r => String.eqb (cache_key r) k && Z.ltb now (row_expires_at r))
               (rows t) with
  | [] => Raise DoesNotExist
  | [r] => Ok r
  | _ => Raise MultipleObjectsReturned
  end.

(** [cache.hit_count += 1] *)
Definition incr_hit (r : cache_row) : cache_row :=
  mk_row (row_id r) (cache_key r) (row_project r) (row_visualization r)
         (row_data r) (row_metadata r) (row_created_at r) (row_expires_at r)
         (row_hit_count r + 1).

(** [AnalyticsEngine._get_from_cache]: the payload on a live hit (after
    saving the incremented hit count), [None] on [DoesNotExist]; any other
    exception propagates. *)
Definition _get_from_cache (now : Z) (cache_key : string) (t : cache_table)
  : result (option json * cache_table) :=
  match objects_get_live now cache_key t with
  | Ok cache =>
      let cache := incr_hit cache in
      let t := save cache t in
      Ok (Some (row_data cache), t)
  | Raise DoesNotExist => Ok (None, t)
  | Raise e => Raise e
  end.

(** The [defaults] of [update_or_create] in [_save_to_cache]. *)
Record cache_defaults : Type := mk_defaults {
  d_project : Z;
  d_visualization : option Z;
  d_data : json;
  d_expires_at : Z
}.

(** The error the database reports when a row would store SQL [NULL]
    in [data], a [JSONField] without [null=True]; Python's [None] is
    saved as SQL [NULL]. The text is SQLite's. *)
Definition not_null_data : py_exc :=
  IntegrityError "NOT NULL constraint failed: analytics_analyticscache.data".

(** [AnalyticsCache.objects.update_or_create(cache_key=k, defaults=d)]:
    the row with that key gets the defaults and is saved; without such a
    row one is created (hit_count and metadata at their field defaults).
    Saving [None] as [data] fails with [IntegrityError] and leaves the
    table as it was (the call runs in a transaction). *)
Definition update_or_create (now : Z) (k : string) (d : cache_defaults)
    (t : cache_table) : result cache_table :=
  match filter (fun r => String.eqb (cache_key r) k) (rows t) with
  | [] =>
      match d_data d with
      | JNull => Raise not_null_data
      | _ =>
          let r := mk_row (next_id t) k (d_project d) (d_visualization d)
                          (d_data d) (JDict []) now (d_expires_at d) 0 in
          Ok (mk_table (rows t ++ [r]) (S (next_id t)))
      end
  | [r] =>
      match d_data d with
      | JNull => Raise not_null_data
      | _ =>
          let r' := mk_row (row_id r) (cache_key r) (d_project d)
                           (d_visualization d) (d_data d) (row_metadata r)
                           (row_created_at r) (d_expires_at d) (row_hit_count r) in
          Ok (save r' t)
      end
  | _ => Raise MultipleObjectsReturned
  end.

(** [AnalyticsEngine._save_to_cache]; [viz_id] is [visualization.id]
    ([None] for an unsaved preview). *)
Definition _save_to_cache (now : Z) (project_id : Z) (cache_key : string)
    (data : json) (viz_id : option Z) (t : cache_table) : result cache_table :=
  match viz_id with
  | None => Ok t
  | Some _ =>
      let expires_at := now + ttl in
      update_or_create now cache_key
        (mk_defaults project_id viz_id data expires_at) t
  end.

(** Cache operations issued by [evaluate_visualization]. *)
Inductive cache_op : Type :=
| OpGet (now : Z) (k : string)
| OpPut (now : Z) (project_id : Z) (k : string) (data : json) (viz_id : option Z).

Definition run_op (o : cache_op) (t : cache_table) : result cache_table :=
  match o with
  | OpGet now k => p <- _get_from_cache now k t ;; Ok (snd p)
  | OpPut now pid k d v => _save_to_cache now pid k d v t
  end.

(** A sequence of cache operations, each in a request of its own: an
    operation that raises leaves the table as it was (its transaction is
    rolled back) and the next one runs. The final table, and the
    exceptions raised, in order. *)
Fixpoint run_ops (os : list cache_op) (t : cache_table) : cache_table * list py_exc :=
  match os with
  | [] => (t, [])
  | o :: os' =>
      match run_op o t with
      | Ok t' => run_ops os' t'
      | Raise e => let '(t'', es) := run_ops os' t in (t'', e :: es)
      end
  end.

(** The payloads of the puts of a sequence. *)
Definition put_data (os : list cache_op) : list json :=
  flat_map (fun o => match o with OpPut _ _ _ d _ => [d] | OpGet _ _ => [] end) os.

(** Table invariant: primary keys and cache keys are unique and the id
    sequence is ahead of every id. *)
Definition wf_table (t : cache_table) : Prop :=
  NoDup (map row_id (rows t)) /\ NoDup (map cache_key (rows t)) /\
  (forall r, In r (rows t) -> (row_id r < next_id t)%nat).

Definition empty_table : cache_table := mk_table [] 1.

End Cache.

(* ================================================================= *)
(** ** [_aggregate_data] and [_get_dimension_key] *)
(* ================================================================= *)

Module Analytics.
Import PyStr Indicators.

(** A record of [_fetch_data]: [query.values('indicator__name',
    'indicator_id', 'value', 'period', 'calculated_at', 'survey__name')]
    on [IndicatorValue] ([value] is a [FloatField]); [calculated_at] is
    kept as its [str] rendering. *)
Record iv_item : Type := mk_item {
  indicator__name : string;
  indicator_id : Z;
  value : PyFloat.t;
  period : string;
  calculated_at : string;
  survey__name : string
}.

(** [str(item.get(dim, ''))]: [str] of the field named [dim], or of the
    default [''] when the record has no such key. *)
Definition dim_value (item : iv_item) (dim : string) : string :=
  if String.eqb dim "indicator__name" then indicator__name item
  else if String.eqb dim "indicator_id" then Z_str (indicator_id item)
  else if String.eqb dim "value" then PyFloat.repr (value item)
  else if String.eqb dim "period" then period item
  else if String.eqb dim "calculated_at" then calculated_at item
  else if String.eqb dim "survey__name" then survey__name item
  else "".

(** [AnalyticsEngine._get_dimension_key] *)
Definition _get_dimension_key (item : iv_item) (dimensions : list string) : string :=
  join "_" (map (dim_value item) dimensions).

(** [f"{row_key}_{col_key}"] *)
Definition cell_key (rows columns : list string) (item : iv_item) : string :=
  (_get_dimension_key item rows ++ "_" ++ _get_dimension_key item columns)%string.

(** An entry of [aggregated] during the grouping loop. *)
Record group : Type := mk_group {
  g_row : string;
  g_column : string;
  g_values : list PyFloat.t
}.

(** An entry of [aggregated] once [sum], [avg] and [count] are set. *)
Record agg_cell : Type := mk_cell {
  row : string;
  column : string;
  values : list PyFloat.t;
  sum : PyFloat.t;
  avg : num;
  count : Z
}.

(** [aggregated[key]] of a dict kept in insertion order. *)
Fixpoint dict_lookup {A} (key : string) (d : list (string * A)) : option A :=
  match d with
  | [] => None
  | (k, a) :: r => if String.eqb k key then Some a else dict_lookup key r
  end.

(** One step of the grouping loop: [if key not in aggregated:] a new
    entry at the end; then [aggregated[key]['values'].append(v)]. *)
Fixpoint add_value (key row_key col_key : string) (v : PyFloat.t)
    (aggregated : list (string * group)) : list (string * group) :=
  match aggregated with
  | [] => [(key, mk_group row_key col_key [v])]
  | (k, g) :: r =>
      if String.eqb k key
      then (k, mk_group (g_row g) (g_column g) (g_values g ++ [v])) :: r
      else (k, g) :: add_value key row_key col_key v r
  end.

(** [for item in data:] of the grouping loop. *)
Definition group_loop (rows columns : list string) (data : list iv_item)
  : list (string * group) :=
  fold_left (fun aggregated item =>
               let row_key := _get_dimension_key item rows in
               let col_key := _get_dimension_key item columns in
               let key := (row_key ++ "_" ++ col_key)%string in
               add_value key row_key col_key (value item) aggregated)
            data [].

(** [layout.get(k, [])] on a layout whose entries are lists of field
    names. *)
Definition layout_get (layout : list (string * list string)) (k : string) : list string :=
  match dict_lookup k layout with
  | Some l => l
  | None => []
  end.

Section Aggregate.
(** Python's built-in [sum] on a list of floats. *)
Variable py_sum : list PyFloat.t -> PyFloat.t.

(** The second loop: [sum], [avg] ([sum(values) / len(values) if values
    else 0]) and [count] of an entry. *)
Definition finish (g : group) : agg_cell :=
  let vs := g_values g in
  mk_cell (g_row g) (g_column g) vs (py_sum vs)
          (match vs with
           | [] => NInt 0
           | _ => NFloat (PyFloat.div (py_sum vs) (PyFloat.of_Z (Z.of_nat (List.length vs))))
           end)
          (Z.of_nat (List.length vs)).

(** [AnalyticsEngine._aggregate_data] *)
Definition _aggregate_data (data : list iv_item) (layout : list (string * list string))
  : list (string * agg_cell) :=
  match data with
  | [] => []
  | _ =>
      let rows := layout_get layout "rows" in
      let columns := layout_get layout "columns" in
      map (fun kg => (fst kg, finish (snd kg))) (group_loop rows columns data)
  end.

End Aggregate.

(** A record of an indicator value for the period Q1 2024 of the survey
    Baseline. *)
Definition demo_item : iv_item :=
  mk_item "Enrolment rate" 7 (PyFloat.of_Z 42) "Q1 2024" "2024-04-01 09:30:00+00:00" "Baseline".

End Analytics.

(* ================================================================= *)
(** ** [_generate_cache_key] *)
(* ================================================================= *)

Module Fingerprint.
Import PyStr.
Local Open Scope nat_scope.

(** A [Visualization] instance as [_generate_cache_key] sees it: [id] is
    [None] before the first save; [updated_at] ([auto_now]) is given by
    its [isoformat()] text, [None] before the first save. *)
Record visualization : Type := mk_viz {
  id : option Z;
  visualization_type : string;
  dimensions : json;
  filters : json;
  layout : json;
  display_options : json;
  updated_at : option string
}.

Definition backslash : ascii := ascii_of_nat 92.

(** A lower-case hexadecimal digit. *)
Definition hex_digit (n : nat) : ascii :=
  if n <? 10 then ascii_of_nat (48 + n) else ascii_of_nat (87 + n).

(** One character of a JSON string as [json.dumps] writes it with
    [ensure_ascii=True]: a backslash escape for the backslash, the
    double quote and the five named control characters, [\u00XX] for any
    other character outside the printable ASCII range. *)
Definition json_escape_char (c : ascii) : list ascii :=
  let n := nat_of_ascii c in
  if n =? 92 then [backslash; backslash]
  else if n =? 34 then [backslash; dquote]
  else if n =? 8 then [backslash; "b"%char]
  else if n =? 12 then [backslash; "f"%char]
  else if n =? 10 then [backslash; "n"%char]
  else if n =? 13 then [backslash; "r"%char]
  else if n =? 9 then [backslash; "t"%char]
  else if (32 <=? n) && (n <=? 126) then [c]
  else [backslash; "u"%char; "0"%char; "0"%char; hex_digit (n / 16); hex_digit (n mod 16)].

(** A JSON string literal. *)
Definition json_str (s : string) : string :=
  sol (dquote :: flat_map json_escape_char (las s) ++ [dquote]).

(** [<] on Python strings: code point order. *)
Fixpoint str_ltb (a b : list ascii) : bool :=
  match a, b with
  | _, [] => false
  | [], _ :: _ => true
  | x :: a', y :: b' =>
      if nat_of_ascii x <? nat_of_ascii y then true
      else if nat_of_ascii x =? nat_of_ascii y then str_ltb a' b'
      else false
  end.

Fixpoint insert_kv {A} (kv : string * A) (l : list (string * A)) : list (string * A) :=
  match l with
  | [] => [kv]
  | y :: r => if str_ltb (las (fst kv)) (las (fst y)) then kv :: l else y :: insert_kv kv r
  end.

(** [sorted(d.items())] of a dict, whose keys are distinct. *)
Definition sort_items {A} (l : list (string * A)) : list (string * A) :=
  fold_left (fun acc kv => insert_kv kv acc) l [].

(** [json.dumps(obj, sort_keys=True)] with the default separators
    [', '] and [': ']. *)
Fixpoint json_dumps (j : json) : string :=
  match j with
  | JNull => "null"
  | JBool true => "true"
  | JBool false => "false"
  | JInt z => Z_str z
  | JStr s => json_str s
  | JList l => ("[" ++ join ", " (map json_dumps l) ++ "]")%string
  | JDict kvs =>
      ("{" ++ join ", " (map (fun kv => json_str (fst kv) ++ ": " ++ snd kv)%string
                             (sort_items (map (fun kv => (fst kv, json_dumps (snd kv))) kvs)))
       ++ "}")%string
  end.

(** The [key_data] dict of [_generate_cache_key]. *)
Definition key_data (visualization : visualization) : json :=
  JDict [("viz_id", match id visualization with
                    | Some z => if (z =? 0)%Z then JStr "preview" else JInt z
                    | None => JStr "preview"
                    end);
         ("dimensions", dimensions visualization);
         ("filters", filters visualization);
         ("updated_at", match updated_at visualization with
                        | Some iso => JStr iso
                        | None => JStr "preview"
                        end)].

(** The [viz_id] and [updated_at] values of [key_data]. *)
Definition viz_id_json (visualization : visualization) : json :=
  match id visualization with
  | Some z => if (z =? 0)%Z then JStr "preview" else JInt z
  | None => JStr "preview"
  end.

Definition updated_json (visualization : visualization) : json :=
  match updated_at visualization with
  | Some iso => JStr iso
  | None => JStr "preview"
  end.

(** A JSON value with the entries of every dict in [sort_keys] order:
    two values have the same [canon] when they differ only in the order
    of dict entries. *)
Fixpoint canon (j : json) : json :=
  match j with
  | JList l => JList (map canon l)
  | JDict kvs => JDict (sort_items (map (fun kv => (fst kv, canon (snd kv))) kvs))
  | _ => j
  end.

Section Key.
(** [hashlib.md5(s.encode()).hexdigest()] *)
Variable md5_hexdigest : string -> string.

(** [AnalyticsEngine._generate_cache_key] *)
Definition _generate_cache_key (visualization : visualization) : string :=
  let key_string := json_dumps (key_data visualization) in
  md5_hexdigest key_string.

End Key.

(** A saved column chart of indicator 1 over the last 12 months, laid out
    by period, and the same visualization with another layout. *)
Definition viz_a : visualization :=
  mk_viz (Some 5%Z) "column_chart"
         (JDict [("data", JList [JInt 1]);
                 ("period", JDict [("type", JStr "relative"); ("value", JStr "LAST_12_MONTHS")])])
         (JDict []) (JDict [("rows", JList [JStr "period"])]) (JDict [])
         (Some "2024-05-01T10:00:00+00:00").

Definition viz_b : visualization :=
  mk_viz (Some 5%Z) "column_chart" (dimensions viz_a) (filters viz_a)
         (JDict [("rows", JList [JStr "data"]); ("columns", JList [JStr "period"])])
         (JDict []) (updated_at viz_a).

(** [viz_a] after a later save. *)
Definition viz_c : visualization :=
  mk_viz (Some 5%Z) "column_chart" (dimensions viz_a) (filters viz_a) (layout viz_a)
         (JDict []) (Some "2024-06-01T08:00:00+00:00").

End Fingerprint.

(* ================================================================= *)
(** ** Python dicts of objects *)
(* ================================================================= *)

Module PyDict.
Import Frame.

(** [k in d] *)
Definition dict_has (k : string) (d : list (string * pyobj)) : bool :=
  existsb (fun kv => String.eqb (fst kv) k) d.

(** [d[k] = v]: the binding of [k] is replaced in place, a new key goes
    at the end. *)
Fixpoint dict_set (k : string) (v : pyobj) (d : list (string * pyobj))
  : list (string * pyobj) :=
  match d with
  | [] => [(k, v)]
  | (k', v') :: r => if String.eqb k' k then (k', v) :: r else (k', v') :: dict_set k v r
  end.

(** [d.get(k, default)] *)
Definition dict_get_or (d : list (string * pyobj)) (k : string) (default : pyobj) : pyobj :=
  if dict_has k d then dict_get d k else default.

End PyDict.

(* ================================================================= *)
(** ** Summary statistics of the dataset ([indicators/services.py]) *)
(* ================================================================= *)

Module Summary.
Import PyStr Frame Indicators PyDict.

Section Stats.
Variable B : backend.
(** pandas' [Series.median()] and [Series.std()] of the numeric series. *)
Variables (median std : num_series -> num).

(** [safe_float]: [None] for a NaN or infinite value, [float(value)]
    otherwise. *)
Definition safe_float (value : num) : pyobj :=
  match value with
  | NInt z => OFloat (PyFloat.of_Z z)
  | NFloat f => if PyFloat.is_nan f || PyFloat.is_inf f then ONone else OFloat f
  end.

(** [numeric_data.notna().sum()], which is also [numeric_data.count()]. *)
Definition series_count (s : num_series) : nat :=
  match s with
  | IntSeries l => List.length l
  | FloatSeries l => List.length (filter not_nan l)
  end.

(** [stats[column]] for the numeric series of a column. *)
Definition column_stats (numeric_data : num_series) : pyobj :=
  ODict [("count", OInt (Z.of_nat (series_count numeric_data)));
         ("mean", safe_float (series_mean B numeric_data));
         ("median", safe_float (median numeric_data));
         ("std", safe_float (std numeric_data));
         ("min", safe_float (series_min B numeric_data));
         ("max", safe_float (series_max B numeric_data));
         ("sum", safe_float (series_sum B numeric_data))].

(** How many columns of the frame carry the name [c]. *)
Definition occurrences (c : string) (df : frame) : nat :=
  List.length (filter (String.eqb c) (columns df)).

(** One turn of [for column in self.df.columns:].  A name carried by
    more than one column makes [self.df[column]] a [DataFrame], on which
    [pd.to_numeric] raises [TypeError]; the bare [except: pass] skips
    the column. *)
Definition stats_step (df : frame) (stats : list (string * pyobj)) (column : string)
  : list (string * pyobj) :=
  if (1 <? occurrences column df)%nat then stats
  else
    match lookup_col column (cols df) with
    | Some col =>
        let numeric_data := to_numeric B col in
        if (0 <? series_count numeric_data)%nat
        then dict_set column (column_stats numeric_data) stats
        else stats
    | None => stats
    end.

(** [IndicatorComputationService.get_summary_statistics] *)
Definition get_summary_statistics (self : service) : list (string * pyobj) :=
  fold_left (stats_step (df self)) (columns (df self)) [].

End Stats.

End Summary.

(* ================================================================= *)
(** ** Formatting of the aggregated cells ([analytics/services.py]) *)
(* ================================================================= *)

Module Formatting.
Import PyStr Frame Arith Indicators Analytics PyDict.
Local Open Scope Z_scope.

(** A Python int or float as an object. *)
Definition num_obj (n : num) : pyobj :=
  match n with
  | NInt z => OInt z
  | NFloat f => OFloat f
  end.

(** [aggregated[key]] as the dict [_aggregate_data] builds. *)
Definition cell_obj (c : agg_cell) : pyobj :=
  ODict [("row", OStr (row c)); ("column", OStr (column c));
         ("values", OList (map OFloat (values c)));
         ("sum", OFloat (sum c)); ("avg", num_obj (avg c)); ("count", OInt (count c))].

(** The dict returned by [_aggregate_data]. *)
Definition data_obj (data : list (string * agg_cell)) : pyobj :=
  ODict (map (fun kc => (fst kc, cell_obj (snd kc))) data).

(** One entry of [chart_data]. *)
Definition chart_point (item : agg_cell) : pyobj :=
  ODict [("name", OStr (row item)); ("value", OFloat (sum item));
         ("average", num_obj (avg item)); ("count", OInt (count item))].

(** [AnalyticsEngine._format_for_chart]: the payload, and [options]
    after the call (the method writes the default labels into the dict
    it was given, which the payload holds). *)
Definition _format_for_chart (data : list (string * agg_cell)) (chart_type : string)
    (options : list (string * pyobj)) : pyobj * list (string * pyobj) :=
  let chart_data := map (fun kc => chart_point (snd kc)) data in
  let options := if dict_has "xAxisLabel" options then options
                 else dict_set "xAxisLabel" (OStr "Period") options in
  let options := if dict_has "yAxisLabel" options then options
                 else dict_set "yAxisLabel" (OStr "Value") options in
  (ODict [("type", OStr chart_type); ("data", OList chart_data);
          ("options", ODict options)], options).

(** [s.add(x)] on a set of strings, kept in insertion order. *)
Definition set_add (x : string) (s : list string) : list string :=
  if existsb (String.eqb x) s then s else s ++ [x].

(** [sorted(list(s))] of a set of strings (its elements are distinct, so
    any sorting algorithm gives this list). *)
Fixpoint insert_str (x : string) (l : list string) : list string :=
  match l with
  | [] => [x]
  | y :: r => if Fingerprint.str_ltb (las x) (las y) then x :: l else y :: insert_str x r
  end.

Definition sorted_strs (l : list string) : list string :=
  fold_left (fun acc x => insert_str x acc) l [].

(** The loop of [_format_for_pivot] filling [rows] and [columns]. *)
Definition pivot_sets (data : list (string * agg_cell)) : list string * list string :=
  fold_left (fun acc kc => (set_add (row (snd kc)) (fst acc), set_add (column (snd kc)) (snd acc)))
            data ([], []).

(** [AnalyticsEngine._format_for_pivot] *)
Definition _format_for_pivot (data : list (string * agg_cell)) (options : list (string * pyobj))
  : pyobj :=
  let rs := fst (pivot_sets data) in
  let cs := snd (pivot_sets data) in
  ODict [("rows", OList (map OStr (sorted_strs rs)));
         ("columns", OList (map OStr (sorted_strs cs)));
         ("data", data_obj data); ("options", ODict options)].

(** [AnalyticsEngine._format_for_pie] *)
Definition _format_for_pie (data : list (string * agg_cell)) (options : list (string * pyobj))
  : pyobj :=
  ODict [("type", OStr "pie_chart");
         ("data", OList (map (fun kc => ODict [("name", OStr (row (snd kc)));
                                               ("value", OFloat (sum (snd kc)))]) data));
         ("options", ODict options)].

(** [total_sum += item['sum']]: an int total is converted to float
    first. *)
Definition add_total (total_sum : num) (x : PyFloat.t) : result num :=
  match total_sum with
  | NInt z => f <- int_to_float z ;; Ok (NFloat (PyFloat.add f x))
  | NFloat f => Ok (NFloat (PyFloat.add f x))
  end.

(** [for item in data.values(): total_sum += item['sum'];
    total_count += item['count']] *)
Fixpoint total_loop (data : list (string * agg_cell)) (total_sum : num) (total_count : Z)
  : result (num * Z) :=
  match data with
  | [] => Ok (total_sum, total_count)
  | (_, item) :: r =>
      s <- add_total total_sum (sum item) ;;
      total_loop r s (total_count + count item)
  end.

(** [total_sum / total_count if total_count > 0 else 0] *)
Definition avg_total (total_sum : num) (total_count : Z) : result num :=
  if 0 <? total_count then
    match total_sum with
    | NInt z =>
        v <- int_true_div z total_count ;;
        match v with VInt w => Ok (NInt w) | VFloat f => Ok (NFloat f) end
    | NFloat f => c <- int_to_float total_count ;; Ok (NFloat (PyFloat.div f c))
    end
  else Ok (NInt 0).

(** [AnalyticsEngine._format_for_single_value] *)
Definition _format_for_single_value (data : list (string * agg_cell))
    (options : list (string * pyobj)) : result pyobj :=
  totals <- total_loop data (NInt 0) 0 ;;
  let total_sum := fst totals in
  let total_count := snd totals in
  avg_value <- avg_total total_sum total_count ;;
  let target := dict_get options "target_value" in
  let trend := dict_get_or options "trend" (OInt 0) in
  Ok (ODict [("type", OStr "single_value");
             ("data", ODict [("value", num_obj total_sum);
                             ("label", dict_get_or options "label" (OStr "Total"));
                             ("trend", trend); ("target", target);
                             ("average", num_obj avg_value)]);
             ("options", ODict options)]).

(** [AnalyticsEngine._format_for_visualization]: the payload, and the
    display options after the call. *)
Definition _format_for_visualization (data : list (string * agg_cell)) (viz_type : string)
    (display_options : list (string * pyobj)) : result (pyobj * list (string * pyobj)) :=
  if existsb (String.eqb viz_type) ["column_chart"; "bar_chart"; "line_chart"; "area_chart"]
  then Ok (_format_for_chart data viz_type display_options)
  else if String.eqb viz_type "pivot_table"
  then Ok (_format_for_pivot data display_options, display_options)
  else if String.eqb viz_type "pie_chart"
  then Ok (_format_for_pie data display_options, display_options)
  else if String.eqb viz_type "single_value"
  then p <- _format_for_single_value data display_options ;; Ok (p, display_options)
  else Ok (data_obj data, display_options).

End Formatting.

(* ================================================================= *)
(** * Proofs *)
(* ================================================================= *)

(* ----------------------------------------------------------------- *)
(** ** Cache store *)
(* ----------------------------------------------------------------- *)

Module CacheProofs.
Import Cache.
Local Open Scope Z_scope.

Lemma NoDup_map_inj {A B} (f : A -> B) (l : list A) x y :
  NoDup (map f l) -> In x l -> In y l -> f x = f y -> x = y.
Proof.
  induction l as [|a l IH]; simpl; intros Hnd Hx Hy Hf; [contradiction|].
  simpl in Hnd; apply NoDup_cons_iff in Hnd as [Hnot Hnd'].
  destruct Hx as [<-|Hx], Hy as [<-|Hy]; auto.
  - exfalso; apply Hnot; rewrite Hf; apply in_map; exact Hy.
  - exfalso; apply Hnot; rewrite <- Hf; apply in_map; exact Hx.
Qed.

Lemma filter_none (P : cache_row -> bool) (l : list cache_row) :
  (forall r, In r l -> P r = false) -> filter P l = [].
Proof.
  induction l as [|a l IH]; simpl; intros H; [reflexivity|].
  rewrite (H a (or_introl eq_refl)); apply IH; auto.
Qed.

(** With unique keys, at most the row carrying a key passes a filter on it. *)
Lemma filter_key_single (P : cache_row -> bool) (l : list cache_row) r k :
  NoDup (map cache_key l) -> In r l -> cache_key r = k -> P r = true ->
  filter (fun x => String.eqb (cache_key x) k && P x) l = [r].
Proof.
  induction l as [|a l IH]; simpl; intros Hnd Hin Hk HP; [contradiction|].
  simpl in Hnd; apply NoDup_cons_iff in Hnd as [Hnot Hnd'].
  destruct Hin as [<-|Hin].
  - rewrite Hk, String.eqb_refl, HP; simpl. f_equal. subst k.
    apply filter_none. intros x Hx.
    destruct (String.eqb_spec (cache_key x) (cache_key a)) as [E|E]; [|reflexivity].
    exfalso; apply Hnot; rewrite <- E; apply in_map; exact Hx.
  - destruct (String.eqb_spec (cache_key a) k) as [E|E]; simpl.
    + exfalso; apply Hnot; rewrite E, <- Hk; apply in_map; exact Hin.
    + apply IH; auto.
Qed.

Lemma filter_key_unique (l : list cache_row) k :
  NoDup (map cache_key l) ->
  filter (fun x => String.eqb (cache_key x) k) l = [] \/
  exists r, In r l /\ cache_key r = k /\
            filter (fun x => String.eqb (cache_key x) k) l = [r].
Proof.
  intros Hnd.
  destruct (List.find (fun x => String.eqb (cache_key x) k) l) as [r|] eqn:F.
  - right. apply find_some in F as [Hin Hk]. apply String.eqb_eq in Hk.
    exists r; split; [exact Hin|split; [exact Hk|]].
    rewrite <- (filter_key_single (fun _ => true) l r k Hnd Hin Hk eq_refl).
    apply filter_ext; intros; rewrite andb_true_r; reflexivity.
  - left. apply filter_none; intros r Hin.
    exact (find_none _ _ F r Hin).
Qed.

(** Saving a row whose id and key are those of a row of the table keeps
    the id and key columns. *)
Lemma save_keys (r : cache_row) (t : cache_table) :
  In (row_id r) (map row_id (rows t)) ->
  (forall r', In r' (rows t) -> row_id r' = row_id r -> cache_key r' = cache_key r) ->
  map row_id (rows (save r t)) = map row_id (rows t) /\
  map cache_key (rows (save r t)) = map cache_key (rows t).
Proof.
  intros _ Hk; unfold save; simpl; rewrite !map_map; split;
    apply map_ext_in; intros r' Hin;
    destruct (Nat.eqb_spec (row_id r') (row_id r)) as [E|E]; auto.
  symmetry; apply Hk; auto.
Qed.

Lemma save_wf (r : cache_row) (t : cache_table) r0 :
  wf_table t -> In r0 (rows t) -> row_id r = row_id r0 -> cache_key r = cache_key r0 ->
  wf_table (save r t).
Proof.
  intros (Hid & Hkey & Hlt) Hin Hi Hc.
  assert (Hk : forall r', In r' (rows t) -> row_id r' = row_id r -> cache_key r' = cache_key r).
  { intros r' Hr' E. rewrite Hi in E.
    rewrite (NoDup_map_inj row_id (rows t) r' r0 Hid Hr' Hin E); auto. }
  destruct (save_keys r t) as [E1 E2]; [rewrite Hi; apply in_map; exact Hin|exact Hk|].
  split; [rewrite E1; exact Hid|split; [rewrite E2; exact Hkey|]].
  unfold save; simpl; intros r' Hr'.
  apply in_map_iff in Hr' as (x & <- & Hx).
  destruct (Nat.eqb_spec (row_id x) (row_id r)) as [E|E]; simpl; auto.
  rewrite Hi; apply Hlt; exact Hin.
Qed.

Lemma get_from_cache_wf now k t :
  wf_table t ->
  (exists p, _get_from_cache now k t = Ok p /\ wf_table (snd p)).
Proof.
  intros Hwf. pose proof Hwf as (Hid & Hkey & Hlt).
  unfold _get_from_cache, objects_get_live.
  destruct (List.find (fun x => String.eqb (cache_key x) k && Z.ltb now (row_expires_at x)) (rows t)) as [r|] eqn:F.
  - apply find_some in F as [Hin Hc].
    apply andb_true_iff in Hc as [Hk Hl]. apply String.eqb_eq in Hk.
    rewrite (filter_key_single (fun x => Z.ltb now (row_expires_at x)) (rows t) r k Hkey Hin Hk Hl).
    eexists; split; [reflexivity|]; simpl.
    apply (save_wf _ _ r Hwf Hin); reflexivity.
  - rewrite filter_none by (intros r Hin; exact (find_none _ _ F r Hin)).
    eexists; split; [reflexivity|exact Hwf].
Qed.

Lemma update_or_create_nonnull now k d t :
  d_data d <> JNull ->
  update_or_create now k d t =
  match filter (fun r => String.eqb (cache_key r) k) (rows t) with
  | [] =>
      Ok (mk_table (rows t ++ [mk_row (next_id t) k (d_project d) (d_visualization d)
                                      (d_data d) (JDict []) now (d_expires_at d) 0])
                   (S (next_id t)))
  | [r] =>
      Ok (save (mk_row (row_id r) (cache_key r) (d_project d)
                       (d_visualization d) (d_data d) (row_metadata r)
                       (row_created_at r) (d_expires_at d) (row_hit_count r)) t)
  | _ => Raise MultipleObjectsReturned
  end.
Proof.
  intros H. unfold update_or_create.
  destruct (filter _ (rows t)) as [|? [|? ?]]; auto;
    destruct (d_data d); congruence.
Qed.

Lemma save_to_cache_cases now pid k d v t :
  wf_table t ->
  (exists t', _save_to_cache now pid k d v t = Ok t' /\ wf_table t') \/
  (v <> None /\ d = JNull /\ _save_to_cache now pid k d v t = Raise not_null_data).
Proof.
  intros Hwf. pose proof Hwf as (Hid & Hkey & Hlt).
  destruct v as [z|]; simpl; [|left; eauto].
  unfold update_or_create.
  destruct (filter_key_unique (rows t) k Hkey) as [F|(r & Hin & Hk & F)]; rewrite F;
    cbn [d_data]; (destruct d eqn:Hd; [right; repeat split; congruence|..]); left.
  all: try (eexists; split; [reflexivity|]; apply (save_wf _ _ r Hwf Hin); reflexivity).
  all: eexists; split; [reflexivity|]; simpl;
    assert (Hnk : ~ In k (map cache_key (rows t)))
      by (intro H; apply in_map_iff in H as (x & Hx & Hin);
          assert (In x (filter (fun x => String.eqb (cache_key x) k) (rows t)))
            by (apply filter_In; split; auto; apply String.eqb_eq; auto);
          rewrite F in H; contradiction);
    assert (Hni : ~ In (next_id t) (map row_id (rows t)))
      by (intro H; apply in_map_iff in H as (x & Hx & Hin);
          specialize (Hlt x Hin); lia);
    (split; [|split]);
    [ cbn [rows]; rewrite map_app; simpl;
      apply NoDup_app; [exact Hid|constructor; [auto|constructor]|];
      intros x Hx [<-|[]]; contradiction
    | cbn [rows]; rewrite map_app; simpl;
      apply NoDup_app; [exact Hkey|constructor; [auto|constructor]|];
      intros x Hx [<-|[]]; contradiction
    | cbn [rows next_id]; intros r' Hr'; apply in_app_or in Hr' as [Hr'|[<-|[]]]; simpl;
      [specialize (Hlt r' Hr'); lia|lia] ].
Qed.

Lemma run_op_cases o t :
  wf_table t ->
  (exists t', run_op o t = Ok t' /\ wf_table t') \/
  (exists now pid k v, o = OpPut now pid k JNull v /\ run_op o t = Raise not_null_data).
Proof.
  intros Hwf. destruct o as [now k|now pid k d v]; simpl.
  - left. destruct (get_from_cache_wf now k t Hwf) as (p & -> & Hp); simpl; eauto.
  - destruct (save_to_cache_cases now pid k d v t Hwf) as [H|(_ & -> & H)]; [left; exact H|].
    right; exists now, pid, k, v; auto.
Qed.

Lemma run_ops_wf ops t :
  wf_table t ->
  wf_table (fst (run_ops ops t)) /\
  (Forall (fun d => d <> JNull) (put_data ops) -> snd (run_ops ops t) = []).
Proof.
  revert t; induction ops as [|o ops IH]; intros t Hwf; simpl; [auto|].
  destruct (run_op_cases o t Hwf) as [(t' & -> & Ht')|(now & pid & k & v & -> & ->)].
  - destruct (IH t' Ht') as [H1 H2]; split; [exact H1|].
    intros Hp; apply H2. destruct o; simpl in Hp; [exact Hp|inversion Hp; auto].
  - destruct (run_ops ops t) as [t'' es] eqn:E; simpl.
    destruct (IH t Hwf) as [H1 H2]; rewrite E in H1; split; [exact H1|].
    intros Hp; simpl in Hp; inversion Hp; congruence.
Qed.

(** C5. [_get_from_cache now k] on a well-formed table: when a row with
    key [k] has [expires_at] strictly after [now], it returns that row's
    payload and the table afterwards is the same except that this row's
    hit_count is one more; when every row with key [k] (if any) has
    [expires_at <= now], it returns [None] and leaves the table as it was
    (no row is deleted, no hit_count changes). *)
Theorem get_from_cache_hit_miss (t : cache_table) (now : Z) (k : string) :
  wf_table t ->
  (forall r, In r (rows t) -> cache_key r = k -> now < row_expires_at r ->
     _get_from_cache now k t =
       Ok (Some (row_data r),
           mk_table
             (map (fun r' =>
                     if String.eqb (cache_key r') k then
                       mk_row (row_id r') (cache_key r') (row_project r')
                              (row_visualization r') (row_data r')
                              (row_metadata r') (row_created_at r')
                              (row_expires_at r') (row_hit_count r' + 1)
                     else r') (rows t))
             (next_id t)))
  /\
  ((forall r, In r (rows t) -> cache_key r = k -> row_expires_at r <= now) ->
     _get_from_cache now k t = Ok (None, t)).
Proof.
  intros Hwf. pose proof Hwf as (Hid & Hkey & Hlt). split.
  - intros r Hin Hk Hl. unfold _get_from_cache, objects_get_live.
    rewrite (filter_key_single (fun x => Z.ltb now (row_expires_at x)) (rows t) r k Hkey Hin Hk)
      by (apply Z.ltb_lt; exact Hl).
    unfold save; simpl. do 3 f_equal.
    apply map_ext_in; intros r' Hr'.
    destruct (Nat.eqb_spec (row_id r') (row_id r)) as [E|E].
    + rewrite (NoDup_map_inj row_id (rows t) r' r Hid Hr' Hin E).
      subst k; rewrite String.eqb_refl; reflexivity.
    + destruct (String.eqb_spec (cache_key r') k) as [E'|E']; [|reflexivity].
      exfalso; apply E. rewrite <- Hk in E'.
      rewrite (NoDup_map_inj cache_key (rows t) r' r Hkey Hr' Hin E'); reflexivity.
  - intros Hexp. unfold _get_from_cache, objects_get_live.
    rewrite filter_none; [reflexivity|].
    intros r Hin.
    destruct (String.eqb_spec (cache_key r) k) as [E|E]; [|reflexivity].
    simpl. apply Z.ltb_ge, Hexp; auto.
Qed.

(** Witness of [get_from_cache_hit_miss] on a one-row table. *)
Definition demo_row : cache_row :=
  mk_row 1 "k1" 7 (Some 3) (JDict [("type", JStr "pie_chart")]) (JDict []) 0 100 4.

Definition demo_table : cache_table := mk_table [demo_row] 2.

Lemma demo_table_wf : wf_table demo_table.
Proof.
  split; [|split]; simpl.
  - constructor; [intros []|constructor].
  - constructor; [intros []|constructor].
  - intros r [<-|[]]; simpl; lia.
Qed.

Lemma get_from_cache_hit_miss_witness :
  wf_table demo_table /\
  _get_from_cache 50 "k1" demo_table =
    Ok (Some (row_data demo_row),
        mk_table [mk_row 1 "k1" 7 (Some 3) (JDict [("type", JStr "pie_chart")])
                   (JDict []) 0 100 5] 2) /\
  _get_from_cache 100 "k1" demo_table = Ok (None, demo_table).
Proof.
  split; [exact demo_table_wf|split].
  - apply (proj1 (get_from_cache_hit_miss demo_table 50 "k1" demo_table_wf)).
    + simpl; left; reflexivity.
    + reflexivity.
    + simpl; lia.
  - apply (proj2 (get_from_cache_hit_miss demo_table 100 "k1" demo_table_wf)).
    intros r [<-|[]] _; simpl; lia.
Defined.

(** C6. [_save_to_cache] on a well-formed table: for an unsaved
    visualization ([id] is [None]) the table is unchanged. Otherwise,
    for a payload other than [None] (the put of [evaluate_visualization]
    passes the formatted result, a dict), the result is well formed,
    holds exactly one row with the key, carrying the new payload and
    [expires_at = now + 24 h], and the rows with other keys are those of
    before; a [None] payload raises [IntegrityError] instead. Any
    sequence of gets and puts starting from a well-formed table ends in a
    well-formed table, so at most one row per cache_key exists, and none
    of them raises when no put has a [None] payload. *)
Theorem save_to_cache_upsert (t : cache_table) (now pid : Z) (k : string)
    (data : json) (viz_id : option Z) :
  wf_table t ->
  (viz_id = None -> _save_to_cache now pid k data viz_id t = Ok t) /\
  (forall v, viz_id = Some v -> data <> JNull ->
     exists t', _save_to_cache now pid k data viz_id t = Ok t' /\ wf_table t' /\
       (exists r, filter (fun x => String.eqb (cache_key x) k) (rows t') = [r] /\
                  row_data r = data /\ row_expires_at r = now + 24 * 3600 * 1000000) /\
       filter (fun x => negb (String.eqb (cache_key x) k)) (rows t') =
       filter (fun x => negb (String.eqb (cache_key x) k)) (rows t)) /\
  (forall v, viz_id = Some v -> data = JNull ->
     _save_to_cache now pid k data viz_id t = Raise not_null_data) /\
  (forall ops, wf_table (fst (run_ops ops t)) /\
     (Forall (fun d => d <> JNull) (put_data ops) -> snd (run_ops ops t) = [])).
Proof.
  intros Hwf. split; [intros ->; reflexivity|split; [|split; [|intros ops; apply run_ops_wf, Hwf]]].
  2:{ intros v -> Hd.
      destruct (save_to_cache_cases now pid k data (Some v) t Hwf) as [(t' & E & _)|(_ & _ & E)];
        [|exact E].
      exfalso. subst data. simpl in E. unfold update_or_create in E.
      destruct (filter (fun r => String.eqb (cache_key r) k) (rows t)) as [|? [|? ?]];
        discriminate. }
  intros v -> Hdn. pose proof Hwf as (Hid & Hkey & Hlt).
  destruct (save_to_cache_cases now pid k data (Some v) t Hwf) as [(t' & E & Ht')|(_ & Hd & _)];
    [|contradiction].
  exists t'; split; [exact E|split; [exact Ht'|]].
  simpl in E. rewrite (update_or_create_nonnull now k (mk_defaults pid (Some v) data (now + ttl)) t Hdn) in E.
  destruct (filter_key_unique (rows t) k Hkey) as [F|(r & Hin & Hk & F)];
    rewrite F in E; injection E as <-; cbn [rows].
  - split.
    + exists (mk_row (next_id t) k pid (Some v) data (JDict []) now (now + ttl) 0).
      rewrite filter_app, F; simpl; rewrite String.eqb_refl; auto.
    + rewrite filter_app; simpl; rewrite String.eqb_refl, app_nil_r; reflexivity.
  - assert (Hmap : forall x, In x (rows t) ->
              (if Nat.eqb (row_id x) (row_id r) then
                 mk_row (row_id r) (cache_key r) pid (Some v) data (row_metadata r)
                        (row_created_at r) (now + ttl) (row_hit_count r) else x)
              = (if String.eqb (cache_key x) k then
                 mk_row (row_id r) (cache_key r) pid (Some v) data (row_metadata r)
                        (row_created_at r) (now + ttl) (row_hit_count r) else x)).
    { intros x Hx.
      destruct (Nat.eqb_spec (row_id x) (row_id r)) as [E1|E1];
      destruct (String.eqb_spec (cache_key x) k) as [E2|E2]; auto.
      - exfalso; apply E2; rewrite (NoDup_map_inj row_id _ x r Hid Hx Hin E1); exact Hk.
      - exfalso; apply E1; rewrite <- Hk in E2;
          rewrite (NoDup_map_inj cache_key _ x r Hkey Hx Hin E2); reflexivity. }
    unfold save; cbn [rows row_id]. rewrite (map_ext_in _ _ _ Hmap).
    set (r' := mk_row (row_id r) (cache_key r) pid (Some v) data (row_metadata r)
                      (row_created_at r) (now + ttl) (row_hit_count r)).
    assert (Hr'k : String.eqb (cache_key r') k = true)
      by (simpl; rewrite Hk; apply String.eqb_refl).
    assert (Hr'd : row_data r' = data /\ row_expires_at r' = now + 24 * 3600 * 1000000)
      by (simpl; auto).
    clearbody r'.
    assert (Hgen : forall l,
      filter (fun x => String.eqb (cache_key x) k)
        (map (fun x => if String.eqb (cache_key x) k then r' else x) l) =
      map (fun _ => r') (filter (fun x => String.eqb (cache_key x) k) l) /\
      filter (fun x => negb (String.eqb (cache_key x) k))
        (map (fun x => if String.eqb (cache_key x) k then r' else x) l) =
      filter (fun x => negb (String.eqb (cache_key x) k)) l).
    { induction l as [|x l [IH1 IH2]]; simpl; [auto|].
      destruct (String.eqb (cache_key x) k) eqn:Ex; simpl.
      - rewrite Hr'k; simpl; rewrite IH1, IH2; auto.
      - rewrite Ex; simpl; rewrite IH1, IH2; auto. }
    destruct (Hgen (rows t)) as [G1 G2]. rewrite G1, G2, F. split; [|reflexivity].
    exists r'; split; [reflexivity|exact Hr'd].
Qed.

(** Witness of [save_to_cache_upsert]: a put over an expired row
    replaces it, and a sequence whose puts carry dicts raises nothing. *)
Lemma save_to_cache_upsert_witness :
  wf_table demo_table /\
  _save_to_cache 200 7 "k1" (JDict []) None demo_table = Ok demo_table /\
  _save_to_cache 200 7 "k1" (JDict []) (Some 3) demo_table =
    Ok (mk_table [mk_row 1 "k1" 7 (Some 3) (JDict []) (JDict []) 0
                   (200 + 24 * 3600 * 1000000) 4] 2) /\
  _save_to_cache 200 7 "k2" JNull (Some 4) demo_table = Raise not_null_data /\
  (wf_table (fst (run_ops [OpPut 200 7 "k1" (JDict []) (Some 3); OpGet 300 "k1";
                           OpPut 300 7 "k2" (JDict [("type", JStr "pie_chart")]) (Some 4)]
                          demo_table)) /\
   snd (run_ops [OpPut 200 7 "k1" (JDict []) (Some 3); OpGet 300 "k1";
                 OpPut 300 7 "k2" (JDict [("type", JStr "pie_chart")]) (Some 4)]
                demo_table) = []).
Proof.
  split; [exact demo_table_wf|split; [|split; [|split]]].
  - apply (proj1 (save_to_cache_upsert demo_table 200 7 "k1" (JDict []) None demo_table_wf)).
    reflexivity.
  - vm_compute; reflexivity.
  - apply (proj1 (proj2 (proj2 (save_to_cache_upsert demo_table 200 7 "k2" JNull (Some 4)
                                  demo_table_wf))) 4); reflexivity.
  - destruct (proj2 (proj2 (proj2 (save_to_cache_upsert demo_table 200 7 "k1" (JDict []) None
                                     demo_table_wf)))
                [OpPut 200 7 "k1" (JDict []) (Some 3); OpGet 300 "k1";
                 OpPut 300 7 "k2" (JDict [("type", JStr "pie_chart")]) (Some 4)])
      as [H1 H2].
    split; [exact H1|apply H2].
    repeat constructor; discriminate.
Defined.

(** C6, the [None] payload: a put of [None] for a saved visualization
    raises [IntegrityError] and leaves the table as it was; a sequence
    containing it reports that exception. *)
Lemma save_none_payload_raises :
  _save_to_cache 200 7 "k2" JNull (Some 4) demo_table = Raise not_null_data /\
  run_ops [OpPut 200 7 "k2" JNull (Some 4); OpGet 300 "k1"] demo_table =
    (mk_table [mk_row 1 "k1" 7 (Some 3) (JDict [("type", JStr "pie_chart")]) (JDict []) 0 100 4] 2,
     [not_null_data]).
Proof. split; vm_compute; reflexivity. Qed.

End CacheProofs.

(* ----------------------------------------------------------------- *)
(** ** String and regular-expression facts; formula substitution *)
(* ----------------------------------------------------------------- *)

Module StrFacts.
Import PyStr Regex ProofDefs.


Lemma all_ascii_spec (f : ascii -> bool) :
  all_ascii f = true -> forall a, f a = true.
Proof.
  intros H a. unfold all_ascii in H. rewrite forallb_forall in H.
  rewrite <- (ascii_nat_embedding a). apply H, in_map, in_seq.
  pose proof (nat_ascii_bounded a). lia.
Qed.



Lemma field_not_paren : forall a, is_field_char a = true -> is_paren a = false.
Proof.
  intro a.
  generalize (all_ascii_spec (fun a => negb (is_field_char a) || negb (is_paren a))
                ltac:(vm_compute; reflexivity) a).
  destruct (is_field_char a), (is_paren a); simpl; congruence.
Qed.

Lemma upper_not_paren :
  forall a, is_upper_letter (upper a) = true -> is_paren a = false.
Proof.
  intro a.
  generalize (all_ascii_spec (fun a => negb (is_upper_letter (upper a)) || negb (is_paren a))
                ltac:(vm_compute; reflexivity) a).
  destruct (is_upper_letter (upper a)), (is_paren a); simpl; congruence.
Qed.

Lemma upper_fix : forall a, is_upper_letter a = true -> upper a = a.
Proof.
  intro a.
  generalize (all_ascii_spec (fun a => negb (is_upper_letter a) || ascii_eqb (upper a) a)
                ltac:(vm_compute; reflexivity) a).
  destruct (is_upper_letter a); simpl; [| congruence].
  intros H _. now apply Ascii.eqb_eq.
Qed.

(** Two lists that split at a first occurrence of their delimiters. *)
Lemma split_at_char (a b r s : list ascii) (x y : ascii) :
  a ++ x :: r = b ++ y :: s ->
  (forall z, In z a -> z <> y) -> (forall z, In z b -> z <> x) ->
  a = b /\ x = y /\ r = s.
Proof.
  revert b. induction a as [| u a IH]; intros [| v b] E Ha Hb; simpl in E.
  - inversion E. auto.
  - injection E as Hx _. exfalso. apply (Hb v); simpl; auto.
  - injection E as Hy _. exfalso. apply (Ha u); simpl; auto.
  - injection E as Huv E. subst v.
    destruct (IH b) as (-> & -> & ->); auto.
    + intros z Hz. apply Ha. simpl; auto.
    + intros z Hz. apply Hb. simpl; auto.
Qed.

Lemma span_all (p : ascii -> bool) (a b : list ascii) :
  forallb p a = true ->
  span p (a ++ b) = let '(x, y) := span p b in (a ++ x, y).
Proof.
  induction a as [| c a IH]; simpl; intros H.
  - destruct (span p b); reflexivity.
  - apply andb_true_iff in H as [Hc Ha]. rewrite Hc, IH by exact Ha.
    destruct (span p b); reflexivity.
Qed.

Lemma match_ci_spec (name s r : list ascii) :
  match_ci name s = Some r -> exists nm, s = nm ++ r /\ map upper nm = name.
Proof.
  revert s. induction name as [| n name IH]; intros [| c s] H; simpl in H.
  - inversion H. exists []. auto.
  - inversion H. exists []. auto.
  - discriminate.
  - destruct (ascii_eqb (upper c) n) eqn:E; [| discriminate].
    apply IH in H as (nm & -> & <-). exists (c :: nm). split; [reflexivity |].
    simpl. f_equal. now apply Ascii.eqb_eq.
Qed.

Lemma match_ci_self (name s : list ascii) :
  forallb is_upper_letter name = true -> match_ci name (name ++ s) = Some s.
Proof.
  induction name as [| n name IH]; simpl; intros H; [reflexivity |].
  apply andb_true_iff in H as [Hn H]. rewrite upper_fix by exact Hn.
  unfold ascii_eqb. rewrite Ascii.eqb_refl. auto.
Qed.

(** The shape of a call match: the name as written, [(], group 1, [)]. *)
Lemma match_call_spec (name t g r : list ascii) :
  match_call name t = Some (g, r) ->
  exists nm, t = nm ++ "("%char :: g ++ ")"%char :: r /\ map upper nm = name /\
             g <> [] /\ forallb is_field_char g = true.
Proof.
  unfold match_call. destruct (match_ci name t) as [[| c r0] |] eqn:E; try discriminate.
  apply match_ci_spec in E as (nm & -> & Hnm).
  destruct (ascii_eqb c "(") eqn:Ec; [| discriminate].
  apply Ascii.eqb_eq in Ec; subst c.
  assert (Hs : forall l, span is_field_char l = (fst (span is_field_char l), snd (span is_field_char l))
            /\ l = fst (span is_field_char l) ++ snd (span is_field_char l)
            /\ forallb is_field_char (fst (span is_field_char l)) = true).
  { induction l as [| x l IH]; simpl; [auto |].
    destruct (is_field_char x) eqn:Hx; [| simpl; auto].
    destruct (span is_field_char l) as [u v]; simpl in *.
    destruct IH as (_ & IH1 & IH2). rewrite Hx, IH2. rewrite <- IH1. auto. }
  destruct (Hs r0) as (_ & Hr0 & Hall).
  destruct (span is_field_char r0) as [g1 r'] eqn:Sp; simpl in *.
  destruct g1 as [| x g1]; [discriminate |].
  destruct r' as [| c' rest]; [discriminate |].
  destruct (ascii_eqb c' ")") eqn:Ec'; [| discriminate].
  apply Ascii.eqb_eq in Ec'; subst c'. intros H; inversion H; subst.
  exists nm. repeat split; auto. discriminate.
Qed.

Lemma match_call_head (name c rest : list ascii) :
  forallb is_upper_letter name = true -> c <> [] -> forallb is_field_char c = true ->
  match_call name (name ++ "("%char :: c ++ ")"%char :: rest) = Some (c, rest).
Proof.
  intros Hn Hc Hf. unfold match_call. rewrite match_ci_self by exact Hn.
  simpl. rewrite span_all by exact Hf. simpl.
  rewrite app_nil_r. destruct c as [| x c]; [congruence |]. reflexivity.
Qed.

Lemma finditer_skip {A} (m : list ascii -> option (A * list ascii)) (p r : list ascii) :
  finditer m (List.length p) (p ++ r) = finditer m O r.
Proof.
  induction p as [| x p IH]; simpl; [reflexivity |].
  destruct p as [| y p]; simpl in *.
  - destruct r; reflexivity.
  - exact IH.
Qed.

Lemma finditer_head {A} (m : list ascii -> option (A * list ascii)) (p r : list ascii) g :
  p <> [] -> m (p ++ r) = Some (g, r) ->
  finditer m O (p ++ r) = (p, g) :: finditer m O r.
Proof.
  intros Hp Hm. destruct p as [| x p]; [congruence |].
  cbn [app] in Hm |- *. cbn [finditer]. rewrite Hm.
  replace (List.length (x :: p ++ r) - List.length r)%nat with (S (List.length p))
    by (cbn [List.length]; rewrite length_app; lia).
  simpl pred. rewrite finditer_skip.
  change (x :: p ++ r) with ((x :: p) ++ r).
  rewrite firstn_app, firstn_all2 by (simpl; lia).
  replace (S (List.length p) - List.length (x :: p))%nat with O by (simpl; lia).
  rewrite app_nil_r. reflexivity.
Qed.

Lemma finditer_nil {A} (m : list ascii -> option (A * list ascii)) (s : list ascii) k :
  (forall j, m (skipn j s) = None) -> finditer m k s = [].
Proof.
  revert k. induction s as [| c s IH]; intros k H; simpl; [reflexivity |].
  assert (H' : forall j, m (skipn j s) = None) by (intro j; exact (H (S j))).
  destruct k; [| now apply IH].
  rewrite (H O : m (c :: s) = None). now apply IH.
Qed.


Lemma finditer_step {A} (m : list ascii -> option (A * list ascii)) c s k :
  finditer m k (c :: s) =
  match k with
  | S k' => finditer m k' s
  | O => match m (c :: s) with
         | Some (g, rest) =>
             (firstn (List.length (c :: s) - List.length rest) (c :: s), g)
               :: finditer m (pred (List.length (c :: s) - List.length rest)) s
         | None => finditer m O s
         end
  end.
Proof. reflexivity. Qed.

Lemma finditer_in {A} (m : list ascii -> option (A * list ascii)) s k p g :
  consumes m -> In (p, g) (finditer m k s) -> exists r, m (p ++ r) = Some (g, r).
Proof.
  intros Hm. revert k. induction s as [| c s IH]; intros k H; [contradiction |].
  rewrite finditer_step in H.
  destruct k; [| eapply IH; eauto].
  destruct (m (c :: s)) as [[g' r] |] eqn:E; [| eapply IH; eauto].
  destruct H as [H | H]; [| eapply IH; eauto].
  apply pair_equal_spec in H as [<- <-]. exists r.
  destruct (Hm _ _ _ E) as [q Hq]. rewrite Hq in E |- *.
  rewrite length_app, Nat.add_sub, firstn_app, firstn_all, Nat.sub_diag, app_nil_r.
  exact E.
Qed.

(** [finditer] runs through a prefix in which every match ends. *)
Lemma finditer_split {A} (m : list ascii -> option (A * list ascii)) pre rest k :
  consumes m -> (k <= List.length pre)%nat ->
  (forall j g r, (j < List.length pre)%nat -> m (skipn j pre ++ rest) = Some (g, r) ->
                 (List.length rest <= List.length r)%nat) ->
  exists L, finditer m k (pre ++ rest) = L ++ finditer m O rest.
Proof.
  intros Hm. revert k. induction pre as [| c pre IH]; intros k Hk H.
  - exists []. simpl in Hk. replace k with O by lia. reflexivity.
  - assert (H' : forall j g r, (j < List.length pre)%nat ->
                 m (skipn j pre ++ rest) = Some (g, r) ->
                 (List.length rest <= List.length r)%nat).
    { intros j g r Hj. apply (H (S j)). simpl; lia. }
    change ((c :: pre) ++ rest) with (c :: (pre ++ rest)).
    rewrite finditer_step. destruct k as [| k].
    + destruct (m (c :: pre ++ rest)) as [[g r] |] eqn:E.
      * assert (Hlen : (List.length rest <= List.length r)%nat).
        { apply (H O g r); [simpl; lia | exact E]. }
        destruct (IH (pred (List.length (c :: pre ++ rest) - List.length r))) as [L HL];
          [| exact H' |].
        { cbn [List.length]. rewrite length_app. lia. }
        exists ((firstn (List.length (c :: pre ++ rest) - List.length r) (c :: pre ++ rest), g) :: L).
        rewrite HL. reflexivity.
      * destruct (IH O) as [L HL]; [lia | exact H' |]. exists L. exact HL.
    + destruct (IH k) as [L HL]; [simpl in Hk; lia | exact H' |]. exists L. exact HL.
Qed.

Lemma prefixb_spec (p s : list ascii) :
  prefixb p s = true <-> exists t, s = p ++ t.
Proof.
  revert s. induction p as [| a p IH]; intros [| b s]; simpl.
  - split; eauto.
  - split; eauto.
  - split; [discriminate | intros [t Ht]; discriminate].
  - rewrite andb_true_iff, IH. unfold ascii_eqb. rewrite Ascii.eqb_eq. split.
    + intros [-> [t ->]]. eauto.
    + intros [t Ht]. injection Ht as -> ->. eauto.
Qed.

Lemma replace_from_skip (old new p r : list ascii) :
  replace_from old new (List.length p) (p ++ r) = replace_from old new O r.
Proof.
  induction p as [| x p IH]; simpl; [reflexivity |].
  destruct p as [| y p]; simpl in *.
  - destruct r; reflexivity.
  - exact IH.
Qed.

Lemma replace_from_occ (old new r : list ascii) :
  old <> [] -> replace_from old new O (old ++ r) = new ++ replace_from old new O r.
Proof.
  intros Ho. destruct old as [| a o]; [congruence |]. cbn [app replace_from].
  replace (prefixb (a :: o) (a :: o ++ r)) with true
    by (symmetry; apply prefixb_spec; exists r; reflexivity).
  cbn [List.length pred]. rewrite replace_from_skip. reflexivity.
Qed.

Lemma replace_self (old new : list ascii) : old <> [] -> replace old old new = new.
Proof.
  intros Ho. pose proof (replace_from_occ old new [] Ho) as H.
  rewrite !app_nil_r in H. simpl in H. rewrite ?app_nil_r in H.
  destruct old as [| a o]; [congruence |]. exact H.
Qed.

(** [replace] runs through a prefix in which every occurrence ends. *)
Lemma replace_split (old new pre rest : list ascii) k :
  (k <= List.length pre)%nat ->
  (forall j, (j < List.length pre)%nat -> prefixb old (skipn j pre ++ rest) = true ->
             (j + List.length old <= List.length pre)%nat) ->
  exists X, replace_from old new k (pre ++ rest) = X ++ replace_from old new O rest.
Proof.
  revert k. induction pre as [| c pre IH]; intros k Hk H.
  - exists []. simpl in Hk. replace k with O by lia. reflexivity.
  - assert (H' : forall j, (j < List.length pre)%nat ->
                 prefixb old (skipn j pre ++ rest) = true ->
                 (j + List.length old <= List.length pre)%nat).
    { intros j Hj Hp. specialize (H (S j)). simpl in H. apply le_S_n, H; [lia | exact Hp]. }
    cbn [app replace_from]. destruct k as [| k].
    + destruct (prefixb old (c :: pre ++ rest)) eqn:E.
      * assert (Hl : (List.length old <= S (List.length pre))%nat)
          by (apply (H O); [simpl; lia | exact E]).
        destruct (IH (pred (List.length old))) as [X HX]; [lia | exact H' |].
        exists (new ++ X). rewrite HX, app_assoc. reflexivity.
      * destruct (IH O) as [X HX]; [lia | exact H' |].
        exists (c :: X). rewrite HX. reflexivity.
    + destruct (IH k) as [X HX]; [simpl in Hk; lia | exact H' |]. exists X. exact HX.
Qed.

(** [replace] leaves a segment at which no occurrence starts. *)
Lemma replace_keep (old new t post : list ascii) :
  (forall j, (j < List.length t)%nat -> prefixb old (skipn j t ++ post) = false) ->
  replace_from old new O (t ++ post) = t ++ replace_from old new O post.
Proof.
  induction t as [| c t IH]; intros H; [reflexivity |].
  cbn [app replace_from].
  replace (prefixb old (c :: t ++ post)) with false by (symmetry; apply (H O); simpl; lia).
  f_equal.
  apply IH. intros j Hj. apply (H (S j)). simpl; lia.
Qed.


Lemma no_paren_open l z : no_paren l -> In z l -> z <> "("%char.
Proof. intros H Hz ->. specialize (H _ Hz). discriminate. Qed.

Lemma no_paren_close l z : no_paren l -> In z l -> z <> ")"%char.
Proof. intros H Hz ->. specialize (H _ Hz). discriminate. Qed.

Lemma no_paren_app l1 l2 : no_paren (l1 ++ l2) -> no_paren l1 /\ no_paren l2.
Proof. intros H. split; intros z Hz; apply H, in_or_app; auto. Qed.

Lemma no_paren_skipn l j : no_paren l -> no_paren (skipn j l).
Proof.
  intros H z Hz. apply H. rewrite <- (firstn_skipn j l). apply in_or_app. auto.
Qed.

Lemma field_no_paren l : forallb is_field_char l = true -> no_paren l.
Proof.
  intros H z Hz. rewrite forallb_forall in H. apply field_not_paren, H, Hz.
Qed.

Lemma upper_no_paren nm : forallb is_upper_letter (map upper nm) = true -> no_paren nm.
Proof.
  intros H z Hz. rewrite forallb_forall in H. apply upper_not_paren, H, in_map, Hz.
Qed.

Lemma letters_no_paren l : forallb is_upper_letter l = true -> no_paren l.
Proof.
  intros H. apply upper_no_paren. rewrite map_ext_in with (g := fun x => x); [rewrite map_id; exact H |].
  intros a Ha. rewrite forallb_forall in H. apply upper_fix, H, Ha.
Qed.

Section Occurrences.
Variables (F c nm g : list ascii).
Hypotheses (HF : no_paren F) (HFne : F <> []) (Hc : no_paren c)
           (Hnm : no_paren nm) (Hg : no_paren g).

(** An occurrence of a call text [nm(g)] that starts before the call
    text [F(c)] ends before it, or its name ends with [F] at the
    parenthesis of [F(c)]. *)
Lemma occ_left (q post tl : list ascii) :
  q <> [] ->
  q ++ (F ++ "("%char :: c ++ ")"%char :: post) = (nm ++ "("%char :: g ++ [")"%char]) ++ tl ->
  (List.length (nm ++ "("%char :: g ++ [")"%char]) <= List.length q)%nat \/ nm = q ++ F.
Proof.
  intros Hq E. apply app_eq_app in E as [l [[Hl Hs] | [Hl Hs]]].
  - left. rewrite Hl, (length_app _ l). lia.
  - apply app_eq_app in Hl as [l1 [[Hn Hl] | [Hn Hl]]].
    + (* the name of the occurrence runs into [F(c)] *)
      right. rewrite Hl in Hs. rewrite <- app_assoc in Hs. simpl in Hs.
      apply split_at_char in Hs as (HF1 & _ & _).
      * rewrite Hn, HF1. reflexivity.
      * intros z Hz. eapply no_paren_open; [exact HF | exact Hz].
      * intros z Hz. eapply no_paren_open; [| exact Hz]. rewrite Hn in Hnm.
        apply no_paren_app in Hnm. tauto.
    + destruct l1 as [| z l2].
      * simpl in Hl. rewrite <- Hl in Hs. simpl in Hs.
        apply (split_at_char F [] _ _ _ _) in Hs as (-> & _ & _); [congruence | |].
        -- intros z Hz. eapply no_paren_open; [exact HF | exact Hz].
        -- intros z Hz. destruct Hz.
      * simpl in Hl. injection Hl as <- Hl.
        destruct l as [| x l].
        -- left. rewrite Hn. rewrite Hl, !app_nil_r. rewrite length_app. simpl. lia.
        -- exfalso. apply app_eq_app in Hl as [l3 [[Hg3 Hl3] | [Hg3 Hl3]]].
           ++ rewrite Hl3 in Hs. rewrite <- app_assoc in Hs. simpl in Hs.
              apply split_at_char in Hs as (_ & Hpar & _); [discriminate | |].
              ** intros z Hz. eapply no_paren_close; [exact HF | exact Hz].
              ** intros z Hz. eapply no_paren_open; [| exact Hz].
                 rewrite Hg3 in Hg. apply no_paren_app in Hg. tauto.
           ++ destruct l3 as [| y l3]; [| destruct l3; discriminate].
              simpl in Hl3. injection Hl3 as <- <-.
              apply (split_at_char F [] _ _ _ _) in Hs as (_ & Hpar & _); [discriminate | |].
              ** intros z Hz. eapply no_paren_close; [exact HF | exact Hz].
              ** intros z Hz. destruct Hz.
Qed.

(** An occurrence of a call text [nm(g)] that starts inside [F(c)]
    has a name that ends [F]. *)
Lemma occ_inside (post tl : list ascii) j :
  (j < List.length (F ++ "("%char :: c ++ [")"%char]))%nat ->
  skipn j (F ++ "("%char :: c ++ [")"%char]) ++ post =
    (nm ++ "("%char :: g ++ [")"%char]) ++ tl ->
  exists u, F = u ++ nm.
Proof.
  intros Hj E. rewrite skipn_app in E.
  destruct (Nat.lt_ge_cases j (List.length F)) as [Hlt | Hge].
  - replace (j - List.length F)%nat with O in E by lia. simpl in E.
    rewrite <- !app_assoc in E. simpl in E.
    apply split_at_char in E as (E & _ & _).
    + exists (firstn j F). rewrite <- E. symmetry. apply firstn_skipn.
    + intros z Hz. eapply no_paren_open; [apply no_paren_skipn, HF | exact Hz].
    + intros z Hz. eapply no_paren_open; [exact Hnm | exact Hz].
  - rewrite skipn_all2 in E by lia. simpl in E.
    destruct (j - List.length F)%nat as [| i] eqn:Ei.
    + simpl in E. rewrite <- !app_assoc in E. simpl in E.
      apply (split_at_char [] nm _ _ _ _) in E as (<- & _ & _).
      * exists F. rewrite app_nil_r. reflexivity.
      * intros z Hz. destruct Hz.
      * intros z Hz. eapply no_paren_open; [exact Hnm | exact Hz].
    + simpl in E. rewrite skipn_app in E.
      replace (i - List.length c)%nat with O in E
        by (rewrite length_app in Hj; simpl in Hj; rewrite length_app in Hj; simpl in Hj; lia).
      simpl in E. rewrite <- !app_assoc in E. simpl in E.
      symmetry in E. apply split_at_char in E as (_ & Hpar & _); [discriminate | |].
      * intros z Hz. eapply no_paren_close; [exact Hnm | exact Hz].
      * intros z Hz. eapply no_paren_open; [apply no_paren_skipn, Hc | exact Hz].
Qed.

End Occurrences.

End StrFacts.

Module FormulaFacts.
Import PyStr Regex Frame Arith Indicators ProofDefs StrFacts.

Lemma match_call_consumes name : consumes (match_call name).
Proof.
  intros t g r H. apply match_call_spec in H as (nm & -> & _).
  exists (nm ++ "("%char :: g ++ [")"%char]). rewrite <- app_assoc. simpl.
  rewrite <- app_assoc. reflexivity.
Qed.

(** The matches of a [call_pass] are call texts [nm(g1)]. *)
Lemma call_matches name s k g0 g1 :
  In (g0, g1) (finditer (match_call name) k s) ->
  exists nm, g0 = nm ++ "("%char :: g1 ++ [")"%char] /\ map upper nm = name /\
             g1 <> [] /\ forallb is_field_char g1 = true.
Proof.
  intros H. apply finditer_in in H as [r Hr]; [| apply match_call_consumes].
  apply match_call_spec in Hr as (nm & E & Hnm & Hne & Hf).
  exists nm. repeat split; auto.
  apply app_inv_tail with r. rewrite E, <- app_assoc. simpl. rewrite <- app_assoc. reflexivity.
Qed.

Lemma call_loop_raise value d ms fe e :
  call_loop value d ms fe = Raise e ->
  exists col, lookup_col col (cols d) = None /\ e = column_error col d.
Proof.
  revert fe. induction ms as [| [g0 g1] ms IH]; simpl; intros fe H; [discriminate |].
  destruct (lookup_col (sol (strip g1)) (cols d)) eqn:E.
  - eapply IH; eauto.
  - injection H as <-. eauto.
Qed.

Lemma call_loop_hit value d ms fe g0 g1 :
  In (g0, g1) ms -> lookup_col (sol (strip g1)) (cols d) = None ->
  exists col, lookup_col col (cols d) = None /\
              call_loop value d ms fe = Raise (column_error col d).
Proof.
  revert fe. induction ms as [| [h0 h1] ms IH]; simpl; intros fe Hin Hl; [contradiction |].
  destruct (lookup_col (sol (strip h1)) (cols d)) eqn:E.
  - destruct Hin as [Hin | Hin]; [injection Hin as -> ->; congruence |]. eauto.
  - eauto.
Qed.

Lemma map_upper_letters l : forallb is_upper_letter l = true -> map upper l = l.
Proof.
  intros H. rewrite map_ext_in with (g := fun x => x); [apply map_id |].
  intros a Ha. rewrite forallb_forall in H. apply upper_fix, H, Ha.
Qed.

Section CallText.
(** A call [F(c)] of the formula: [F] a function name in capitals and
    [c] a run of the field class. *)
Variables (F c : list ascii).
Hypotheses (HF : forallb is_upper_letter F = true) (HFne : F <> [])
           (Hcne : c <> []) (Hc : forallb is_field_char c = true).

Let T := F ++ "("%char :: c ++ [")"%char].

Lemma T_shape post : T ++ post = F ++ "("%char :: c ++ ")"%char :: post.
Proof. unfold T. rewrite <- app_assoc. simpl. rewrite <- app_assoc. reflexivity. Qed.

(** Replacing a call text of another function keeps [F(c)]. *)
Lemma replace_keeps_call G nm g new pre post :
  map upper nm = G -> forallb is_upper_letter G = true -> G <> [] ->
  forallb is_field_char g = true ->
  (forall u, F <> u ++ G) -> (forall u, u <> [] -> G <> u ++ F) ->
  exists pre' post',
    replace (pre ++ T ++ post) (nm ++ "("%char :: g ++ [")"%char]) new = pre' ++ T ++ post'.
Proof.
  intros Hnm HG HGne Hg HFG HGF.
  assert (Hnp : no_paren nm) by (apply upper_no_paren; rewrite Hnm; exact HG).
  assert (HFp : no_paren F) by (apply letters_no_paren, HF).
  assert (Hcp : no_paren c) by (apply field_no_paren, Hc).
  assert (Hgp : no_paren g) by (apply field_no_paren, Hg).
  set (old := nm ++ "("%char :: g ++ [")"%char]).
  assert (Hold : old <> []) by (unfold old; destruct nm; discriminate).
  unfold replace. destruct old as [| o os] eqn:Eo; [congruence |]. rewrite <- Eo.
  destruct (replace_split old new pre (T ++ post) O) as [X HX]; [lia | |].
  - intros j Hj Hp. apply prefixb_spec in Hp as [t Ht].
    rewrite T_shape in Ht.
    assert (Hq : skipn j pre <> []).
    { intro E. apply (f_equal (@List.length ascii)) in E. rewrite length_skipn in E. simpl in E. lia. }
    destruct (occ_left F c nm g HFp HFne Hnp Hgp (skipn j pre) post t Hq Ht) as [Hl | Hl].
    + rewrite length_skipn in Hl. fold old in Hl. lia.
    + exfalso. apply (HGF (map upper (skipn j pre))).
      * intro E. apply (f_equal (@List.length ascii)) in E.
        rewrite length_map, length_skipn in E. simpl in E. lia.
      * rewrite <- Hnm, Hl, map_app, (map_upper_letters F HF). reflexivity.
  - rewrite HX. rewrite replace_keep.
    + exists X, (replace_from old new O post). reflexivity.
    + intros j Hj. destruct (prefixb old (skipn j T ++ post)) eqn:Hp; [| reflexivity].
      exfalso. apply prefixb_spec in Hp as [t Ht].
      destruct (occ_inside F c nm g HFp Hcp Hnp post t j Hj Ht) as [u Hu].
      assert (Hn : map upper nm = nm).
      { apply map_upper_letters. rewrite Hu in HF. rewrite forallb_app in HF.
        apply andb_true_iff in HF. tauto. }
      apply (HFG u). rewrite Hu, <- Hnm, Hn. reflexivity.
Qed.

(** A pass of another function keeps [F(c)] or raises a column error. *)
Lemma call_loop_keeps G value d ms pre post fe' :
  forallb is_upper_letter G = true -> G <> [] ->
  (forall u, F <> u ++ G) -> (forall u, u <> [] -> G <> u ++ F) ->
  (forall g0 g1, In (g0, g1) ms ->
     exists nm, g0 = nm ++ "("%char :: g1 ++ [")"%char] /\ map upper nm = G /\
                g1 <> [] /\ forallb is_field_char g1 = true) ->
  call_loop value d ms (pre ++ T ++ post) = Ok fe' ->
  exists pre' post', fe' = pre' ++ T ++ post'.
Proof.
  intros HG HGne HFG HGF. revert pre post.
  induction ms as [| [g0 g1] ms IH]; simpl; intros pre post Hms H.
  - injection H as <-. eauto.
  - destruct (lookup_col (sol (strip g1)) (cols d)); [| discriminate].
    destruct (Hms g0 g1 (or_introl eq_refl)) as (nm & -> & Hnm & _ & Hg1).
    destruct (replace_keeps_call G nm g1 (las (value c0)) pre post Hnm HG HGne Hg1 HFG HGF)
      as (pre' & post' & E).
    rewrite E in H. eapply IH; [| exact H]. intros h0 h1 Hin. apply Hms. now right.
Qed.

Lemma call_pass_keeps G value d pre post fe' :
  forallb is_upper_letter G = true -> G <> [] ->
  (forall u, F <> u ++ G) -> (forall u, u <> [] -> G <> u ++ F) ->
  call_pass (sol G) value d (pre ++ T ++ post) = Ok fe' ->
  exists pre' post', fe' = pre' ++ T ++ post'.
Proof.
  intros HG HGne HFG HGF H. unfold call_pass in H.
  rewrite list_ascii_of_string_of_list_ascii in H.
  eapply call_loop_keeps; eauto. intros g0 g1 Hin. eapply call_matches; eauto.
Qed.

(** The pass of [F] itself reaches [F(c)]. *)
Lemma call_found pre post :
  In (T, c) (finditer (match_call F) O (pre ++ T ++ post)).
Proof.
  assert (HFp : no_paren F) by (apply letters_no_paren, HF).
  assert (Hcp : no_paren c) by (apply field_no_paren, Hc).
  destruct (finditer_split (match_call F) pre (T ++ post) O) as [L HL].
  - apply match_call_consumes.
  - lia.
  - intros j g r Hj Hm. apply match_call_spec in Hm as (nm & E & Hnm & _ & Hg).
    rewrite T_shape in E.
    assert (Hnp : no_paren nm) by (apply upper_no_paren; rewrite Hnm; exact HF).
    replace (nm ++ "("%char :: g ++ ")"%char :: r) with
      ((nm ++ "("%char :: g ++ [")"%char]) ++ r) in E
      by (rewrite <- app_assoc; simpl; rewrite <- app_assoc; reflexivity).
    assert (Hq : skipn j pre <> []).
    { intro E'. apply (f_equal (@List.length ascii)) in E'. rewrite length_skipn in E'.
      simpl in E'. lia. }
    pose proof (field_no_paren _ Hg) as Hgp.
    destruct (occ_left F c nm g HFp HFne Hnp Hgp (skipn j pre) post r Hq E) as [Hl | Hl].
    + apply (f_equal (@List.length ascii)) in E. rewrite T_shape.
      rewrite !length_app in E. rewrite length_app. simpl in *.
      rewrite length_app in Hl. simpl in Hl. lia.
    + apply (f_equal (@List.length ascii)) in Hnm. rewrite length_map, Hl, length_app in Hnm.
      destruct (skipn j pre) eqn:Es.
      * apply (f_equal (@List.length ascii)) in Es. rewrite length_skipn in Es. simpl in Es. lia.
      * simpl in Hnm. lia.
  - rewrite HL. apply in_or_app. right.
    rewrite (finditer_head (match_call F) T post c).
    + left. reflexivity.
    + unfold T. destruct F; [congruence | discriminate].
    + rewrite T_shape. apply match_call_head; auto.
Qed.

(** The pass of [F] raises a column error when [c] names no column. *)
Lemma call_pass_hit value d pre post :
  lookup_col (sol (strip c)) (cols d) = None ->
  exists col, lookup_col col (cols d) = None /\
              call_pass (sol F) value d (pre ++ T ++ post) = Raise (column_error col d).
Proof.
  intros Hl. unfold call_pass. rewrite list_ascii_of_string_of_list_ascii.
  eapply call_loop_hit; [apply call_found | exact Hl].
Qed.

Lemma no_call_in_T G :
  forallb is_upper_letter G = true -> G <> [] -> (forall u, F <> u ++ G) ->
  forall j, match_call G (skipn j T) = None.
Proof.
  intros HG HGne HFG j.
  destruct (match_call G (skipn j T)) as [[g r] |] eqn:Hm; [| reflexivity]. exfalso.
  destruct (Nat.lt_ge_cases j (List.length T)) as [Hj | Hj].
  - apply match_call_spec in Hm as (nm & E & Hnm & _ & Hg).
    assert (Hnp : no_paren nm) by (apply upper_no_paren; rewrite Hnm; exact HG).
    destruct (occ_inside F c nm g (letters_no_paren _ HF) (field_no_paren _ Hc) Hnp [] r j Hj)
      as [u Hu].
    { rewrite app_nil_r. fold T. rewrite E, <- app_assoc. simpl. rewrite <- app_assoc. reflexivity. }
    assert (Hn : map upper nm = nm).
    { apply map_upper_letters. rewrite Hu, forallb_app in HF. apply andb_true_iff in HF. tauto. }
    apply (HFG u). rewrite Hu, <- Hnm, Hn. reflexivity.
  - rewrite skipn_all2 in Hm by exact Hj. unfold match_call in Hm.
    destruct G; [congruence | discriminate].
Qed.

Lemma call_pass_other_only G value d :
  forallb is_upper_letter G = true -> G <> [] -> (forall u, F <> u ++ G) ->
  call_pass (sol G) value d T = Ok T.
Proof.
  intros HG HGne HFG. unfold call_pass. rewrite list_ascii_of_string_of_list_ascii.
  rewrite finditer_nil; [reflexivity |]. apply no_call_in_T; assumption.
Qed.

Lemma call_pass_self_only value d :
  lookup_col (sol (strip c)) (cols d) = None ->
  call_pass (sol F) value d T = Raise (column_error (sol (strip c)) d).
Proof.
  intros Hl. unfold call_pass. rewrite list_ascii_of_string_of_list_ascii.
  pose proof (finditer_head (match_call F) T [] c) as H. rewrite app_nil_r in H.
  rewrite H.
  - simpl. rewrite Hl. reflexivity.
  - unfold T. destruct F; [congruence | discriminate].
  - rewrite <- (app_nil_r T), T_shape. apply match_call_head; auto.
Qed.

Lemma call_pass_self_found value d col :
  lookup_col (sol (strip c)) (cols d) = Some col ->
  call_pass (sol F) value d T = Ok (las (value col)).
Proof.
  intros Hl. unfold call_pass. rewrite list_ascii_of_string_of_list_ascii.
  assert (HT : T <> []) by (unfold T; destruct F; [congruence | discriminate]).
  pose proof (finditer_head (match_call F) T [] c) as H. rewrite app_nil_r in H.
  rewrite H; [| exact HT |].
  - cbn [call_loop finditer]. rewrite Hl. cbn [call_loop]. now rewrite replace_self.
  - rewrite <- (app_nil_r T), T_shape. apply match_call_head; auto.
Qed.


Lemma bind_keep G value d pre post (k : list ascii -> result (list ascii)) :
  forallb is_upper_letter G = true -> G <> [] ->
  (forall u, F <> u ++ G) -> (forall u, u <> [] -> G <> u ++ F) ->
  (forall pre' post', column_raise d (k (pre' ++ T ++ post'))) ->
  column_raise d (bind (call_pass (sol G) value d (pre ++ T ++ post)) k).
Proof using HF HFne Hcne Hc.
  intros HG HGne HFG HGF Hk.
  destruct (call_pass (sol G) value d (pre ++ T ++ post)) as [fe' | e] eqn:E; simpl.
  - destruct (call_pass_keeps G value d pre post fe' HG HGne HFG HGF E) as (pre' & post' & ->).
    apply Hk.
  - unfold call_pass in E. apply call_loop_raise in E as (col & Hc' & ->).
    exists col. auto.
Qed.

Lemma bind_hit value d pre post (k : list ascii -> result (list ascii)) :
  lookup_col (sol (strip c)) (cols d) = None ->
  column_raise d (bind (call_pass (sol F) value d (pre ++ T ++ post)) k).
Proof using HF HFne Hcne Hc.
  intros Hl. destruct (call_pass_hit value d pre post Hl) as (col & Hc' & ->).
  exists col. auto.
Qed.

End CallText.

Lemma not_suffix x y : suffixb x y = false -> forall u, y <> u ++ x.
Proof.
  intros H u ->. unfold suffixb in H. rewrite length_app in H.
  replace (List.length u + List.length x - List.length x)%nat with (List.length u) in H by lia.
  rewrite skipn_app, skipn_all, Nat.sub_diag in H. simpl in H.
  destruct (list_eq_dec ascii_dec x x) as [_ | n]; [| congruence].
  rewrite andb_true_r in H. apply Nat.leb_gt in H. lia.
Qed.

Lemma las_append (s1 s2 : string) : las (s1 ++ s2) = las s1 ++ las s2.
Proof. induction s1 as [| a s1 IH]; simpl; [reflexivity |]. unfold las in *. simpl. now rewrite IH. Qed.

Ltac name_facts :=
  repeat split; try discriminate; try reflexivity;
  try (apply not_suffix; reflexivity);
  try (intros u _; apply not_suffix; reflexivity).

(** A call [F(c)] of one of the five functions, on a field that is not a
    column, makes the substitution raise a column error. *)
Lemma substitute_call_missing B F pre c post d :
  In F ["COUNT"; "SUM"; "AVG"; "MIN"; "MAX"] -> c <> ""%string ->
  forallb is_field_char (las c) = true ->
  lookup_col (sol (strip (las c))) (cols d) = None ->
  column_raise d (substitute B (pre ++ F ++ "(" ++ c ++ ")" ++ post) d).
Proof.
  intros HF Hne Hc Hl. unfold substitute.
  assert (Hcl : las c <> []) by (destruct c; [congruence | discriminate]).
  rewrite !las_append.
  change (las "(") with ["("%char]. change (las ")") with [")"%char].
  replace (las pre ++ las F ++ ["("%char] ++ las c ++ [")"%char] ++ las post)
    with (las pre ++ (las F ++ "("%char :: las c ++ [")"%char]) ++ las post)
    by (rewrite <- ?app_assoc; simpl; rewrite <- ?app_assoc; reflexivity).
  simpl in HF. destruct HF as [<- | [<- | [<- | [<- | [<- | []]]]]].
  - apply (bind_hit (las "COUNT")); auto; discriminate.
  - apply (bind_keep (las "SUM") (las c) eq_refl ltac:(discriminate) Hcl Hc (las "COUNT"));
      [name_facts .. |]. intros.
    apply (bind_hit (las "SUM")); auto; discriminate.
  - apply (bind_keep (las "AVG") (las c) eq_refl ltac:(discriminate) Hcl Hc (las "COUNT"));
      [name_facts .. |]. intros.
    apply (bind_keep (las "AVG") (las c) eq_refl ltac:(discriminate) Hcl Hc (las "SUM"));
      [name_facts .. |]. intros.
    apply (bind_hit (las "AVG")); auto; discriminate.
  - apply (bind_keep (las "MIN") (las c) eq_refl ltac:(discriminate) Hcl Hc (las "COUNT"));
      [name_facts .. |]. intros.
    apply (bind_keep (las "MIN") (las c) eq_refl ltac:(discriminate) Hcl Hc (las "SUM"));
      [name_facts .. |]. intros.
    apply (bind_keep (las "MIN") (las c) eq_refl ltac:(discriminate) Hcl Hc (las "AVG"));
      [name_facts .. |]. intros.
    apply (bind_hit (las "MIN")); auto; discriminate.
  - apply (bind_keep (las "MAX") (las c) eq_refl ltac:(discriminate) Hcl Hc (las "COUNT"));
      [name_facts .. |]. intros.
    apply (bind_keep (las "MAX") (las c) eq_refl ltac:(discriminate) Hcl Hc (las "SUM"));
      [name_facts .. |]. intros.
    apply (bind_keep (las "MAX") (las c) eq_refl ltac:(discriminate) Hcl Hc (las "AVG"));
      [name_facts .. |]. intros.
    apply (bind_keep (las "MAX") (las c) eq_refl ltac:(discriminate) Hcl Hc (las "MIN"));
      [name_facts .. |]. intros.
    apply (bind_hit (las "MAX")); auto; discriminate.
Qed.

(** A formula that is exactly [F(c)] names [c] in its error. *)
Lemma substitute_call_only B F c d :
  In F ["COUNT"; "SUM"; "AVG"; "MIN"; "MAX"] -> c <> ""%string ->
  forallb is_field_char (las c) = true ->
  lookup_col (sol (strip (las c))) (cols d) = None ->
  substitute B (F ++ "(" ++ c ++ ")") d = Raise (column_error (sol (strip (las c))) d).
Proof.
  intros HF Hne Hc Hl. unfold substitute.
  assert (Hcl : las c <> []) by (destruct c; [congruence | discriminate]).
  rewrite !las_append.
  change (las "(") with ["("%char]. change (las ")") with [")"%char].
  replace (las F ++ ["("%char] ++ las c ++ [")"%char])
    with (las F ++ "("%char :: las c ++ [")"%char]) by reflexivity.
  simpl in HF. destruct HF as [<- | [<- | [<- | [<- | [<- | []]]]]].
  - rewrite (call_pass_self_only (las "COUNT") (las c)); auto; discriminate.
  - rewrite (call_pass_other_only (las "SUM") (las c) eq_refl Hc (las "COUNT")) by name_facts.
    simpl. rewrite (call_pass_self_only (las "SUM") (las c)); auto; discriminate.
  - rewrite (call_pass_other_only (las "AVG") (las c) eq_refl Hc (las "COUNT")) by name_facts.
    simpl. rewrite (call_pass_other_only (las "AVG") (las c) eq_refl Hc (las "SUM")) by name_facts.
    simpl. rewrite (call_pass_self_only (las "AVG") (las c)); auto; discriminate.
  - rewrite (call_pass_other_only (las "MIN") (las c) eq_refl Hc (las "COUNT")) by name_facts.
    simpl. rewrite (call_pass_other_only (las "MIN") (las c) eq_refl Hc (las "SUM")) by name_facts.
    simpl. rewrite (call_pass_other_only (las "MIN") (las c) eq_refl Hc (las "AVG")) by name_facts.
    simpl. rewrite (call_pass_self_only (las "MIN") (las c)); auto; discriminate.
  - rewrite (call_pass_other_only (las "MAX") (las c) eq_refl Hc (las "COUNT")) by name_facts.
    simpl. rewrite (call_pass_other_only (las "MAX") (las c) eq_refl Hc (las "SUM")) by name_facts.
    simpl. rewrite (call_pass_other_only (las "MAX") (las c) eq_refl Hc (las "AVG")) by name_facts.
    simpl. rewrite (call_pass_other_only (las "MAX") (las c) eq_refl Hc (las "MIN")) by name_facts.
    simpl. rewrite (call_pass_self_only (las "MAX") (las c)); auto; discriminate.
Qed.

(** Every exception the arithmetic fragment raises is an [Exception]. *)
Lemma float_of_exc v x : float_of v = Raise x -> is_exception x = true.
Proof.
  destruct v as [z | f]; simpl; [| discriminate].
  unfold int_to_float. destruct (PyFloat.is_inf (PyFloat.of_Z z)); intros H; inversion H; reflexivity.
Qed.

Lemma int_true_div_exc a b x : int_true_div a b = Raise x -> is_exception x = true.
Proof.
  unfold int_true_div. destruct (b =? 0)%Z; [intros H; inversion H; reflexivity |].
  match goal with |- context [if PyFloat.is_inf ?q then _ else _] => destruct (PyFloat.is_inf q) end;
    intros H; inversion H; reflexivity.
Qed.

Lemma apply_binop_exc o a b x : apply_binop o a b = Raise x -> is_exception x = true.
Proof.
  destruct a as [za | fa], b as [zb | fb]; simpl;
    try (destruct o; simpl; try discriminate; apply int_true_div_exc).
  all: unfold int_to_float;
    repeat match goal with
           | |- context [if ?c then _ else _] => destruct c
           end; simpl; try discriminate; destruct o; simpl;
    repeat match goal with
           | |- context [if ?c then _ else _] => destruct c
           end; intros H; inversion H; reflexivity.
Qed.

Lemma eval_expr_exc e x : eval_expr e = Raise x -> is_exception x = true.
Proof.
  revert x. induction e as [v | n | e IH | e IH | o a IHa b IHb]; intros x; simpl.
  - discriminate.
  - intros H. inversion H. reflexivity.
  - apply IH.
  - destruct (eval_expr e) as [[z | f] |]; simpl; [discriminate | discriminate | apply IH].
  - destruct (eval_expr a) as [va |]; simpl; [| apply IHa].
    destruct (eval_expr b) as [vb |]; simpl; [| apply IHb].
    apply apply_binop_exc.
Qed.

Lemma arith_eval_exc s x : arith_eval s = Some (Raise x) -> is_exception x = true.
Proof.
  unfold arith_eval.
  destruct (tokenize _ s) as [ts |]; [| discriminate].
  destruct (parse_expr _ ts) as [[e [| t r]] |]; try discriminate.
  intros H. injection H as H.
  destruct (eval_expr e) as [v |] eqn:E; simpl in H.
  - eapply float_of_exc; eauto.
  - injection H as <-. eapply eval_expr_exc; eauto.
Qed.

Lemma percentage_loop_raise d ms fe e :
  percentage_loop d ms fe = Raise e ->
  exists col, lookup_col col (cols d) = None /\ e = column_error col d.
Proof.
  revert fe. induction ms as [| [g0 [g1 g2]] ms IH]; simpl; intros fe H; [discriminate |].
  destruct (lookup_col (sol (strip g1)) (cols d)) eqn:E.
  - eapply IH; eauto.
  - injection H as <-. eauto.
Qed.

Lemma substitute_exc B f d x : substitute B f d = Raise x -> is_exception x = true.
Proof.
  unfold substitute.
  assert (Hc : forall n v fe y, call_pass n v d fe = Raise y -> is_exception y = true).
  { intros n v fe y H. apply call_loop_raise in H as (col & _ & ->). reflexivity. }
  destruct (call_pass "COUNT" _ d _) as [fe1 |] eqn:E1; simpl; [| intros H; inversion H; subst; eauto].
  destruct (call_pass "SUM" _ d _) as [fe2 |] eqn:E2; simpl; [| intros H; inversion H; subst; eauto].
  destruct (call_pass "AVG" _ d _) as [fe3 |] eqn:E3; simpl; [| intros H; inversion H; subst; eauto].
  destruct (call_pass "MIN" _ d _) as [fe4 |] eqn:E4; simpl; [| intros H; inversion H; subst; eauto].
  destruct (call_pass "MAX" _ d _) as [fe5 |] eqn:E5; simpl; [| intros H; inversion H; subst; eauto].
  unfold percentage_pass. intros H. apply percentage_loop_raise in H as (col & _ & ->). reflexivity.
Qed.

(** An exception that is not an [Exception] comes neither from the
    substitution passes nor from the arithmetic fragment: it is raised
    by the [eval] of a residual formula outside the fragment. *)
Lemma eval_float_raise_other B s self d e st :
  eval_float B s self d = (Raise e, st) -> is_exception e = false ->
  arith_eval s = None.
Proof.
  unfold eval_float. destruct (arith_eval s) as [r |] eqn:E; [| reflexivity].
  intros H Hx. injection H as -> _. apply arith_eval_exc in E. congruence.
Qed.

Lemma evaluate_formula_raise_other B self f d e st :
  _evaluate_formula B self f d = (Raise e, st) -> is_exception e = false ->
  exists fe, substitute B f d = Ok fe /\ eval_float B fe self d = (Raise e, st).
Proof.
  unfold _evaluate_formula. destruct (substitute B f d) as [fe | x] eqn:E.
  - destruct (eval_float B fe self d) as [[r | x] st'] eqn:E2; intros H Hx; [discriminate |].
    destruct (is_exception x) eqn:Hx'; injection H as He Hst; subst.
    + discriminate Hx.
    + exists fe. split; [reflexivity | exact E2].
  - intros H Hx. injection H as -> _. apply substitute_exc in E. congruence.
Qed.

(** The substitution passes leave the service and the frame as they
    were: a raise there returns them unchanged. *)
Lemma evaluate_formula_subst_raise B self f d e :
  substitute B f d = Raise e -> _evaluate_formula B self f d = (Raise e, (self, d)).
Proof. intros H. unfold _evaluate_formula. rewrite H. reflexivity. Qed.

(** A failure of the filters that is an [Exception] is reported in the
    result, with the service unchanged. *)
Lemma compute_indicator_filter_error B self n f fc e :
  apply_filters B (df self) fc = Raise e -> is_exception e = true ->
  compute_indicator B self n f fc =
    (Ok (ODict [("indicator_name", n); ("formula", f); ("filter_criteria", or_empty fc);
                ("value", ONone); ("error", OStr (exc_str e)); ("status", OStr "error")]), self).
Proof. intros H He. unfold compute_indicator. rewrite H, He. reflexivity. Qed.

(** A failure of the formula that is an [Exception] is reported in the
    result, with the service as the formula's [eval] left it. *)
Lemma compute_indicator_formula_error B self n s fc d e st :
  apply_filters B (df self) fc = Ok d -> _evaluate_formula B self s d = (Raise e, st) ->
  is_exception e = true ->
  compute_indicator B self n (OStr s) fc =
    (Ok (ODict [("indicator_name", n); ("formula", OStr s); ("filter_criteria", or_empty fc);
                ("value", ONone); ("error", OStr (exc_str e)); ("status", OStr "error")]),
     fst st).
Proof.
  intros H1 H2 He. unfold compute_indicator. rewrite H1, H2. destruct st as [self' d'].
  cbn. rewrite He. reflexivity.
Qed.

(** [compute_indicator] raises only an exception that is not an
    [Exception]: one raised by the filters, or by the [eval] of the
    substituted formula outside the arithmetic fragment. *)
Lemma compute_indicator_raise B self n f fc e self' :
  compute_indicator B self n f fc = (Raise e, self') ->
  is_exception e = false /\
  ((apply_filters B (df self) fc = Raise e /\ self' = self) \/
   exists d s fe d', apply_filters B (df self) fc = Ok d /\ f = OStr s /\
     substitute B s d = Ok fe /\ arith_eval fe = None /\
     eval_float B fe self d = (Raise e, (self', d'))).
Proof.
  unfold compute_indicator.
  destruct (apply_filters B (df self) fc) as [d | x] eqn:E1.
  - destruct f as [| | | | s | |];
      try (intros H; destruct (is_exception _) eqn:Hx; injection H as He Hs; subst;
           [discriminate | discriminate]).
    destruct (_evaluate_formula B self s d) as [[r | x] [s1 d1]] eqn:E2; cbn.
    + intros H; discriminate.
    + destruct (is_exception x) eqn:Hx; intros H; [discriminate |].
      injection H as <- <-. split; [exact Hx |]. right.
      destruct (evaluate_formula_raise_other B self s d x (s1, d1) E2 Hx) as (fe & Hs & Hev).
      exists d, s, fe, d1. repeat split; auto.
      eapply eval_float_raise_other; eauto.
  - destruct (is_exception x) eqn:Hx; intros H; [discriminate |].
    injection H as <- <-. auto.
Qed.

(** A batch of dicts either gives one result per indicator or raises an
    exception that is not an [Exception]. *)
Lemma compute_multiple_cases B self inds :
  Forall (fun o => exists kvs, o = ODict kvs) inds ->
  (exists rs self', compute_multiple_indicators B self inds = (Ok rs, self') /\
                    List.length rs = List.length inds) \/
  (exists e self', compute_multiple_indicators B self inds = (Raise e, self') /\
                   is_exception e = false).
Proof.
  intros H. revert self. induction H as [| o inds [kvs ->] _ IH]; intros self; simpl.
  - left. exists [], self. auto.
  - destruct (compute_indicator B self (dict_get kvs "name") (dict_get kvs "formula")
                (dict_get kvs "filter_criteria")) as [[res | e] s1] eqn:E.
    + destruct (IH s1) as [(rs & s2 & -> & Hl) | (e & s2 & -> & He)].
      * left. exists (res :: rs), s2. simpl. auto.
      * right. exists e, s2. auto.
    + right. exists e, s1. split; [reflexivity |].
      exact (proj1 (compute_indicator_raise _ _ _ _ _ _ _ E)).
Qed.

Lemma lookup_col_none x l : lookup_col x l = None <-> ~ In x (map fst l).
Proof.
  induction l as [| [n col] l IH]; simpl; [tauto |].
  destruct (String.eqb n x) eqn:E.
  - apply String.eqb_eq in E. subst. split; [discriminate | tauto].
  - apply String.eqb_neq in E. rewrite IH. intuition.
Qed.

End FormulaFacts.

(* ----------------------------------------------------------------- *)
(** ** Not-a-number results *)
(* ----------------------------------------------------------------- *)

Module NanResults.
Import PyStr Regex Frame Arith Indicators ProofDefs StrFacts FormulaFacts Scenarios.

Lemma passes_nan (B : backend) d :
  (fe4 <- call_pass "MIN" (min_value B) d (las "nan") ;;
   fe5 <- call_pass "MAX" (max_value B) d fe4 ;;
   percentage_pass d fe5) = Ok (las "nan").
Proof. reflexivity. Qed.

Lemma error_dict_eq (B : backend) self n f fc d e :
  apply_filters B (df self) fc = Ok d -> _evaluate_formula B self f d = (Raise e, (self, d)) ->
  is_exception e = true ->
  compute_indicator B self n (OStr f) fc =
   (Ok (ODict [("indicator_name", n); ("formula", OStr f); ("filter_criteria", or_empty fc);
               ("value", ONone); ("error", OStr (exc_str e)); ("status", OStr "error")]), self).
Proof. intros H1 H2 H3. unfold compute_indicator. rewrite H1, H2. cbn. rewrite H3. reflexivity. Qed.

(** C3 (the code slips). A NaN aggregate never reaches the NaN check of
    [compute_indicator]: [str] of the NaN mean is [nan], which [eval]
    reads as an undefined name, and [1 / 0] raises [ZeroDivisionError];
    both end as [status = error] results, not as [value = None] with
    [status = success]. This holds for every backend and every column
    whose mean is NaN (no number in it, or no row left). *)
Theorem nan_aggregate_reports_error (B : backend) self n fc d c col m
  (Hf : apply_filters B (df self) fc = Ok d)
  (Hcne : c <> "") (Hc : forallb is_field_char (las c) = true) (Hs : strip (las c) = las c)
  (Hl : lookup_col c (cols d) = Some col)
  (Hm : series_mean B (to_numeric B col) = NFloat m) (Hnan : PyFloat.is_nan m = true) :
  compute_indicator B self n (OStr ("AVG(" ++ c ++ ")")) fc =
   (Ok (ODict [("indicator_name", n); ("formula", OStr ("AVG(" ++ c ++ ")"));
              ("filter_criteria", or_empty fc); ("value", ONone);
              ("error", OStr ("Could not evaluate formula: " ++ ("AVG(" ++ c ++ ")") ++
                              ". Evaluation error: name 'nan' is not defined"));
              ("status", OStr "error")]), self) /\
  compute_indicator B self n (OStr "1 / 0") fc =
   (Ok (ODict [("indicator_name", n); ("formula", OStr "1 / 0");
              ("filter_criteria", or_empty fc); ("value", ONone);
              ("error", OStr "Could not evaluate formula: 1 / 0. Evaluation error: division by zero");
              ("status", OStr "error")]), self).
Proof.
  split.
  - refine (error_dict_eq B self n _ fc d
              (ValueError ("Could not evaluate formula: " ++ ("AVG(" ++ c ++ ")") ++
                           ". Evaluation error: name 'nan' is not defined")) Hf _ eq_refl).
    assert (Hcl : las c <> []) by (destruct c; [congruence | discriminate]).
    assert (E : las ("AVG(" ++ c ++ ")") = las "AVG" ++ "("%char :: las c ++ [")"%char]).
    { rewrite !las_append. reflexivity. }
    unfold _evaluate_formula, substitute. rewrite E.
    rewrite (call_pass_other_only (las "AVG") (las c) eq_refl Hc (las "COUNT")) by name_facts.
    simpl bind.
    rewrite (call_pass_other_only (las "AVG") (las c) eq_refl Hc (las "SUM")) by name_facts.
    simpl bind.
    rewrite (call_pass_self_found (las "AVG") (las c) eq_refl ltac:(discriminate) Hcl Hc _ d col).
    2:{ rewrite Hs. unfold sol, las. now rewrite string_of_list_ascii_of_string. }
    simpl bind. unfold avg_value. rewrite Hm. destruct m; try discriminate. simpl num_str.
    assert (Ev : eval_float B (las "nan") self d =
                 (Raise (NameError "name 'nan' is not defined"), (self, d))).
    { reflexivity. }
    rewrite passes_nan. cbn [bind]. rewrite Ev. reflexivity.
  - exact (error_dict_eq B self n "1 / 0" fc d
             (ValueError "Could not evaluate formula: 1 / 0. Evaluation error: division by zero")
             Hf eq_refl eq_refl).
Qed.

Lemma nan_aggregate_reports_error_witness :
  compute_indicator plain_backend (init no_scores) (OStr "avg score") (OStr "AVG(score)") ONone =
   (Ok (ODict [("indicator_name", OStr "avg score"); ("formula", OStr "AVG(score)");
              ("filter_criteria", ODict []); ("value", ONone);
              ("error", OStr "Could not evaluate formula: AVG(score). Evaluation error: name 'nan' is not defined");
              ("status", OStr "error")]), init no_scores).
Proof.
  apply (nan_aggregate_reports_error plain_backend (init no_scores) (OStr "avg score") ONone no_scores "score"
           (ObjCol [CStr "n/a"; CNone]) PyFloat.nan);
    try reflexivity; discriminate.
Defined.

End NanResults.

(* ----------------------------------------------------------------- *)
(** ** Integer literals in the residual formula *)
(* ----------------------------------------------------------------- *)

Module CountFacts.
Import PyStr Regex Frame Arith Indicators ProofDefs StrFacts FormulaFacts.

Lemma Z_str_nonneg (a : Z) : (0 <= a)%Z ->
  exists u, Z_str a = NilEmpty.string_of_uint u /\ Z.of_uint u = a.
Proof.
  intros Ha. pose proof (DecimalZ.of_to a) as E. unfold Z_str.
  destruct a as [| p | p]; simpl in *; [| | lia].
  - exists (Decimal.D0 Decimal.Nil). split; reflexivity.
  - exists (Pos.to_uint p). split; [reflexivity | exact E].
Qed.

Lemma uint_digits u : forallb is_digit (las (NilEmpty.string_of_uint u)) = true.
Proof. induction u; simpl; auto. Qed.

Lemma digits_val_Z_str a : (0 <= a)%Z -> digits_val (las (Z_str a)) = a.
Proof.
  intros Ha. destruct (Z_str_nonneg a Ha) as (u & E & Hu).
  unfold digits_val, sol, las. rewrite string_of_list_ascii_of_string, E, NilEmpty.usu. exact Hu.
Qed.

Lemma Z_str_digits a : (0 <= a)%Z -> forallb is_digit (las (Z_str a)) = true.
Proof. intros Ha. destruct (Z_str_nonneg a Ha) as (u & -> & _). apply uint_digits. Qed.

Lemma Z_str_nonempty a : (0 <= a)%Z -> las (Z_str a) <> [].
Proof.
  intros Ha E. destruct (Z.eq_dec a 0) as [-> | Hn]; [discriminate |].
  apply Hn. rewrite <- (digits_val_Z_str a Ha), E. reflexivity.
Qed.

Lemma lex_number_Z_str a r :
  (0 <= a)%Z -> (r = [] \/ exists r', r = " "%char :: r') ->
  lex_number (las (Z_str a) ++ r) = Some (VInt a, r).
Proof.
  intros Ha Hr. unfold lex_number.
  rewrite span_all by (apply Z_str_digits, Ha).
  assert (Hok : int_literal_ok (las (Z_str a)) = true).
  { unfold int_literal_ok. rewrite digits_val_Z_str by exact Ha.
    unfold sol, las. rewrite string_of_list_ascii_of_string, String.eqb_refl. reflexivity. }
  destruct Hr as [-> | [r' ->]]; simpl; rewrite app_nil_r, Hok, digits_val_Z_str by exact Ha;
    reflexivity.
Qed.

Lemma digit_not_special c :
  is_digit c = true ->
  is_blank c = false /\ Ascii.eqb c "+"%char = false /\ Ascii.eqb c "-"%char = false /\
  Ascii.eqb c "*"%char = false /\ Ascii.eqb c "/"%char = false /\
  Ascii.eqb c "("%char = false /\ Ascii.eqb c ")"%char = false.
Proof.
  generalize (all_ascii_spec (fun c => negb (is_digit c) ||
    negb (is_blank c || Ascii.eqb c "+"%char || Ascii.eqb c "-"%char || Ascii.eqb c "*"%char ||
          Ascii.eqb c "/"%char || Ascii.eqb c "("%char || Ascii.eqb c ")"%char))
    ltac:(vm_compute; reflexivity) c).
  intros H Hd. rewrite Hd in H. simpl in H.
  destruct (is_blank c), (Ascii.eqb c "+"%char), (Ascii.eqb c "-"%char), (Ascii.eqb c "*"%char),
    (Ascii.eqb c "/"%char), (Ascii.eqb c "("%char), (Ascii.eqb c ")"%char);
    try discriminate; auto 10.
Qed.

Lemma tokenize_Z_str a f r :
  (0 <= a)%Z -> (r = [] \/ exists r', r = " "%char :: r') ->
  tokenize (S f) (las (Z_str a) ++ r) = option_map (cons (TNum (VInt a))) (tokenize f r).
Proof.
  intros Ha Hr. pose proof (lex_number_Z_str a r Ha Hr) as Hl.
  pose proof (Z_str_digits a Ha) as Hd.
  destruct (las (Z_str a)) as [| c ds] eqn:E; [now apply Z_str_nonempty in E |].
  simpl in Hd. apply andb_true_iff in Hd as [Hc _].
  destruct (digit_not_special c Hc) as (H1 & H2 & H3 & H4 & H5 & H6 & H7).
  cbn [tokenize app]. rewrite H1, H2, H3, H4, H5, H6, H7, Hc. simpl orb.
  cbn [app] in Hl. rewrite Hl. reflexivity.
Qed.

Lemma tokenize_blank f r : tokenize (S f) (" "%char :: r) = tokenize f r.
Proof. reflexivity. Qed.

Lemma tokenize_div f r :
  tokenize (S f) ("/"%char :: r) = option_map (cons (TOp Div)) (tokenize f r).
Proof. reflexivity. Qed.

Lemma arith_eval_ratio a b :
  (0 <= a)%Z -> (0 <= b)%Z ->
  arith_eval (las (Z_str a) ++ las " / " ++ las (Z_str b)) =
    Some (v <- int_true_div a b ;; float_of v).
Proof.
  intros Ha Hb. unfold arith_eval.
  assert (La : (1 <= List.length (las (Z_str a)))%nat)
    by (destruct (las (Z_str a)) eqn:E; [now apply Z_str_nonempty in E | simpl; lia]).
  assert (Lb : (1 <= List.length (las (Z_str b)))%nat)
    by (destruct (las (Z_str b)) eqn:E; [now apply Z_str_nonempty in E | simpl; lia]).
  remember (List.length (las (Z_str a) ++ las " / " ++ las (Z_str b))) as n eqn:En.
  rewrite !length_app in En. cbn [las list_ascii_of_string List.length] in En.
  destruct n as [| [| [| [| [| f]]]]]; try lia.
  rewrite (tokenize_Z_str a (S (S (S (S (S f))))) (las " / " ++ las (Z_str b)))
    by (auto; right; eexists; reflexivity).
  change (las " / " ++ las (Z_str b)) with (" "%char :: "/"%char :: " "%char :: las (Z_str b)).
  rewrite tokenize_blank, tokenize_div, tokenize_blank.
  rewrite <- (app_nil_r (las (Z_str b))).
  rewrite (tokenize_Z_str b (S f) []) by auto.
  destruct f; reflexivity.
Qed.

Lemma match_ci_no_letter n name s :
  is_upper_letter n = true -> no_letter s -> match_ci (n :: name) s = None.
Proof.
  intros Hn Hs. destruct s as [| z s]; [reflexivity |]. simpl.
  destruct (ascii_eqb (upper z) n) eqn:E; [| reflexivity].
  apply Ascii.eqb_eq in E. exfalso. rewrite <- E in Hn.
  rewrite (Hs z) in Hn; [discriminate | now left].
Qed.

Lemma in_skipn_in {A} j (s : list A) z : In z (skipn j s) -> In z s.
Proof. intros H. rewrite <- (firstn_skipn j s). apply in_or_app. now right. Qed.

Lemma no_letter_skipn j s : no_letter s -> no_letter (skipn j s).
Proof. intros H z Hz. apply H. eapply in_skipn_in; eauto. Qed.

Lemma no_letter_app s t : no_letter s -> no_letter t -> no_letter (s ++ t).
Proof. intros Hs Ht z Hz. apply in_app_or in Hz as [Hz | Hz]; auto. Qed.

Lemma digits_no_letter s : forallb is_digit s = true -> no_letter s.
Proof.
  intros H z Hz. rewrite forallb_forall in H. specialize (H z Hz). revert H.
  generalize (all_ascii_spec (fun z => negb (is_digit z) || negb (is_upper_letter (upper z)))
                ltac:(vm_compute; reflexivity) z).
  destruct (is_digit z), (is_upper_letter (upper z)); simpl; congruence.
Qed.

Lemma call_pass_no_letter name value d s :
  match las name with n :: _ => is_upper_letter n = true | [] => False end ->
  no_letter s -> call_pass name value d s = Ok s.
Proof.
  intros Hn Hs. unfold call_pass. destruct (las name) as [| n rest]; [contradiction |].
  rewrite finditer_nil; [reflexivity |]. intros j. unfold match_call.
  rewrite match_ci_no_letter; auto. now apply no_letter_skipn.
Qed.

Lemma percentage_pass_no_letter d s : no_letter s -> percentage_pass d s = Ok s.
Proof.
  intros Hs. unfold percentage_pass.
  rewrite finditer_nil; [reflexivity |]. intros j. unfold match_percentage.
  change (las "PERCENTAGE") with ("P"%char :: las "ERCENTAGE").
  rewrite match_ci_no_letter; auto. now apply no_letter_skipn.
Qed.

Lemma col_count_nonneg c : (0 <= col_count c)%Z.
Proof. unfold col_count. lia. Qed.

Lemma substitute_count_ratio B d c1 c2 :
  lookup_col "Student ID" (cols d) = Some c1 ->
  lookup_col "Course Name" (cols d) = Some c2 ->
  substitute B "COUNT(Student ID) / COUNT(Course Name)" d =
    Ok (las (Z_str (col_count c1)) ++ las " / " ++ las (Z_str (col_count c2))).
Proof.
  intros H1 H2.
  set (a := col_count c1). set (b := col_count c2).
  assert (Ha : (0 <= a)%Z) by apply col_count_nonneg.
  assert (Hb : (0 <= b)%Z) by apply col_count_nonneg.
  assert (Hs : no_letter (las (Z_str a) ++ las " / " ++ las (Z_str b))).
  { apply no_letter_app; [apply digits_no_letter, Z_str_digits, Ha |].
    apply no_letter_app; [| apply digits_no_letter, Z_str_digits, Hb].
    intros z Hz. simpl in Hz. intuition (subst; reflexivity). }
  assert (Hcount : call_pass "COUNT" count_value d (las "COUNT(Student ID) / COUNT(Course Name)") =
                   Ok (las (Z_str a) ++ las " / " ++ las (Z_str b))).
  { unfold call_pass.
    change (finditer (match_call (las "COUNT")) O (las "COUNT(Student ID) / COUNT(Course Name)"))
      with [(las "COUNT(Student ID)", las "Student ID"); (las "COUNT(Course Name)", las "Course Name")].
    cbn [call_loop]. change (sol (strip (las "Student ID"))) with "Student ID". rewrite H1.
    change (sol (strip (las "Course Name"))) with "Course Name". rewrite H2.
    cbn [call_loop]. fold a b. unfold count_value. fold a b.
    change (replace (las "COUNT(Student ID) / COUNT(Course Name)") (las "COUNT(Student ID)") (las (Z_str a)))
      with (las (Z_str a) ++ las " / COUNT(Course Name)").
    unfold replace at 1. cbn beta iota.
    assert (E2 : replace_from (las "COUNT(Course Name)") (las (Z_str b)) 0
                   (las " / COUNT(Course Name)") = las " / " ++ las (Z_str b)).
    { change (las " / COUNT(Course Name)") with (las " / " ++ las "COUNT(Course Name)" ++ []).
      rewrite replace_keep
        by (intros j Hj; cbn in Hj; destruct j as [| [| [| j]]]; try lia; reflexivity).
      rewrite replace_from_occ by discriminate. cbn [replace_from]. now rewrite app_nil_r. }
    rewrite replace_keep.
    + change (las "COUNT(Course Name)") with ("C"%char :: las "OUNT(Course Name)").
      cbn iota. rewrite <- E2. reflexivity.
    + intros j Hj. pose proof (Z_str_digits a Ha) as Hd.
      destruct (skipn j (las (Z_str a))) as [| z t] eqn:E.
      * apply (f_equal (@List.length ascii)) in E. rewrite length_skipn in E. simpl in E. lia.
      * assert (Hz : is_digit z = true).
        { rewrite forallb_forall in Hd. apply Hd. apply (in_skipn_in j). rewrite E. now left. }
        assert (Ez : ascii_eqb "C" z = false).
        { destruct (ascii_eqb "C" z) eqn:Ez; [| reflexivity].
          apply Ascii.eqb_eq in Ez. subst z. discriminate. }
        change (las "COUNT(Course Name)") with ("C"%char :: las "OUNT(Course Name)").
        cbn [app prefixb]. rewrite Ez. reflexivity. }
  unfold substitute. rewrite Hcount. cbn [bind].
  repeat (rewrite call_pass_no_letter by (reflexivity || exact Hs); cbn [bind]).
  now apply percentage_pass_no_letter.
Qed.

End CountFacts.

(* ----------------------------------------------------------------- *)
(** ** Multi-word field names *)
(* ----------------------------------------------------------------- *)

Module CountRatio.
Import PyStr Regex Frame Arith Indicators ProofDefs StrFacts FormulaFacts CountFacts Scenarios.

(** C4. On any dataset with the columns [Student ID] and [Course Name],
    the formula [COUNT(Student ID) / COUNT(Course Name)] is rewritten to
    [str] of the two non-missing counts around [ / ] before [eval]; the
    [eval] of that is Python's true division of the counts, so the
    formula's value is their quotient whenever that division returns a
    float. A call pattern takes the whole run of field characters
    (word characters, blanks, [-], [.]) up to the closing parenthesis. *)
Theorem count_ratio_formula (B : backend) self d c1 c2 :
  lookup_col "Student ID" (cols d) = Some c1 ->
  lookup_col "Course Name" (cols d) = Some c2 ->
  substitute B "COUNT(Student ID) / COUNT(Course Name)" d =
    Ok (las (count_value c1 ++ " / " ++ count_value c2)) /\
  eval_float B (las (count_value c1 ++ " / " ++ count_value c2)) self d =
    ((v <- int_true_div (col_count c1) (col_count c2) ;; float_of v), (self, d)) /\
  (forall q, int_true_div (col_count c1) (col_count c2) = Ok (VFloat q) ->
     _evaluate_formula B self "COUNT(Student ID) / COUNT(Course Name)" d = (Ok q, (self, d))) /\
  (forall name g rest,
     forallb is_upper_letter (las name) = true -> g <> [] -> forallb is_field_char g = true ->
     match_call (las name) (las name ++ "("%char :: g ++ ")"%char :: rest) = Some (g, rest)).
Proof.
  intros H1 H2.
  assert (Es : las (count_value c1 ++ " / " ++ count_value c2) =
               las (Z_str (col_count c1)) ++ las " / " ++ las (Z_str (col_count c2)))
    by (unfold count_value; now rewrite !las_append).
  assert (Ev : eval_float B (las (count_value c1 ++ " / " ++ count_value c2)) self d =
               ((v <- int_true_div (col_count c1) (col_count c2) ;; float_of v), (self, d))).
  { unfold eval_float. rewrite Es, arith_eval_ratio by apply col_count_nonneg. reflexivity. }
  split; [| split; [exact Ev | split]].
  - rewrite Es. now apply substitute_count_ratio.
  - intros q Hq. unfold _evaluate_formula.
    rewrite (substitute_count_ratio B d c1 c2 H1 H2).
    rewrite <- Es, Ev, Hq. reflexivity.
  - intros name g rest Hn Hg Hf. now apply match_call_head.
Qed.

Lemma count_ratio_formula_witness :
  lookup_col "Student ID" (cols survey) = Some (ObjCol [CStr "s1"; CStr "s2"]) /\
  lookup_col "Course Name" (cols survey) = Some (ObjCol [CStr "Math"; CNone]) /\
  substitute plain_backend "COUNT(Student ID) / COUNT(Course Name)" survey = Ok (las "2 / 1").
Proof.
  split; [reflexivity | split; [reflexivity |]].
  destruct (count_ratio_formula plain_backend (init survey) survey (ObjCol [CStr "s1"; CStr "s2"])
              (ObjCol [CStr "Math"; CNone]) eq_refl eq_refl) as [H _].
  exact H.
Defined.

End CountRatio.

(* ----------------------------------------------------------------- *)
(** ** Row counts of a result *)
(* ----------------------------------------------------------------- *)

Module RowCounts.
Import PyStr Regex Frame Arith Indicators ProofDefs Scenarios.




End RowCounts.

(* ----------------------------------------------------------------- *)
(** ** Boolean indexing and records *)
(* ----------------------------------------------------------------- *)

Module FilterFacts.
Import PyStr Frame Indicators FilterSpec.

























End FilterFacts.

(* ----------------------------------------------------------------- *)
(** ** Filter criteria *)
(* ----------------------------------------------------------------- *)

Module Filters.
Import PyStr Regex Frame Arith Indicators FilterSpec FilterFacts Scenarios.




End Filters.

(* ----------------------------------------------------------------- *)
(** ** The [PERCENTAGE] pass on one call *)
(* ----------------------------------------------------------------- *)

Module PercentFacts.
Import PyStr Regex Frame Indicators ProofDefs StrFacts FormulaFacts.

Lemma span_stop (p : ascii -> bool) ch r : p ch = false -> span p (ch :: r) = ([], ch :: r).
Proof. intros H. simpl. now rewrite H. Qed.

Lemma no_call_in_text F c G :
  forallb is_upper_letter F = true -> F <> [] -> no_paren c ->
  forallb is_upper_letter G = true -> G <> [] -> (forall u, F <> u ++ G) ->
  forall j, match_call G (skipn j (F ++ "("%char :: c ++ [")"%char])) = None.
Proof.
  intros HF HFne Hc HG HGne HFG j.
  destruct (match_call G (skipn j (F ++ "("%char :: c ++ [")"%char]))) as [[g r] |] eqn:Hm;
    [| reflexivity]. exfalso.
  destruct (Nat.lt_ge_cases j (List.length (F ++ "("%char :: c ++ [")"%char]))) as [Hj | Hj].
  - apply match_call_spec in Hm as (nm & E & Hnm & _ & Hg).
    assert (Hnp : no_paren nm) by (apply upper_no_paren; rewrite Hnm; exact HG).
    destruct (occ_inside F c nm g (letters_no_paren _ HF) Hc Hnp [] r j Hj)
      as [u Hu].
    { rewrite app_nil_r. rewrite E, <- app_assoc. simpl. rewrite <- app_assoc. reflexivity. }
    assert (Hn : map upper nm = nm).
    { apply map_upper_letters. rewrite Hu, forallb_app in HF. apply andb_true_iff in HF. tauto. }
    apply (HFG u). rewrite Hu, <- Hnm, Hn. reflexivity.
  - rewrite skipn_all2 in Hm by exact Hj. unfold match_call in Hm.
    destruct G; [congruence | discriminate].
Qed.

Lemma call_pass_none name value d F c :
  forallb is_upper_letter F = true -> F <> [] -> no_paren c ->
  forallb is_upper_letter (las name) = true -> las name <> [] ->
  (forall u, F <> u ++ las name) ->
  call_pass name value d (F ++ "("%char :: c ++ [")"%char]) = Ok (F ++ "("%char :: c ++ [")"%char]).
Proof.
  intros HF HFne Hc HG HGne HFG. unfold call_pass.
  rewrite finditer_nil; [reflexivity |]. apply no_call_in_text; assumption.
Qed.

Lemma space_facts x : is_space x = true -> is_quote x = false /\ is_paren x = false.
Proof.
  generalize (all_ascii_spec (fun x => negb (is_space x) || negb (is_quote x) && negb (is_paren x))
                ltac:(vm_compute; reflexivity) x).
  destruct (is_space x), (is_quote x), (is_paren x); simpl; intuition congruence.
Qed.

Lemma quote_facts x : is_quote x = true -> is_space x = false /\ is_paren x = false.
Proof.
  generalize (all_ascii_spec (fun x => negb (is_quote x) || negb (is_space x) && negb (is_paren x))
                ltac:(vm_compute; reflexivity) x).
  destruct (is_space x), (is_quote x), (is_paren x); simpl; intuition congruence.
Qed.

Lemma not_paren_close x : is_paren x = false -> ascii_eqb x ")"%char = false.
Proof. unfold is_paren. intros H. apply orb_false_iff in H. tauto. Qed.

(** The last character of a list, if any. *)
Definition last_quote_free (u : list ascii) : Prop :=
  match rev u with x :: _ => is_quote x = false | [] => True end.

Lemma last_quote_free_cons ch ch' u :
  last_quote_free (ch :: ch' :: u) -> last_quote_free (ch' :: u).
Proof.
  unfold last_quote_free. cbn [rev].
  destruct (rev u ++ [ch']) as [| y t] eqn:E.
  - destruct (rev u); discriminate.
  - cbn [app]. auto.
Qed.

(** The lazy group 2 runs to the first point where an optional quote and
    [)] follow: through [u] when no such point is inside it. *)
Lemma lazy_value_run u tail rest :
  u <> [] -> no_paren u -> last_quote_free u -> close_at tail = Some rest ->
  lazy_value (u ++ tail) = Some (u, rest).
Proof.
  induction u as [| ch u IH]; intros Hne Hp Hl Ht; [congruence |].
  assert (Hch : ascii_eqb ch ")"%char = false)
    by (apply not_paren_close, Hp; left; reflexivity).
  cbn [app lazy_value]. rewrite Hch.
  destruct u as [| ch' u'].
  - cbn [app]. rewrite Ht. reflexivity.
  - assert (Hp' : no_paren (ch' :: u')) by (intros z Hz; apply Hp; right; exact Hz).
    assert (Hc : close_at ((ch' :: u') ++ tail) = None).
    { cbn [app close_at]. destruct (is_quote ch') eqn:Hq.
      - destruct u' as [| c2 u''].
        + unfold last_quote_free in Hl. cbn in Hl. congruence.
        + cbn [app]. rewrite (not_paren_close c2) by (apply Hp'; right; left; reflexivity).
          reflexivity.
      - rewrite (not_paren_close ch') by (apply Hp'; left; reflexivity). reflexivity. }
    rewrite Hc. rewrite IH; auto; [discriminate | exact (last_quote_free_cons _ _ _ Hl)].
Qed.

Lemma lstrip_all (p : ascii -> bool) a b : forallb p a = true -> lstrip p (a ++ b) = lstrip p b.
Proof.
  induction a as [| x a IH]; simpl; [auto |]. intros H.
  apply andb_true_iff in H as [Hx H]. rewrite Hx. auto.
Qed.

Lemma lstrip_stop (p : ascii -> bool) x b : p x = false -> lstrip p (x :: b) = x :: b.
Proof. simpl. intros ->. reflexivity. Qed.

Lemma forallb_rev (p : ascii -> bool) l : forallb p (rev l) = forallb p l.
Proof.
  induction l as [| x l IH]; simpl; [reflexivity |].
  rewrite forallb_app, IH. simpl. rewrite andb_true_r, andb_comm. reflexivity.
Qed.

(** What [value_ok] gives. *)
Lemma value_ok_facts v :
  value_ok v = true ->
  exists ch v' lc v'', v = ch :: v' /\ rev v = lc :: v'' /\
    is_space ch = false /\ is_quote ch = false /\ is_space lc = false /\
    is_quote lc = false /\ no_paren v.
Proof.
  unfold value_ok. destruct v as [| ch v'] eqn:Ev; [discriminate |].
  destruct (rev (ch :: v')) as [| lc v''] eqn:Er; [discriminate |].
  intros H. repeat (apply andb_true_iff in H as [H ?]).
  exists ch, v', lc, v''. repeat split; try (apply negb_true_iff; assumption).
  - intros z Hz.
    match goal with Hf : forallb _ _ = true |- _ => rewrite forallb_forall in Hf end.
    apply negb_true_iff. auto.
Qed.

Lemma spaces_no_paren l : forallb is_space l = true -> no_paren l.
Proof.
  intros H z Hz. rewrite forallb_forall in H. exact (proj2 (space_facts z (H z Hz))).
Qed.

Lemma no_paren_app_intro l1 l2 : no_paren l1 -> no_paren l2 -> no_paren (l1 ++ l2).
Proof. intros H1 H2 z Hz. apply in_app_iff in Hz as [Hz | Hz]; auto. Qed.

Lemma value_last_free v sp2 :
  value_ok v = true -> forallb is_space sp2 = true -> last_quote_free (v ++ sp2).
Proof.
  intros Hv Hs. destruct (value_ok_facts v Hv) as (ch & v' & lc & v'' & -> & Er & _ & _ & _ & Hq & _).
  unfold last_quote_free. rewrite rev_app_distr.
  destruct (rev sp2) as [| y t] eqn:E2.
  - cbn [app]. rewrite Er. exact Hq.
  - cbn [app]. apply space_facts. rewrite <- forallb_rev, E2 in Hs.
    simpl in Hs. apply andb_true_iff in Hs. tauto.
Qed.

Lemma quote_no ch r : is_quote ch = false -> quote_value (ch :: r) = lazy_value (ch :: r).
Proof. intros H. unfold quote_value. cbv iota beta. rewrite H. reflexivity. Qed.

Lemma quote_yes ch r :
  is_quote ch = true ->
  quote_value (ch :: r) = match lazy_value r with Some x => Some x | None => lazy_value (ch :: r) end.
Proof. intros H. unfold quote_value. cbv iota beta. rewrite H. reflexivity. Qed.

Lemma last_quote_free_app p u : u <> [] -> last_quote_free u -> last_quote_free (p ++ u).
Proof.
  unfold last_quote_free. rewrite rev_app_distr. intros Hu.
  destruct (rev u) as [| x t] eqn:E; [destruct u; [congruence | simpl in E; apply app_eq_nil in E; destruct E as [_ E]; discriminate] |].
  cbn [app]. auto.
Qed.

(** [strip()] and then [strip] of the quotes, on blanks, the value and
    blanks. *)
Lemma strip_value sp1 v sp2 :
  forallb is_space sp1 = true -> forallb is_space sp2 = true -> value_ok v = true ->
  strip_quotes (strip (sp1 ++ v ++ sp2)) = v.
Proof.
  intros H1 H2 Hv.
  destruct (value_ok_facts v Hv) as (ch & v' & lc & v'' & Ev & Er & Hs & Hq & Hls & Hlq & _).
  assert (Kl : forall p, p ch = false -> lstrip p v = v)
    by (intros p Hp; rewrite Ev; exact (lstrip_stop p ch v' Hp)).
  assert (Kr : forall p, p lc = false -> rev (lstrip p (rev v)) = v)
    by (intros p Hp; rewrite Er, lstrip_stop by exact Hp; rewrite <- Er; apply rev_involutive).
  unfold strip, strip_quotes, rstrip.
  rewrite lstrip_all by exact H1. rewrite Ev. cbn [app]. rewrite lstrip_stop by exact Hs.
  change (ch :: v' ++ sp2) with ((ch :: v') ++ sp2). rewrite <- Ev.
  rewrite rev_app_distr, lstrip_all by (rewrite forallb_rev; exact H2).
  rewrite Kr by exact Hls. rewrite Kl by exact Hq. apply Kr. exact Hlq.
Qed.

(** The value part after the comma: blanks, an optional quote, the value
    with blanks around it, the same quote. *)
Lemma value_part_gen ws q sp1 v sp2 :
  forallb is_space ws = true -> forallb is_space sp1 = true -> forallb is_space sp2 = true ->
  q = [] \/ q = ["'"%char] \/ q = [dquote] -> value_ok v = true ->
  exists g2, value_part (ws ++ q ++ sp1 ++ v ++ sp2 ++ q ++ [")"%char]) = Some (g2, []) /\
             strip_quotes (strip g2) = v.
Proof.
  intros Hw H1 H2 Hq Hv.
  pose proof (value_ok_facts v Hv) as (ch & v' & lc & v'' & Ev & Er & Hs & Hqc & _ & _ & Hp).
  assert (Hvs : v ++ sp2 <> []) by (rewrite Ev; discriminate).
  assert (Hnp : no_paren (v ++ sp2)) by (apply no_paren_app_intro; [exact Hp | apply spaces_no_paren, H2]).
  destruct Hq as [-> | Hq].
  - exists (v ++ sp2). split; [| apply (strip_value [] v sp2); auto].
    assert (E : ws ++ [] ++ sp1 ++ v ++ sp2 ++ [] ++ [")"%char] =
                (ws ++ sp1) ++ ch :: v' ++ sp2 ++ [")"%char])
      by (rewrite Ev; rewrite <- !app_assoc; reflexivity).
    assert (Hlv : lazy_value (ch :: v' ++ sp2 ++ [")"%char]) = Some (v ++ sp2, [])).
    { replace (ch :: v' ++ sp2 ++ [")"%char]) with ((v ++ sp2) ++ [")"%char])
        by (rewrite Ev; rewrite <- !app_assoc; reflexivity).
      apply lazy_value_run; [exact Hvs | exact Hnp | apply value_last_free; auto | reflexivity]. }
    unfold value_part. rewrite E, span_all by (rewrite forallb_app, Hw, H1; reflexivity).
    rewrite span_stop by exact Hs. rewrite app_nil_r.
    destruct (rev (ws ++ sp1)); cbn [ws_backtrack]; rewrite quote_no by exact Hqc; rewrite Hlv; reflexivity.
  - assert (Hqq : exists qc, q = [qc] /\ is_quote qc = true)
      by (destruct Hq as [-> | ->]; eexists; split; reflexivity).
    destruct Hqq as (qc & -> & Hqt).
    exists (sp1 ++ v ++ sp2). split; [| apply strip_value; auto].
    assert (Hlv : lazy_value (sp1 ++ v ++ sp2 ++ [qc; ")"%char]) = Some (sp1 ++ v ++ sp2, [])).
    { replace (sp1 ++ v ++ sp2 ++ [qc; ")"%char]) with ((sp1 ++ v ++ sp2) ++ [qc; ")"%char])
        by (rewrite <- !app_assoc; reflexivity).
      apply lazy_value_run.
      - destruct sp1; [exact Hvs | discriminate].
      - apply no_paren_app_intro; [apply spaces_no_paren, H1 | exact Hnp].
      - apply last_quote_free_app; [exact Hvs | apply value_last_free; auto].
      - cbn. rewrite Hqt. reflexivity. }
    unfold value_part. rewrite span_all by exact Hw. cbn [app].
    rewrite (span_stop is_space qc) by exact (proj1 (quote_facts qc Hqt)).
    rewrite app_nil_r.
    destruct (rev ws); cbn [ws_backtrack]; rewrite quote_yes by exact Hqt; rewrite Hlv; reflexivity.
Qed.

Lemma match_percentage_gen c ws q sp1 v sp2 :
  c <> [] -> forallb is_field_char c = true ->
  forallb is_space ws = true -> forallb is_space sp1 = true -> forallb is_space sp2 = true ->
  q = [] \/ q = ["'"%char] \/ q = [dquote] -> value_ok v = true ->
  exists g2,
    match_percentage (las "PERCENTAGE" ++ "("%char :: c ++ ","%char ::
                        ws ++ q ++ sp1 ++ v ++ sp2 ++ q ++ [")"%char])
      = Some ((c, g2), []) /\ strip_quotes (strip g2) = v.
Proof.
  intros Hcne Hc Hw H1 H2 Hq Hv.
  destruct (value_part_gen ws q sp1 v sp2 Hw H1 H2 Hq Hv) as (g2 & Hg & Hs).
  exists g2. split; [| exact Hs]. unfold match_percentage.
  rewrite match_ci_self by reflexivity. cbv iota beta.
  change (ascii_eqb "(" "(") with true. cbv iota.
  rewrite span_all by exact Hc. rewrite (span_stop is_field_char ","%char) by reflexivity.
  rewrite app_nil_r. destruct c as [| x c']; [congruence |].
  change (ascii_eqb "," ",") with true. cbv iota.
  now rewrite Hg.
Qed.

Lemma no_paren_args_gen c ws q sp1 v sp2 :
  forallb is_field_char c = true ->
  forallb is_space ws = true -> forallb is_space sp1 = true -> forallb is_space sp2 = true ->
  q = [] \/ q = ["'"%char] \/ q = [dquote] -> value_ok v = true ->
  no_paren (c ++ ","%char :: ws ++ q ++ sp1 ++ v ++ sp2 ++ q).
Proof.
  intros Hc Hw H1 H2 Hq Hv.
  assert (Hqz : no_paren q)
    by (intros y Hy; destruct Hq as [-> | [-> | ->]]; [destruct Hy | destruct Hy as [<- | []]; reflexivity ..]).
  destruct (value_ok_facts v Hv) as (_ & _ & _ & _ & _ & _ & _ & _ & _ & _ & Hp).
  apply no_paren_app_intro; [exact (field_no_paren c Hc) |].
  intros z [<- | Hz]; [reflexivity |]. revert z Hz.
  repeat (apply no_paren_app_intro; [solve [auto using spaces_no_paren] |]).
  exact Hqz.
Qed.

(** The [PERCENTAGE] pass on the whole call: [str] of the percentage
    when the stripped field names a column, the [ValueError] naming it
    otherwise. *)
Lemma percentage_pass_gen d c ws q sp1 v sp2 :
  c <> [] -> forallb is_field_char c = true ->
  forallb is_space ws = true -> forallb is_space sp1 = true -> forallb is_space sp2 = true ->
  q = [] \/ q = ["'"%char] \/ q = [dquote] -> value_ok v = true ->
  percentage_pass d (las "PERCENTAGE" ++ "("%char ::
                     (c ++ ","%char :: ws ++ q ++ sp1 ++ v ++ sp2 ++ q) ++ [")"%char]) =
  match lookup_col (sol (strip c)) (cols d) with
  | Some col => Ok (las (num_str (percentage d col (sol v))))
  | None => Raise (column_error (sol (strip c)) d)
  end.
Proof.
  intros Hcne Hc Hw H1 H2 Hq Hv.
  set (T := las "PERCENTAGE" ++ "("%char ::
              (c ++ ","%char :: ws ++ q ++ sp1 ++ v ++ sp2 ++ q) ++ [")"%char]).
  assert (ET : T = las "PERCENTAGE" ++ "("%char :: c ++ ","%char ::
                     ws ++ q ++ sp1 ++ v ++ sp2 ++ q ++ [")"%char])
    by (unfold T; rewrite <- !app_assoc; simpl; rewrite <- !app_assoc; reflexivity).
  destruct (match_percentage_gen c ws q sp1 v sp2 Hcne Hc Hw H1 H2 Hq Hv) as (g2 & Hm & Hs).
  unfold percentage_pass.
  pose proof (finditer_head match_percentage T [] (c, g2)) as H. rewrite app_nil_r in H.
  rewrite H; [| unfold T; discriminate | rewrite ET; exact Hm].
  cbn [percentage_loop finditer]. rewrite Hs.
  destruct (lookup_col (sol (strip c)) (cols d)); [| reflexivity].
  cbn [percentage_loop]. rewrite replace_self by (unfold T; discriminate). reflexivity.
Qed.

Lemma percentage_text_gen (c ws q sp1 v sp2 : string) :
  las ("PERCENTAGE(" ++ c ++ "," ++ ws ++ q ++ sp1 ++ v ++ sp2 ++ q ++ ")") =
  las "PERCENTAGE" ++ "("%char ::
    (las c ++ ","%char :: las ws ++ las q ++ las sp1 ++ las v ++ las sp2 ++ las q) ++ [")"%char].
Proof.
  rewrite !las_append. change (las "PERCENTAGE(") with (las "PERCENTAGE" ++ ["("%char]).
  change (las ",") with [","%char]. change (las ")") with [")"%char].
  rewrite <- !app_assoc. simpl. rewrite <- !app_assoc. reflexivity.
Qed.

(** The substitution of a formula that is one [PERCENTAGE] call: the
    five aggregate passes find nothing in it. *)
Lemma substitute_percentage B d (c ws q sp1 v sp2 : string) :
  las c <> [] -> forallb is_field_char (las c) = true ->
  forallb is_space (las ws) = true -> forallb is_space (las sp1) = true ->
  forallb is_space (las sp2) = true ->
  q = ""%string \/ q = "'"%string \/ q = String dquote "" -> value_ok (las v) = true ->
  substitute B ("PERCENTAGE(" ++ c ++ "," ++ ws ++ q ++ sp1 ++ v ++ sp2 ++ q ++ ")") d =
  match lookup_col (sol (strip (las c))) (cols d) with
  | Some col => Ok (las (num_str (percentage d col v)))
  | None => Raise (column_error (sol (strip (las c))) d)
  end.
Proof.
  intros Hcne Hc Hw H1 H2 Hq Hv.
  assert (Hq' : las q = [] \/ las q = ["'"%char] \/ las q = [dquote])
    by (destruct Hq as [-> | [-> | ->]]; auto).
  unfold substitute. rewrite percentage_text_gen.
  assert (Hn := no_paren_args_gen (las c) (las ws) (las q) (las sp1) (las v) (las sp2)
                  Hc Hw H1 H2 Hq' Hv).
  repeat (rewrite call_pass_none; [cbn [bind] | reflexivity | discriminate | exact Hn
                                   | reflexivity | discriminate | apply not_suffix; reflexivity]).
  rewrite percentage_pass_gen by assumption.
  unfold sol at 3. rewrite string_of_list_ascii_of_string. reflexivity.
Qed.

Lemma length_filter_map {A} (f : A -> bool) (l : list A) :
  List.length (filter (fun b => b) (map f l)) = List.length (filter f l).
Proof. induction l as [| a l IH]; simpl; [reflexivity |]. destruct (f a); simpl; auto. Qed.

End PercentFacts.

(* ----------------------------------------------------------------- *)
(** ** Formula errors and the error boundary of [compute_indicator] *)
(* ----------------------------------------------------------------- *)

Module FormulaErrors.
Import PyStr Regex Frame Arith Indicators ProofDefs StrFacts FormulaFacts PercentFacts Scenarios.

(** C2 (amended). A call [F(c)] of one of the five aggregates whose
    column [strip c] is not a column of [d] makes [_evaluate_formula]
    raise the [ValueError] of [column_error]: it names a missing column
    (that very column when the call is the whole formula) and lists the
    columns of [d]. So does a formula [PERCENTAGE(c, v)] (any blanks
    after the comma and around the value, the value bare or quoted) whose
    column [strip c] is missing. [compute_indicator] turns every failure
    of the filters or of the formula that is an [Exception] into the
    error dictionary with [value = None]. What it raises is never an
    [Exception]: it comes from the filters or from the [eval] of the
    substituted formula outside the arithmetic fragment. A batch of dicts
    returns one result per indicator unless such an exception escapes
    from one of them. *)
Theorem evaluate_formula_missing_column_and_error_boundary (B : backend) :
  (forall F pre c post self d,
     In F ["COUNT"; "SUM"; "AVG"; "MIN"; "MAX"] -> c <> "" ->
     forallb is_field_char (las c) = true ->
     ~ In (sol (strip (las c))) (columns d) ->
     (exists col, ~ In col (columns d) /\
        _evaluate_formula B self (pre ++ F ++ "(" ++ c ++ ")" ++ post) d =
          (Raise (column_error col d), (self, d))) /\
     _evaluate_formula B self (F ++ "(" ++ c ++ ")") d =
       (Raise (column_error (sol (strip (las c))) d), (self, d))) /\
  (forall c ws q sp1 v sp2 self d,
     las c <> [] -> forallb is_field_char (las c) = true ->
     forallb is_space (las ws) = true -> forallb is_space (las sp1) = true ->
     forallb is_space (las sp2) = true ->
     q = ""%string \/ q = "'"%string \/ q = String dquote "" -> value_ok (las v) = true ->
     ~ In (sol (strip (las c))) (columns d) ->
     _evaluate_formula B self ("PERCENTAGE(" ++ c ++ "," ++ ws ++ q ++ sp1 ++ v ++ sp2 ++ q ++ ")") d =
       (Raise (column_error (sol (strip (las c))) d), (self, d))) /\
  (forall self n f fc e,
     apply_filters B (df self) fc = Raise e -> is_exception e = true ->
     compute_indicator B self n f fc =
       (Ok (ODict [("indicator_name", n); ("formula", f); ("filter_criteria", or_empty fc);
                   ("value", ONone); ("error", OStr (exc_str e)); ("status", OStr "error")]),
        self)) /\
  (forall self n s fc d e st,
     apply_filters B (df self) fc = Ok d -> _evaluate_formula B self s d = (Raise e, st) ->
     is_exception e = true ->
     compute_indicator B self n (OStr s) fc =
       (Ok (ODict [("indicator_name", n); ("formula", OStr s); ("filter_criteria", or_empty fc);
                   ("value", ONone); ("error", OStr (exc_str e)); ("status", OStr "error")]),
        fst st)) /\
  (forall self n f fc e self',
     compute_indicator B self n f fc = (Raise e, self') ->
     is_exception e = false /\
     ((apply_filters B (df self) fc = Raise e /\ self' = self) \/
      exists d s fe d', apply_filters B (df self) fc = Ok d /\ f = OStr s /\
        substitute B s d = Ok fe /\ arith_eval fe = None /\
        eval_float B fe self d = (Raise e, (self', d')))) /\
  (forall self inds, Forall (fun o => exists kvs, o = ODict kvs) inds ->
     (exists rs self', compute_multiple_indicators B self inds = (Ok rs, self') /\
                       List.length rs = List.length inds) \/
     (exists e self', compute_multiple_indicators B self inds = (Raise e, self') /\
                      is_exception e = false)).
Proof.
  split; [| split; [| split; [| split; [| split]]]].
  - intros F pre c post self d HF Hne Hc Hmiss. apply lookup_col_none in Hmiss. split.
    + destruct (substitute_call_missing B F pre c post d HF Hne Hc Hmiss) as (col & Hcol & E).
      exists col. split; [now apply lookup_col_none |].
      apply evaluate_formula_subst_raise, E.
    + apply evaluate_formula_subst_raise. apply substitute_call_only; auto.
  - intros c ws q sp1 v sp2 self d Hcne Hc Hw H1 H2 Hq Hv Hmiss.
    apply lookup_col_none in Hmiss. apply evaluate_formula_subst_raise.
    rewrite substitute_percentage by assumption. rewrite Hmiss. reflexivity.
  - intros. apply compute_indicator_filter_error; assumption.
  - intros. eapply compute_indicator_formula_error; eassumption.
  - intros. eapply compute_indicator_raise; eassumption.
  - intros. apply compute_multiple_cases; assumption.
Qed.

Lemma evaluate_formula_missing_column_and_error_boundary_witness :
  _evaluate_formula plain_backend (init survey) "COUNT(Student ID) / AVG(Grade)" survey =
    (Raise (column_error "Grade" survey), (init survey, survey)) /\
  _evaluate_formula plain_backend (init survey) "PERCENTAGE(Grade , 'A')" survey =
    (Raise (column_error "Grade" survey), (init survey, survey)).
Proof.
  destruct (evaluate_formula_missing_column_and_error_boundary plain_backend) as [Ha [Hb _]].
  split.
  - destruct (Ha "AVG" "COUNT(Student ID) / " "Grade" "" (init survey) survey) as [[col [Hcol E]] _];
      [simpl; tauto | discriminate | reflexivity | vm_compute; intuition discriminate |].
    vm_compute. reflexivity.
  - exact (Hb "Grade " " " "'" "" "A" "" (init survey) survey
             ltac:(discriminate) eq_refl eq_refl eq_refl eq_refl
             ltac:(right; left; reflexivity) eq_refl
             ltac:(vm_compute; intuition discriminate)).
Defined.

(** C2 fails as stated: [except Exception] does not catch [SystemExit].
    The formula [exit()] has no aggregate call and goes to [eval] as it
    is; [compute_indicator] then raises past its boundary, and the batch
    of [compute_multiple_indicators] is aborted with it, the indicator
    after it included. *)
Lemma compute_indicator_raises_system_exit :
  is_exception (SystemExit "None") = false /\
  compute_indicator mutating_backend (init survey) (OStr "stop") (OStr "exit()") ONone =
    (Raise (SystemExit "None"), init survey) /\
  fst (compute_multiple_indicators mutating_backend (init survey)
         [ODict [("name", OStr "stop"); ("formula", OStr "exit()")];
          ODict [("name", OStr "students"); ("formula", OStr "COUNT(Student ID)")]]) =
    Raise (SystemExit "None").
Proof. repeat split; vm_compute; reflexivity. Qed.

End FormulaErrors.

(* ----------------------------------------------------------------- *)
(** ** What [PERCENTAGE] counts *)
(* ----------------------------------------------------------------- *)

Module Percentages.
Import PyStr Regex Frame Arith Indicators ProofDefs StrFacts FormulaFacts PercentFacts Scenarios.

(** C10. For a formula [PERCENTAGE(c, v)]: a field [c] of field
    characters, a comma, any blanks, the value bare or between single or
    double quotes, with any blanks around it inside the quotes, where
    the value [v] neither starts nor ends with a blank or a quote and
    holds no parenthesis. When [strip c] names a column, the
    [PERCENTAGE] pass substitutes [str] of the percentage whose count is
    the number of cells whose [astype(str)] rendering equals [v]. So on
    an [int64] column [age] holding 25 and 30, both [PERCENTAGE(age,25)]
    and [PERCENTAGE(age, '25')] give 50.0, while the filter criterion
    [age] = the string 25 keeps no row and [age] = the integer 25 keeps
    one (native equality). *)
Theorem percentage_compares_strings (B : backend) d (c ws q sp1 v sp2 : string) col :
  las c <> [] -> forallb is_field_char (las c) = true ->
  forallb is_space (las ws) = true -> forallb is_space (las sp1) = true ->
  forallb is_space (las sp2) = true ->
  q = ""%string \/ q = "'"%string \/ q = String dquote "" -> value_ok (las v) = true ->
  lookup_col (sol (strip (las c))) (cols d) = Some col ->
  substitute B ("PERCENTAGE(" ++ c ++ "," ++ ws ++ q ++ sp1 ++ v ++ sp2 ++ q ++ ")") d =
    Ok (las (num_str (percentage d col v))) /\
  percentage d col v =
    (let count := Z.of_nat (List.length (filter (fun x => String.eqb (cell_str x) v) (col_cells col))) in
     if (0 <? nrows d)%nat
     then NFloat (PyFloat.mul (PyFloat.div (PyFloat.of_Z count) (PyFloat.of_Z (Z.of_nat (nrows d))))
                              (PyFloat.of_Z 100))
     else NInt 0) /\
  substitute B "PERCENTAGE(age,25)" ages = Ok (las "50.0") /\
  substitute B "PERCENTAGE(age, '25')" ages = Ok (las "50.0") /\
  apply_filters B ages (ODict [("age", OStr "25")]) = Ok (mk_frame [("age", IntCol [])] 0) /\
  apply_filters B ages (ODict [("age", OInt 25)]) = Ok (mk_frame [("age", IntCol [25%Z])] 1).
Proof.
  intros Hcne Hc Hw H1 H2 Hq Hv Hl.
  split; [| split; [| split; [| split; [| split]]]].
  - rewrite substitute_percentage by assumption. rewrite Hl. reflexivity.
  - unfold percentage, bool_sum, eq_str, astype_str. now rewrite map_map, length_filter_map.
  - vm_compute. reflexivity.
  - vm_compute. reflexivity.
  - vm_compute. reflexivity.
  - vm_compute. reflexivity.
Qed.

Lemma percentage_compares_strings_witness :
  lookup_col "Course Name" (cols courses) = Some (ObjCol [CStr "Computer Science"; CStr "N/A";
                                                          CStr "Computer Science"; CNone]) /\
  substitute plain_backend "PERCENTAGE(Course Name , ' Computer Science ')" courses =
    Ok (las (num_str (percentage courses (ObjCol [CStr "Computer Science"; CStr "N/A";
                                                   CStr "Computer Science"; CNone])
                                  "Computer Science"))) /\
  substitute plain_backend "PERCENTAGE(Course Name,N/A)" courses =
    Ok (las (num_str (percentage courses (ObjCol [CStr "Computer Science"; CStr "N/A";
                                                   CStr "Computer Science"; CNone]) "N/A"))).
Proof.
  split; [reflexivity | split].
  - exact (proj1 (percentage_compares_strings plain_backend courses "Course Name " " " "'" " "
                    "Computer Science" " " (ObjCol [CStr "Computer Science"; CStr "N/A";
                                                     CStr "Computer Science"; CNone])
                    ltac:(discriminate) eq_refl eq_refl eq_refl eq_refl
                    ltac:(right; left; reflexivity) eq_refl eq_refl)).
  - exact (proj1 (percentage_compares_strings plain_backend courses "Course Name" "" "" ""
                    "N/A" "" (ObjCol [CStr "Computer Science"; CStr "N/A";
                                      CStr "Computer Science"; CNone])
                    ltac:(discriminate) eq_refl eq_refl eq_refl eq_refl
                    ltac:(left; reflexivity) eq_refl eq_refl)).
Defined.

End Percentages.

(* ----------------------------------------------------------------- *)
(** ** The grouping loop of [_aggregate_data] *)
(* ----------------------------------------------------------------- *)

Module AggregateFacts.
Import PyStr Indicators Analytics.

Lemma add_value_in key r c v agg k :
  In k (map fst (add_value key r c v agg)) <-> k = key \/ In k (map fst agg).
Proof.
  induction agg as [| [k' g] agg IH]; simpl;
    [split; intros [H | H]; auto; contradiction |].
  destruct (String.eqb k' key) eqn:E; simpl.
  - apply String.eqb_eq in E. subst. split; [intros [H | H]; auto | intros [H | H]; auto].
  - rewrite IH. tauto.
Qed.

Lemma add_value_nodup key r c v agg :
  NoDup (map fst agg) -> NoDup (map fst (add_value key r c v agg)).
Proof.
  induction agg as [| [k' g] agg IH]; simpl; intros H.
  - constructor; [intros [] | constructor].
  - inversion H as [| ? ? Hn Hd]; subst.
    destruct (String.eqb k' key) eqn:E; simpl; constructor; auto.
    rewrite add_value_in. intros [-> | Hi]; [| tauto].
    rewrite String.eqb_refl in E. discriminate.
Qed.

Lemma add_value_lookup key r c v agg k :
  dict_lookup k (add_value key r c v agg) =
  if String.eqb key k
  then Some (match dict_lookup key agg with
             | Some g => mk_group (g_row g) (g_column g) (g_values g ++ [v])
             | None => mk_group r c [v]
             end)
  else dict_lookup k agg.
Proof.
  induction agg as [| [k' g] agg IH]; simpl.
  - destruct (String.eqb key k); reflexivity.
  - destruct (String.eqb k' key) eqn:E; simpl.
    + apply String.eqb_eq in E. subst k'.
      destruct (String.eqb key k); reflexivity.
    + rewrite IH. destruct (String.eqb key k) eqn:E2; [| reflexivity].
      apply String.eqb_eq in E2. subst k. rewrite E. reflexivity.
Qed.

Lemma group_loop_snoc rows columns l x :
  group_loop rows columns (l ++ [x]) =
  add_value (cell_key rows columns x) (_get_dimension_key x rows)
            (_get_dimension_key x columns) (value x) (group_loop rows columns l).
Proof. unfold group_loop. now rewrite fold_left_app. Qed.

Lemma find_none_filter {A} (p : A -> bool) l : find p l = None -> filter p l = [].
Proof.
  induction l as [| a l IH]; simpl; [reflexivity |].
  destruct (p a); [discriminate | exact IH].
Qed.

Lemma find_snoc {A} (p : A -> bool) l x :
  find p (l ++ [x]) = match find p l with
                      | Some y => Some y
                      | None => if p x then Some x else None
                      end.
Proof. induction l as [| a l IH]; simpl; [reflexivity |]. destruct (p a); auto. Qed.

Section Groups.
Variables (rows columns : list string).

Let key := cell_key rows columns.
Let sel k := fun it => String.eqb (key it) k.

(** The grouping loop: one entry per distinct cell key, the entry of a
    key holds the row and column key of the first record with that key
    and the values of all records with that key, in order. *)
Lemma group_loop_spec l :
  NoDup (map fst (group_loop rows columns l)) /\
  (forall k, In k (map fst (group_loop rows columns l)) <-> exists it, In it l /\ key it = k) /\
  (forall k, dict_lookup k (group_loop rows columns l) =
             match find (sel k) l with
             | Some it => Some (mk_group (_get_dimension_key it rows)
                                         (_get_dimension_key it columns)
                                         (map value (filter (sel k) l)))
             | None => None
             end).
Proof.
  induction l as [| x l IH] using rev_ind.
  - split; [constructor | split; [| reflexivity]]. intros k. simpl. split; [intros [] | intros (it & [] & _)].
  - destruct IH as (Hnd & Hin & Hlk).
    rewrite group_loop_snoc. fold key.
    split; [| split].
    + now apply add_value_nodup.
    + intros k. rewrite add_value_in, Hin. split.
      * intros [-> | (it & Hi & Hk)]; [exists x; split; [apply in_or_app; right; left |]; reflexivity |].
        exists it. split; [apply in_or_app; now left | exact Hk].
      * intros (it & Hi & Hk). apply in_app_or in Hi as [Hi | [<- | []]]; [right; eauto | left; auto].
    + intros k. rewrite add_value_lookup, find_snoc, filter_app, map_app. cbn [filter].
      change (sel k x) with (String.eqb (key x) k).
      destruct (String.eqb (key x) k) eqn:E.
      * apply String.eqb_eq in E. subst k. rewrite Hlk.
        destruct (find (sel (key x)) l) as [it |] eqn:Ef; [reflexivity |].
        rewrite (find_none_filter _ _ Ef). reflexivity.
      * rewrite Hlk, app_nil_r. destruct (find (sel k) l); reflexivity.
Qed.

End Groups.

Lemma lookup_map_finish {A B} (f : A -> B) k (l : list (string * A)) :
  dict_lookup k (map (fun kg => (fst kg, f (snd kg))) l) = option_map f (dict_lookup k l).
Proof.
  induction l as [| [k' a] l IH]; simpl; [reflexivity |].
  destruct (String.eqb k' k); [reflexivity | exact IH].
Qed.

End AggregateFacts.

(* ----------------------------------------------------------------- *)
(** ** Cells of the aggregation *)
(* ----------------------------------------------------------------- *)

Module Aggregation.
Import PyStr Indicators Analytics AggregateFacts.

(** C9. [_aggregate_data] with the [rows] and [columns] of the layout:
    over no record it returns the empty mapping; a record's row key and
    column key join with [_] its values at the listed fields, in the
    listed order, a field the record lacks giving the empty string; the
    cell key is row key, [_], column key; the result has one entry per
    distinct cell key of the records, and the entry of a key holds the
    row and column keys of the first record with that key and the values
    of all records with that key, in order, with their [sum], [avg] and
    [count]. *)
Theorem aggregate_data_cells (py_sum : list PyFloat.t -> PyFloat.t) data layout :
  let rows := layout_get layout "rows" in
  let columns := layout_get layout "columns" in
  let key := cell_key rows columns in
  _aggregate_data py_sum [] layout = [] /\
  (forall item dims, _get_dimension_key item dims = join "_" (map (dim_value item) dims)) /\
  (forall item dim,
     ~ In dim ["indicator__name"; "indicator_id"; "value"; "period"; "calculated_at"; "survey__name"] ->
     dim_value item dim = "") /\
  _get_dimension_key demo_item ["period"; "region"; "survey__name"] = "Q1 2024__Baseline" /\
  (forall item, key item = (_get_dimension_key item rows ++ "_" ++ _get_dimension_key item columns)%string) /\
  NoDup (map fst (_aggregate_data py_sum data layout)) /\
  (forall k, In k (map fst (_aggregate_data py_sum data layout)) <->
             exists it, In it data /\ key it = k) /\
  (forall k, dict_lookup k (_aggregate_data py_sum data layout) =
             match find (fun it => String.eqb (key it) k) data with
             | Some it =>
                 Some (finish py_sum
                         (mk_group (_get_dimension_key it rows) (_get_dimension_key it columns)
                                   (map value (filter (fun it => String.eqb (key it) k) data))))
             | None => None
             end).
Proof.
  intros rows columns key.
  destruct (group_loop_spec rows columns data) as (Hnd & Hin & Hlk).
  assert (Hagg : data <> [] -> _aggregate_data py_sum data layout =
                 map (fun kg => (fst kg, finish py_sum (snd kg))) (group_loop rows columns data))
    by (destruct data; [congruence | reflexivity]).
  split; [reflexivity | split; [reflexivity | split; [| split; [reflexivity | split; [reflexivity |]]]]].
  - intros item dim Hd. unfold dim_value.
    repeat match goal with
           | |- context [String.eqb dim ?s] =>
               destruct (String.eqb_spec dim s) as [-> | _]; [exfalso; apply Hd; simpl; tauto |]
           end.
    reflexivity.
  - destruct data as [| d0 data'] eqn:Ed.
    + split; [constructor | split; [intros k; simpl; split; [intros [] | intros (it & [] & _)] |
                                    intros k; reflexivity]].
    + rewrite Hagg by discriminate. rewrite map_map. cbn [fst].
      split; [exact Hnd | split; [exact Hin |]].
      intros k. rewrite lookup_map_finish, Hlk. fold key.
      destruct (find _ _); reflexivity.
Qed.

End Aggregation.

(* ----------------------------------------------------------------- *)
(** ** [json.dumps] of the key data *)
(* ----------------------------------------------------------------- *)

Module FingerprintFacts.
Import PyStr Fingerprint ProofDefs StrFacts FormulaFacts.

Lemma escape_prefix_check :
  all_ascii (fun c1 => all_ascii (fun c2 =>
    negb (prefixb (json_escape_char c1) (json_escape_char c2)) || ascii_eqb c1 c2)) = true.
Proof. vm_compute. reflexivity. Qed.

Lemma escape_nonempty_check : all_ascii (fun c => match json_escape_char c with [] => false | _ => true end) = true.
Proof. vm_compute. reflexivity. Qed.

Lemma escape_prefix c1 c2 l :
  json_escape_char c2 = json_escape_char c1 ++ l -> c1 = c2.
Proof.
  intros E. pose proof (all_ascii_spec _ escape_prefix_check c1) as H.
  pose proof (all_ascii_spec _ H c2) as H2. cbv beta in H2.
  assert (Hp : prefixb (json_escape_char c1) (json_escape_char c2) = true)
    by (apply prefixb_spec; eauto).
  rewrite Hp in H2. simpl in H2. now apply Ascii.eqb_eq.
Qed.

Lemma escape_nonempty c : json_escape_char c <> [].
Proof.
  pose proof (all_ascii_spec _ escape_nonempty_check c) as H. cbv beta in H.
  intros E. rewrite E in H. discriminate.
Qed.

(** The escape code of [json.dumps] is prefix-free. *)
Lemma escape_app c1 c2 r1 r2 :
  json_escape_char c1 ++ r1 = json_escape_char c2 ++ r2 -> c1 = c2 /\ r1 = r2.
Proof.
  intros E.
  assert (c1 = c2) as <-.
  { pose proof E as E'. apply app_eq_app in E' as [l [[E1 _] | [E1 _]]].
    - symmetry. exact (escape_prefix _ _ _ E1).
    - exact (escape_prefix _ _ _ E1). }
  split; [reflexivity |]. eapply app_inv_head. exact E.
Qed.

Lemma escape_inj s1 s2 :
  flat_map json_escape_char s1 = flat_map json_escape_char s2 -> s1 = s2.
Proof.
  revert s2. induction s1 as [| c1 s1 IH]; intros [| c2 s2]; simpl; intros E.
  - reflexivity.
  - symmetry in E. apply app_eq_nil in E as [E _]. now apply escape_nonempty in E.
  - apply app_eq_nil in E as [E _]. now apply escape_nonempty in E.
  - apply escape_app in E as [-> E]. f_equal. now apply IH.
Qed.

Lemma json_str_inj s1 s2 : json_str s1 = json_str s2 -> s1 = s2.
Proof.
  unfold json_str. intros E. apply (f_equal las) in E. unfold las, sol in E.
  rewrite !list_ascii_of_string_of_list_ascii in E. injection E as E.
  apply app_inv_tail in E. apply escape_inj in E.
  rewrite <- (string_of_list_ascii_of_string s1), <- (string_of_list_ascii_of_string s2).
  unfold las in E. now rewrite E.
Qed.


Lemma key_string_shape v :
  las (json_dumps (key_data v)) =
  las ("{" ++ json_str "dimensions" ++ ": " ++ json_dumps (dimensions v) ++ ", " ++
       json_str "filters" ++ ": " ++ json_dumps (filters v) ++ ", " ++
       json_str "updated_at" ++ ": ")%string ++
  las (json_dumps (match updated_at v with Some iso => JStr iso | None => JStr "preview" end)) ++
  las (", " ++ json_str "viz_id" ++ ": " ++
       json_dumps (match id v with
                   | Some z => if (z =? 0)%Z then JStr "preview" else JInt z
                   | None => JStr "preview"
                   end) ++ "}")%string.
Proof.
  set (U := match updated_at v with Some iso => JStr iso | None => JStr "preview" end).
  set (V := match id v with
            | Some z => if (z =? 0)%Z then JStr "preview" else JInt z
            | None => JStr "preview"
            end).
  assert (E : json_dumps (key_data v) =
    ("{" ++ (((json_str "dimensions" ++ (": " ++ json_dumps (dimensions v))) ++
      (", " ++ ((json_str "filters" ++ (": " ++ json_dumps (filters v))) ++
      (", " ++ ((json_str "updated_at" ++ (": " ++ json_dumps U)) ++
      (", " ++ (json_str "viz_id" ++ (": " ++ json_dumps V)))))))) ++ "}"))%string)
    by reflexivity.
  rewrite E, !las_append, <- !app_assoc. reflexivity.
Qed.

End FingerprintFacts.


(* ----------------------------------------------------------------- *)
(** ** Counts of the aggregated cells *)
(* ----------------------------------------------------------------- *)

Module AggregateTotals.
Import PyStr Indicators Analytics AggregateFacts.

Definition total_len (agg : list (string * group)) : nat :=
  list_sum (map (fun kg => List.length (g_values (snd kg))) agg).

Lemma add_value_total key r c v agg :
  total_len (add_value key r c v agg) = S (total_len agg).
Proof.
  induction agg as [| [k g] agg IH]; simpl; [reflexivity |].
  unfold total_len in *. destruct (String.eqb k key); simpl.
  - rewrite length_app. simpl. lia.
  - rewrite IH. lia.
Qed.

Lemma add_value_nonempty key r c v agg :
  Forall (fun kg => g_values (snd kg) <> []) agg ->
  Forall (fun kg => g_values (snd kg) <> []) (add_value key r c v agg).
Proof.
  induction agg as [| [k g] agg IH]; simpl; intros H.
  - constructor; [discriminate | constructor].
  - inversion H as [| ? ? Hg Hr]; subst.
    destruct (String.eqb k key); constructor; auto.
    simpl. destruct (g_values g); discriminate.
Qed.

Lemma group_loop_totals rows columns data :
  total_len (group_loop rows columns data) = List.length data /\
  Forall (fun kg => g_values (snd kg) <> []) (group_loop rows columns data).
Proof.
  induction data as [| x l IH] using rev_ind; [split; [reflexivity | constructor] |].
  rewrite group_loop_snoc, length_app. destruct IH as [IH1 IH2]. split.
  - rewrite add_value_total, IH1. simpl. lia.
  - now apply add_value_nonempty.
Qed.

Lemma sum_counts_finish py_sum (agg : list (string * group)) :
  fold_right Z.add 0%Z (map (fun kc => count (snd kc))
                          (map (fun kg => (fst kg, finish py_sum (snd kg))) agg)) =
  Z.of_nat (total_len agg).
Proof.
  induction agg as [| [k g] agg IH]; simpl; [reflexivity |].
  unfold total_len in *. simpl in *. rewrite IH. lia.
Qed.

Lemma aggregate_count_sum (py_sum : list PyFloat.t -> PyFloat.t) data layout :
  fold_right Z.add 0%Z (map (fun kc => count (snd kc)) (_aggregate_data py_sum data layout)) =
  Z.of_nat (List.length data).
Proof.
  destruct data as [| d0 data'] eqn:Ed; [reflexivity |]. rewrite <- Ed.
  assert (Hagg : _aggregate_data py_sum data layout =
                 map (fun kg => (fst kg, finish py_sum (snd kg)))
                     (group_loop (layout_get layout "rows") (layout_get layout "columns") data))
    by (subst data; reflexivity).
  rewrite Hagg, sum_counts_finish.
  now rewrite (proj1 (group_loop_totals (layout_get layout "rows") (layout_get layout "columns") data)).
Qed.

(** X1. Every cell of [_aggregate_data] holds at least one value, its
    [count] is the number of its values and its [avg] is [sum / count]
    (the [else 0] branch is never taken); the counts of all cells add up
    to the number of records. *)
Theorem aggregate_cells_counts (py_sum : list PyFloat.t -> PyFloat.t) data layout :
  let agg := _aggregate_data py_sum data layout in
  (forall k c, In (k, c) agg ->
     (1 <= count c)%Z /\ count c = Z.of_nat (List.length (values c)) /\
     avg c = NFloat (PyFloat.div (sum c) (PyFloat.of_Z (count c)))) /\
  fold_right Z.add 0%Z (map (fun kc => count (snd kc)) agg) = Z.of_nat (List.length data).
Proof.
  intros agg. subst agg.
  destruct data as [| d0 data'] eqn:Ed; [split; [intros k c [] | reflexivity] |].
  rewrite <- Ed.
  assert (Hagg : _aggregate_data py_sum data layout =
                 map (fun kg => (fst kg, finish py_sum (snd kg)))
                     (group_loop (layout_get layout "rows") (layout_get layout "columns") data))
    by (subst data; reflexivity).
  destruct (group_loop_totals (layout_get layout "rows") (layout_get layout "columns") data)
    as [Ht Hne].
  rewrite Hagg. split.
  - intros k c Hin. apply in_map_iff in Hin as ([k' g] & E & Hg). injection E as <- <-.
    rewrite Forall_forall in Hne. specialize (Hne _ Hg). simpl in Hne.
    unfold finish. simpl. destruct (g_values g) as [| v vs]; [congruence |].
    simpl. split; [lia | split; reflexivity].
  - rewrite <- Hagg. apply aggregate_count_sum.
Qed.

End AggregateTotals.

(* ----------------------------------------------------------------- *)
(** ** Dict updates and chart options *)
(* ----------------------------------------------------------------- *)

Module DictFacts.
Import Frame PyDict.

Lemma dict_set_get_same k v d : dict_get (dict_set k v d) k = v.
Proof.
  induction d as [| [k' v'] d IH]; simpl; [now rewrite String.eqb_refl |].
  destruct (String.eqb k' k) eqn:E; simpl; rewrite E; auto.
Qed.

Lemma dict_set_get_other k k' v d : k' <> k -> dict_get (dict_set k v d) k' = dict_get d k'.
Proof.
  intros Hne. induction d as [| [k0 v0] d IH]; simpl.
  - apply String.eqb_neq in Hne. rewrite String.eqb_sym, Hne. reflexivity.
  - destruct (String.eqb k0 k) eqn:E; simpl.
    + apply String.eqb_eq in E. subst k0.
      apply String.eqb_neq in Hne. rewrite String.eqb_sym, Hne. reflexivity.
    + destruct (String.eqb k0 k'); auto.
Qed.

Lemma dict_set_absent k v d : dict_has k d = false -> dict_set k v d = d ++ [(k, v)].
Proof.
  induction d as [| [k' v'] d IH]; simpl; [reflexivity |].
  intros H. apply orb_false_iff in H as [H1 H2]. rewrite H1. f_equal. auto.
Qed.

Lemma dict_set_has k k' v d : dict_has k' (dict_set k v d) = String.eqb k k' || dict_has k' d.
Proof.
  induction d as [| [k0 v0] d IH]; simpl.
  - rewrite orb_false_r. reflexivity.
  - destruct (String.eqb k0 k) eqn:E; simpl.
    + apply String.eqb_eq in E. subst k0. destruct (String.eqb k k'); reflexivity.
    + rewrite IH. destruct (String.eqb k0 k'), (String.eqb k k'); reflexivity.
Qed.

End DictFacts.

Module ChartOptions.
Import PyStr Frame Indicators Analytics PyDict Formatting DictFacts.

Ltac opt_simpl :=
  repeat first [rewrite dict_set_has | rewrite String.eqb_refl | rewrite orb_true_r
               | match goal with H : dict_has _ _ = _ |- _ => rewrite H end
               | progress cbn [orb]];
  reflexivity.

(** X2. [_format_for_chart] emits one point per cell, in the order of
    the cells, with the cell's row key, sum, average and count; in the
    options it gives [xAxisLabel] the value [Period] and [yAxisLabel]
    the value [Value] only when the key is absent, keeps every other
    entry, only appends to the dict, and the payload holds the options
    after the call.  Formatting again with those options leaves them as
    they are. *)
Theorem chart_options_defaults data chart_type options :
  let '(payload, options') := _format_for_chart data chart_type options in
  payload = ODict [("type", OStr chart_type);
                   ("data", OList (map (fun kc => chart_point (snd kc)) data));
                   ("options", ODict options')] /\
  dict_get options' "xAxisLabel" =
    (if dict_has "xAxisLabel" options then dict_get options "xAxisLabel" else OStr "Period") /\
  dict_get options' "yAxisLabel" =
    (if dict_has "yAxisLabel" options then dict_get options "yAxisLabel" else OStr "Value") /\
  (forall k, k <> "xAxisLabel" -> k <> "yAxisLabel" -> dict_get options' k = dict_get options k) /\
  (exists added, options' = options ++ added) /\
  (forall data2 chart_type2, snd (_format_for_chart data2 chart_type2 options') = options').
Proof.
  unfold _format_for_chart.
  destruct (dict_has "xAxisLabel" options) eqn:Hx.
  - destruct (dict_has "yAxisLabel" options) eqn:Hy.
    + repeat split; auto. exists []. now rewrite app_nil_r.
      intros. simpl. now rewrite Hx, Hy.
    + repeat split.
      * rewrite dict_set_get_other by discriminate. reflexivity.
      * apply dict_set_get_same.
      * intros k H1 H2. now apply dict_set_get_other.
      * exists [("yAxisLabel", OStr "Value")]. now apply dict_set_absent.
      * intros. simpl. opt_simpl.
  - set (o1 := dict_set "xAxisLabel" (OStr "Period") options).
    assert (Hy1 : dict_has "yAxisLabel" o1 = dict_has "yAxisLabel" options)
      by (unfold o1; rewrite dict_set_has; reflexivity).
    rewrite Hy1.
    assert (Hx1 : dict_has "xAxisLabel" o1 = true)
      by (unfold o1; rewrite dict_set_has, String.eqb_refl; reflexivity).
    destruct (dict_has "yAxisLabel" options) eqn:Hy; unfold o1 in *.
    + repeat split.
      * apply dict_set_get_same.
      * rewrite dict_set_get_other by discriminate. reflexivity.
      * intros k H1 H2. now apply dict_set_get_other.
      * exists [("xAxisLabel", OStr "Period")]. now apply dict_set_absent.
      * intros. simpl. opt_simpl.
    + repeat split.
      * rewrite dict_set_get_other by discriminate. apply dict_set_get_same.
      * apply dict_set_get_same.
      * intros k H1 H2. rewrite !dict_set_get_other by assumption. reflexivity.
      * exists [("xAxisLabel", OStr "Period"); ("yAxisLabel", OStr "Value")].
        rewrite dict_set_absent by (rewrite Hy1; reflexivity).
        rewrite dict_set_absent by exact Hx. now rewrite <- app_assoc.
      * intros. simpl. opt_simpl.
Qed.

End ChartOptions.

(* ----------------------------------------------------------------- *)
(** ** Pivot table rows and columns *)
(* ----------------------------------------------------------------- *)

Module OrderFacts.
Import PyStr Fingerprint.

Lemma str_ltb_irrefl a : str_ltb a a = false.
Proof.
  induction a as [| x a IH]; simpl; [reflexivity |].
  rewrite Nat.ltb_irrefl, Nat.eqb_refl. exact IH.
Qed.

Lemma str_ltb_trans a b c : str_ltb a b = true -> str_ltb b c = true -> str_ltb a c = true.
Proof.
  revert b c. induction a as [| x a IH]; intros [| y b] [| z c]; simpl; try discriminate; auto.
  intros H1 H2.
  destruct (Nat.ltb_spec (nat_of_ascii x) (nat_of_ascii y));
  destruct (Nat.ltb_spec (nat_of_ascii y) (nat_of_ascii z));
  destruct (Nat.ltb_spec (nat_of_ascii x) (nat_of_ascii z)); auto;
  destruct (Nat.eqb_spec (nat_of_ascii x) (nat_of_ascii y));
  destruct (Nat.eqb_spec (nat_of_ascii y) (nat_of_ascii z));
  destruct (Nat.eqb_spec (nat_of_ascii x) (nat_of_ascii z));
  try discriminate; try lia; eauto.
Qed.

Lemma str_ltb_total a b : a <> b -> str_ltb a b = true \/ str_ltb b a = true.
Proof.
  revert b. induction a as [| x a IH]; intros [| y b] Hne; simpl; auto; try congruence.
  destruct (Nat.ltb_spec (nat_of_ascii x) (nat_of_ascii y)); auto.
  destruct (Nat.ltb_spec (nat_of_ascii y) (nat_of_ascii x)); auto.
  assert (E : nat_of_ascii x = nat_of_ascii y) by lia.
  rewrite E, Nat.eqb_refl.
  assert (x = y) as <- by (rewrite <- (ascii_nat_embedding x), <- (ascii_nat_embedding y); congruence).
  apply IH. congruence.
Qed.

Lemma las_inj a b : las a = las b -> a = b.
Proof.
  intros E. rewrite <- (string_of_list_ascii_of_string a), <- (string_of_list_ascii_of_string b).
  unfold las in E. now rewrite E.
Qed.

End OrderFacts.

Module PivotFacts.
Import PyStr Frame Indicators Analytics Formatting OrderFacts.

Definition lt (a b : string) : Prop := Fingerprint.str_ltb (las a) (las b) = true.

Lemma insert_str_in x l y : In y (insert_str x l) <-> y = x \/ In y l.
Proof.
  induction l as [| z l IH]; simpl; [intuition congruence |].
  destruct (Fingerprint.str_ltb (las x) (las z)); simpl; [intuition congruence |].
  rewrite IH. intuition congruence.
Qed.

Lemma insert_str_sorted x l :
  StronglySorted lt l -> ~ In x l -> StronglySorted lt (insert_str x l).
Proof.
  induction l as [| z l IH]; simpl; intros Hs Hn.
  - repeat constructor.
  - inversion Hs as [| ? ? Hs' Hall]; subst.
    destruct (Fingerprint.str_ltb (las x) (las z)) eqn:E.
    + constructor; [exact Hs |]. constructor; [exact E |].
      eapply Forall_impl; [| exact Hall]. intros w Hw. eapply str_ltb_trans; eauto.
    + constructor; [apply IH; tauto |].
      apply Forall_forall. intros w Hw. apply insert_str_in in Hw as [-> | Hw].
      * destruct (str_ltb_total (las x) (las z)) as [H | H]; [| congruence | exact H].
        intros Hq. apply Hn. left. symmetry. now apply las_inj.
      * rewrite Forall_forall in Hall. auto.
Qed.

Lemma sorted_strs_spec l :
  NoDup l ->
  StronglySorted lt (sorted_strs l) /\ (forall y, In y (sorted_strs l) <-> In y l).
Proof.
  unfold sorted_strs. induction l as [| x m IH] using rev_ind; simpl; intros Hnd.
  - split; [constructor | tauto].
  - rewrite fold_left_app. simpl.
    apply NoDup_remove in Hnd as [Hd Hn]. rewrite app_nil_r in Hd, Hn.
    destruct (IH Hd) as [Hs Hin]. split.
    + apply insert_str_sorted; [exact Hs |]. rewrite Hin. exact Hn.
    + intros y. rewrite insert_str_in, Hin, in_app_iff. simpl. intuition congruence.
Qed.

Lemma set_add_spec x s :
  NoDup s -> NoDup (set_add x s) /\ (forall y, In y (set_add x s) <-> y = x \/ In y s).
Proof.
  unfold set_add. intros Hnd. destruct (existsb (String.eqb x) s) eqn:E.
  - apply existsb_exists in E as (z & Hz & Ez). apply String.eqb_eq in Ez. subst z.
    split; [exact Hnd | intros y; split; [tauto | intros [-> | H]; auto]].
  - split.
    + apply NoDup_app; [exact Hnd | repeat constructor; simpl; tauto |].
      intros y Hy Hy'. destruct Hy' as [-> | []]. assert (existsb (String.eqb y) s = true); [| congruence].
      apply existsb_exists. exists y. split; [exact Hy | apply String.eqb_refl].
    + intros y. rewrite in_app_iff. simpl. intuition congruence.
Qed.

Lemma pivot_sets_spec data :
  NoDup (fst (pivot_sets data)) /\ NoDup (snd (pivot_sets data)) /\
  (forall r, In r (fst (pivot_sets data)) <-> exists k c, In (k, c) data /\ row c = r) /\
  (forall r, In r (snd (pivot_sets data)) <-> exists k c, In (k, c) data /\ column c = r).
Proof.
  unfold pivot_sets. induction data as [| [k c] data IH] using rev_ind.
  - simpl. split; [constructor | split; [constructor |]].
    split; intros r; split; first [intros (k & c & [] & _) | intros []].
  - rewrite fold_left_app. simpl.
    destruct IH as (H1 & H2 & H3 & H4).
    destruct (set_add_spec (row c) _ H1) as [N1 I1].
    destruct (set_add_spec (column c) _ H2) as [N2 I2].
    split; [exact N1 | split; [exact N2 | split]].
    + intros r. rewrite I1, H3. split.
      * intros [-> | (k' & c' & Hi & E)]; [exists k, c; split; [apply in_or_app; right; left |]; reflexivity |].
        exists k', c'. split; [apply in_or_app; now left | exact E].
      * intros (k' & c' & Hi & E). apply in_app_or in Hi as [Hi | [Hi | []]].
        -- right. eauto.
        -- injection Hi as <- <-. left. now symmetry.
    + intros r. rewrite I2, H4. split.
      * intros [-> | (k' & c' & Hi & E)]; [exists k, c; split; [apply in_or_app; right; left |]; reflexivity |].
        exists k', c'. split; [apply in_or_app; now left | exact E].
      * intros (k' & c' & Hi & E). apply in_app_or in Hi as [Hi | [Hi | []]].
        -- right. eauto.
        -- injection Hi as <- <-. left. now symmetry.
Qed.

End PivotFacts.

Module Pivot.
Import PyStr Frame Indicators Analytics Formatting PivotFacts.

(** X3. [_format_for_pivot] lists under [rows] the distinct row keys of
    the cells and under [columns] their distinct column keys, each in
    strictly increasing code-point order (so without duplicates): a key
    is listed exactly when some cell carries it.  The cells and the
    options are passed through. *)
Theorem pivot_rows_columns_sorted data options :
  exists rs cs,
    _format_for_pivot data options =
      ODict [("rows", OList (map OStr rs)); ("columns", OList (map OStr cs));
             ("data", data_obj data); ("options", ODict options)] /\
    StronglySorted (fun a b => Fingerprint.str_ltb (las a) (las b) = true) rs /\
    StronglySorted (fun a b => Fingerprint.str_ltb (las a) (las b) = true) cs /\
    (forall r, In r rs <-> exists k c, In (k, c) data /\ row c = r) /\
    (forall r, In r cs <-> exists k c, In (k, c) data /\ column c = r).
Proof.
  destruct (pivot_sets_spec data) as (N1 & N2 & I1 & I2).
  destruct (sorted_strs_spec _ N1) as [S1 J1].
  destruct (sorted_strs_spec _ N2) as [S2 J2].
  exists (sorted_strs (fst (pivot_sets data))), (sorted_strs (snd (pivot_sets data))).
  split; [reflexivity |]. split; [exact S1 | split; [exact S2 | split]].
  - intros r. now rewrite J1, I1.
  - intros r. now rewrite J2, I2.
Qed.

End Pivot.

(* ----------------------------------------------------------------- *)
(** ** Single value totals *)
(* ----------------------------------------------------------------- *)

Module SingleValueFacts.
Import PyStr Frame Arith Indicators Analytics PyDict Formatting.

Lemma total_loop_float cells t c :
  total_loop cells (NFloat t) c =
  Ok (NFloat (fold_left (fun acc kc => PyFloat.add acc (sum (snd kc))) cells t),
      (c + fold_right Z.add 0 (map (fun kc => count (snd kc)) cells))%Z).
Proof.
  revert t c. induction cells as [| [k x] cells IH]; intros t c; simpl.
  - now rewrite Z.add_0_r.
  - rewrite IH. do 2 f_equal. lia.
Qed.

Lemma int_to_float_ok z : PyFloat.is_inf (PyFloat.of_Z z) = false -> int_to_float z = Ok (PyFloat.of_Z z).
Proof. intros H. unfold int_to_float. now rewrite H. Qed.

End SingleValueFacts.

Module SingleValue.
Import PyStr Frame Arith Indicators Analytics PyDict Formatting AggregateTotals SingleValueFacts.

(** X4. On the cells of [_aggregate_data], [_format_for_single_value]
    reports as [value] the float sum [0 + s1 + s2 + ...] of the cells'
    sums, in cell order, and as [average] that total over the number of
    records (the counts of the cells add up to it); [label] defaults to
    [Total], [trend] to [0] and [target] to [None].  Over no record both
    [value] and [average] are the int [0]. *)
Theorem single_value_of_aggregate (py_sum : list PyFloat.t -> PyFloat.t) data layout options :
  data <> [] ->
  PyFloat.is_inf (PyFloat.of_Z (Z.of_nat (List.length data))) = false ->
  let agg := _aggregate_data py_sum data layout in
  let total := fold_left (fun acc kc => PyFloat.add acc (sum (snd kc))) agg PyFloat.zero in
  _format_for_single_value agg options =
    Ok (ODict [("type", OStr "single_value");
               ("data", ODict [("value", OFloat total);
                               ("label", dict_get_or options "label" (OStr "Total"));
                               ("trend", dict_get_or options "trend" (OInt 0));
                               ("target", dict_get options "target_value");
                               ("average", OFloat (PyFloat.div total
                                                    (PyFloat.of_Z (Z.of_nat (List.length data)))))]);
               ("options", ODict options)]) /\
  _format_for_single_value (_aggregate_data py_sum [] layout) options =
    Ok (ODict [("type", OStr "single_value");
               ("data", ODict [("value", OInt 0);
                               ("label", dict_get_or options "label" (OStr "Total"));
                               ("trend", dict_get_or options "trend" (OInt 0));
                               ("target", dict_get options "target_value");
                               ("average", OInt 0)]);
               ("options", ODict options)]).
Proof.
  intros Hne Hinf agg total. split; [| reflexivity].
  pose proof (aggregate_count_sum py_sum data layout) as Hc. fold agg in Hc.
  destruct agg as [| [k c1] rest] eqn:Ea.
  - simpl in Hc. destruct data; [congruence | simpl in Hc; lia].
  - unfold _format_for_single_value. cbn [total_loop add_total].
    change (int_to_float 0) with (Ok PyFloat.zero). cbn [bind].
    rewrite total_loop_float. cbn [bind fst snd].
    unfold avg_total.
    replace (0 + count c1 + fold_right Z.add 0 (map (fun kc => count (snd kc)) rest))%Z
      with (Z.of_nat (List.length data)) by (simpl in Hc; lia).
    destruct data as [| d0 data']; [congruence |].
    change (0 <? Z.of_nat (List.length (d0 :: data')))%Z with true.
    rewrite (int_to_float_ok _ Hinf). reflexivity.
Qed.

Lemma single_value_of_aggregate_witness :
  [demo_item] <> [] /\ PyFloat.is_inf (PyFloat.of_Z 1) = false /\
  exists p, _format_for_single_value (_aggregate_data seq_sum [demo_item] []) [] = Ok p.
Proof.
  assert (H1 : [demo_item] <> []) by discriminate.
  assert (H2 : PyFloat.is_inf (PyFloat.of_Z (Z.of_nat (List.length [demo_item]))) = false)
    by (vm_compute; reflexivity).
  split; [exact H1 | split; [exact H2 |]].
  eexists. exact (proj1 (single_value_of_aggregate seq_sum [demo_item] [] [] H1 H2)).
Defined.

End SingleValue.

(* ----------------------------------------------------------------- *)
(** ** Integers converted to floats *)
(* ----------------------------------------------------------------- *)

Module FloatFacts.

Lemma shr_1_nonneg mrs : (0 <= shr_m mrs)%Z -> (0 <= shr_m (shr_1 mrs))%Z.
Proof. destruct mrs as [m r s]; destruct m as [| [p | p |] | p]; simpl; lia. Qed.

Lemma iter_shr_nonneg p : forall mrs, (0 <= shr_m mrs)%Z -> (0 <= shr_m (iter_pos shr_1 p mrs))%Z.
Proof. induction p as [p IH | p IH |]; intros mrs H; simpl; auto using shr_1_nonneg. Qed.

Lemma shr_fexp_nonneg prec emax m e l :
  (0 <= m)%Z -> (0 <= shr_m (fst (shr_fexp prec emax m e l)))%Z.
Proof.
  intros H. unfold shr_fexp, shr.
  assert (Hr : (0 <= shr_m (shr_record_of_loc m l))%Z)
    by (destruct l as [| [] ]; simpl; exact H).
  destruct (_ - e)%Z; simpl; auto using iter_shr_nonneg.
Qed.

Lemma round_nearest_even_nonneg mx lx : (0 <= mx)%Z -> (0 <= round_nearest_even mx lx)%Z.
Proof. intros H. destruct lx as [| [] ]; simpl; try destruct (Z.even mx); lia. Qed.

Lemma binary_round_aux_not_nan prec emax sx mx ex lx :
  (0 <= mx)%Z -> binary_round_aux prec emax sx mx ex lx <> S754_nan.
Proof.
  intros H. unfold binary_round_aux.
  pose proof (shr_fexp_nonneg prec emax mx ex lx H) as H1.
  destruct (shr_fexp prec emax mx ex lx) as [mrs' e'] eqn:E1. simpl in H1.
  pose proof (shr_fexp_nonneg prec emax (round_nearest_even (shr_m mrs') (loc_of_shr_record mrs'))
                e' loc_Exact (round_nearest_even_nonneg _ _ H1)) as H2.
  destruct (shr_fexp prec emax _ e' loc_Exact) as [mrs'' e''] eqn:E2. simpl in H2.
  destruct (shr_m mrs'') as [| m | m]; [discriminate | | lia].
  destruct (e'' <=? emax - prec)%Z; discriminate.
Qed.

(** [float(z)] is never NaN. *)
Lemma of_Z_not_nan z : PyFloat.is_nan (PyFloat.of_Z z) = false.
Proof.
  unfold PyFloat.of_Z, binary_normalize, binary_round.
  destruct z as [| p | p]; [reflexivity | |];
    (destruct (shl_align _ _ _) as [mz ez];
     destruct (binary_round_aux _ _ _ _ _ _) eqn:E; try reflexivity;
     exfalso; eapply binary_round_aux_not_nan; [| exact E]; lia).
Qed.

End FloatFacts.

(* ----------------------------------------------------------------- *)
(** ** Summary statistics *)
(* ----------------------------------------------------------------- *)

Module SummaryFacts.
Import PyStr Frame Indicators PyDict Summary DictFacts FloatFacts.

Lemma dict_has_false_not_in k d : ~ In k (map fst d) -> dict_has k d = false.
Proof.
  intros H. unfold dict_has. apply not_true_is_false. intros E.
  apply existsb_exists in E as ([k' v] & Hi & Ek). apply String.eqb_eq in Ek. simpl in Ek. subst.
  apply H. apply in_map_iff. exists (k, v). auto.
Qed.

Lemma lookup_col_app_notin c P col S :
  ~ In c (map fst P) -> lookup_col c (P ++ (c, col) :: S) = Some col.
Proof.
  induction P as [| [n x] P IH]; simpl; intros H.
  - now rewrite String.eqb_refl.
  - destruct (String.eqb_spec n c); [subst; tauto |]. apply IH. tauto.
Qed.

Lemma filter_eqb_in c l : In c l -> (1 <= List.length (filter (String.eqb c) l))%nat.
Proof.
  induction l as [| x l IH]; simpl; [tauto |].
  destruct (String.eqb_spec c x); simpl; [lia |]. intros [-> | H]; [congruence | auto].
Qed.

Section Loop.
Variable B : backend.
Variables (median std : num_series -> num).

Definition stats_entry (df : frame) (nc : string * column) : list (string * pyobj) :=
  if (occurrences (fst nc) df =? 1)%nat && (0 <? series_count (to_numeric B (snd nc)))%nat
  then [(fst nc, column_stats B median std (to_numeric B (snd nc)))]
  else [].

Lemma stats_entry_keys df nc : incl (map fst (stats_entry df nc)) [fst nc].
Proof.
  unfold stats_entry. destruct (_ && _); simpl; [apply incl_refl | apply incl_nil_l].
Qed.

Lemma flat_map_keys df P : incl (map fst (flat_map (stats_entry df) P)) (map fst P).
Proof.
  induction P as [| nc P IH]; simpl; [apply incl_refl |].
  rewrite map_app. apply incl_app.
  - eapply incl_tran; [apply stats_entry_keys |]. intros x [<- | []]. now left.
  - intros x Hx. right. now apply IH.
Qed.

Lemma stats_loop df S P :
  cols df = P ++ S ->
  fold_left (stats_step B median std df) (map fst S) (flat_map (stats_entry df) P) =
  flat_map (stats_entry df) (P ++ S).
Proof.
  revert P. induction S as [| [c col] S IH]; intros P HL; simpl.
  - now rewrite app_nil_r.
  - replace (P ++ (c, col) :: S) with ((P ++ [(c, col)]) ++ S) by now rewrite <- app_assoc.
    rewrite <- IH by (rewrite HL, <- app_assoc; reflexivity).
    f_equal. rewrite flat_map_app. simpl. rewrite app_nil_r.
    unfold stats_step, stats_entry. simpl fst. simpl snd.
    destruct (Nat.eqb_spec (occurrences c df) 1) as [Ho | Ho].
    + replace (1 <? occurrences c df)%nat with false by (symmetry; apply Nat.ltb_ge; lia).
      assert (Hn : ~ In c (map fst P)).
      { intros Hin. unfold occurrences, columns in Ho. rewrite HL, map_app in Ho. simpl in Ho.
        rewrite filter_app in Ho. simpl in Ho. rewrite String.eqb_refl in Ho.
        simpl in Ho. rewrite length_app in Ho. simpl in Ho.
        pose proof (filter_eqb_in c _ Hin). lia. }
      rewrite HL, (lookup_col_app_notin c P col S Hn). simpl.
      destruct (0 <? series_count (to_numeric B col))%nat; simpl; [| now rewrite app_nil_r].
      apply dict_set_absent, dict_has_false_not_in.
      intros Hin. apply Hn. exact (flat_map_keys df P c Hin).
    + destruct (1 <? occurrences c df)%nat eqn:E; simpl; [now rewrite app_nil_r |].
      exfalso. apply Nat.ltb_ge in E.
      assert (Hin : In c (columns df)) by (unfold columns; rewrite HL, map_app; apply in_or_app; right; now left).
      pose proof (filter_eqb_in c _ Hin). unfold occurrences in *. lia.
Qed.

End Loop.

End SummaryFacts.

Module SummaryStats.
Import PyStr Frame Indicators PyDict Summary FloatFacts SummaryFacts Scenarios.

(** X6. [get_summary_statistics] has one entry per column, in the
    order of the columns, for exactly the columns whose name no other
    column carries and whose [pd.to_numeric] conversion has at least one
    non-NaN value; the entry is the dict of [count], [mean], [median],
    [std], [min], [max] and [sum] of that conversion.  A name carried
    by two columns is skipped silently; on a frame with distinct names,
    the keys are the names of the columns with a numeric value. *)
Theorem summary_statistics_entries (B : backend) (median std : num_series -> num) (self : service) :
  get_summary_statistics B median std self =
    flat_map (fun nc =>
                if (occurrences (fst nc) (df self) =? 1)%nat &&
                   (0 <? series_count (to_numeric B (snd nc)))%nat
                then [(fst nc, column_stats B median std (to_numeric B (snd nc)))]
                else []) (cols (df self)) /\
  (NoDup (columns (df self)) ->
   map fst (get_summary_statistics B median std self) =
     map fst (filter (fun nc => (0 <? series_count (to_numeric B (snd nc)))%nat) (cols (df self)))).
Proof.
  assert (Hs : get_summary_statistics B median std self =
               flat_map (stats_entry B median std (df self)) (cols (df self))).
  { unfold get_summary_statistics, columns.
    exact (stats_loop B median std (df self) (cols (df self)) [] eq_refl). }
  split; [exact Hs |].
  intros Hnd. rewrite Hs.
  assert (Hocc : forall nc, In nc (cols (df self)) -> occurrences (fst nc) (df self) = 1%nat).
  { intros nc Hin. unfold occurrences.
    assert (Hc : In (fst nc) (columns (df self))) by (apply in_map; exact Hin).
    clear Hs Hin. induction (columns (df self)) as [| x l IH]; simpl in *; [tauto |].
    inversion Hnd as [| ? ? Hx Hl]; subst.
    destruct (String.eqb_spec (fst nc) x) as [-> | Hne]; simpl.
    - f_equal. clear IH Hc Hnd Hl. induction l as [| y l IHl]; simpl; [reflexivity |].
      destruct (String.eqb_spec x y); [subst; simpl in Hx; tauto |]. apply IHl. simpl in Hx. tauto.
    - apply IH; [exact Hl | destruct Hc; [congruence | assumption]]. }
  clear Hs Hnd. induction (cols (df self)) as [| nc l IH]; simpl; [reflexivity |].
  unfold stats_entry at 1. rewrite (Hocc nc (or_introl eq_refl)). simpl.
  destruct (0 <? series_count (to_numeric B (snd nc)))%nat; simpl;
    rewrite IH; auto; intros; apply Hocc; now right.
Qed.

Lemma safe_float_not_nan v :
  safe_float v = ONone \/ exists f, safe_float v = OFloat f /\ PyFloat.is_nan f = false.
Proof.
  destruct v as [z | f]; simpl.
  - right. exists (PyFloat.of_Z z). split; [reflexivity | apply of_Z_not_nan].
  - destruct (PyFloat.is_nan f) eqn:E; simpl; [now left |].
    destruct (PyFloat.is_inf f); [now left | right; eauto].
Qed.

(** X7. Every entry of [get_summary_statistics] reports a positive
    [count], and each of [mean], [median], [std], [min], [max] and
    [sum] is [None] or a float that is not NaN; the [mean] is [None] or
    a finite float. *)
Theorem summary_statistics_no_nan (B : backend) (median std : num_series -> num) (self : service) :
  forall k v, In (k, v) (get_summary_statistics B median std self) ->
  exists cnt fields,
    v = ODict (("count", OInt cnt) :: fields) /\ (0 < cnt)%Z /\
    map fst fields = ["mean"; "median"; "std"; "min"; "max"; "sum"] /\
    Forall (fun kv => snd kv = ONone \/
                      exists f, snd kv = OFloat f /\ PyFloat.is_nan f = false) fields /\
    (dict_get fields "mean" = ONone \/
     exists f, dict_get fields "mean" = OFloat f /\ PyFloat.is_nan f = false /\
               PyFloat.is_inf f = false).
Proof.
  intros k v Hin.
  rewrite (proj1 (summary_statistics_entries B median std self)) in Hin.
  apply in_flat_map in Hin as (nc & _ & Hin).
  destruct (_ && _) eqn:E; [| destruct Hin].
  destruct Hin as [Ev | []]. injection Ev as <- <-.
  apply andb_true_iff in E as [_ E]. apply Nat.ltb_lt in E.
  set (s := to_numeric B (snd nc)) in *.
  eexists; eexists. split; [reflexivity |]. split; [lia |]. split; [reflexivity |]. split.
  - repeat (apply Forall_cons; [apply safe_float_not_nan |]). apply Forall_nil.
  - simpl. unfold series_mean. destruct s as [l | l].
    + destruct (List.length l =? 0)%nat; [now left |].
      simpl. destruct (PyFloat.is_nan _) eqn:N; simpl; [now left |].
      destruct (PyFloat.is_inf _) eqn:I; [now left | right; eauto].
    + destruct (List.length (filter not_nan l) =? 0)%nat; [now left |].
      simpl. destruct (PyFloat.is_nan _) eqn:N; simpl; [now left |].
      destruct (PyFloat.is_inf _) eqn:I; [now left | right; eauto].
Qed.

Lemma summary_statistics_no_nan_witness :
  In ("age", column_stats plain_backend (fun _ => NFloat PyFloat.nan) (fun _ => NFloat PyFloat.nan)
                          (IntSeries [25; 30]%Z))
     (get_summary_statistics plain_backend (fun _ => NFloat PyFloat.nan)
                             (fun _ => NFloat PyFloat.nan) (init ages)) /\
  exists cnt fields,
    column_stats plain_backend (fun _ => NFloat PyFloat.nan) (fun _ => NFloat PyFloat.nan)
                 (IntSeries [25; 30]%Z) = ODict (("count", OInt cnt) :: fields) /\ (0 < cnt)%Z.
Proof.
  assert (H : In ("age", column_stats plain_backend (fun _ => NFloat PyFloat.nan)
                           (fun _ => NFloat PyFloat.nan) (IntSeries [25; 30]%Z))
                 (get_summary_statistics plain_backend (fun _ => NFloat PyFloat.nan)
                                         (fun _ => NFloat PyFloat.nan) (init ages)))
    by (left; reflexivity).
  split; [exact H |].
  destruct (summary_statistics_no_nan plain_backend (fun _ => NFloat PyFloat.nan)
              (fun _ => NFloat PyFloat.nan) (init ages) _ _ H) as (cnt & fields & E & Hc & _).
  exists cnt, fields. split; [exact E | exact Hc].
Defined.

End SummaryStats.

(* ----------------------------------------------------------------- *)
(** ** PERCENTAGE over no rows *)
(* ----------------------------------------------------------------- *)

Module EmptyPercentage.
Import PyStr Regex Frame Indicators ProofDefs StrFacts FormulaFacts PercentFacts Scenarios.

(** X8. On a dataset left with no row after filtering, a formula
    [PERCENTAGE(c, v)] over a column of it (any blanks after the comma
    and around the value, the value bare or quoted) evaluates to [0.0]
    through the [else 0] branch, and [compute_indicator] reports a
    success with value [0.0] and [rows_processed] 0, not a division
    error; the service is unchanged. *)
Theorem percentage_on_empty_rows (B : backend) (self : service) (name fc : pyobj)
    (c ws q sp1 v sp2 : string) (d' : frame) col :
  las c <> [] -> forallb is_field_char (las c) = true ->
  forallb is_space (las ws) = true -> forallb is_space (las sp1) = true ->
  forallb is_space (las sp2) = true ->
  q = ""%string \/ q = "'"%string \/ q = String dquote "" -> value_ok (las v) = true ->
  apply_filters B (df self) fc = Ok d' -> nrows d' = 0%nat ->
  lookup_col (sol (strip (las c))) (cols d') = Some col ->
  _evaluate_formula B self ("PERCENTAGE(" ++ c ++ "," ++ ws ++ q ++ sp1 ++ v ++ sp2 ++ q ++ ")") d' =
    (Ok PyFloat.zero, (self, d')) /\
  compute_indicator B self name
    (OStr ("PERCENTAGE(" ++ c ++ "," ++ ws ++ q ++ sp1 ++ v ++ sp2 ++ q ++ ")")) fc =
    (Ok (ODict [("indicator_name", name);
                ("formula", OStr ("PERCENTAGE(" ++ c ++ "," ++ ws ++ q ++ sp1 ++ v ++ sp2 ++ q ++ ")"));
                ("filter_criteria", or_empty fc); ("value", OFloat PyFloat.zero);
                ("rows_processed", OInt 0); ("total_rows", total_rows self);
                ("status", OStr "success")]), self).
Proof.
  intros Hcne Hc Hw H1 H2 Hq Hv Hf Hn Hl.
  assert (He : _evaluate_formula B self ("PERCENTAGE(" ++ c ++ "," ++ ws ++ q ++ sp1 ++ v ++ sp2 ++ q ++ ")") d' =
               (Ok PyFloat.zero, (self, d'))).
  { unfold _evaluate_formula.
    rewrite substitute_percentage by assumption. rewrite Hl.
    unfold percentage. rewrite Hn. reflexivity. }
  split; [exact He |].
  unfold compute_indicator. rewrite Hf. rewrite He. cbn. rewrite Hn. reflexivity.
Qed.

Lemma percentage_on_empty_rows_witness :
  apply_filters plain_backend (df (init courses)) (ODict [("Course Name", OStr "Art")]) =
    Ok (mk_frame [("Course Name", ObjCol [])] 0) /\
  compute_indicator plain_backend (init courses) (OStr "share")
    (OStr "PERCENTAGE(Course Name,  ' Computer Science ')") (ODict [("Course Name", OStr "Art")]) =
    (Ok (ODict [("indicator_name", OStr "share");
                ("formula", OStr "PERCENTAGE(Course Name,  ' Computer Science ')");
                ("filter_criteria", ODict [("Course Name", OStr "Art")]);
                ("value", OFloat PyFloat.zero);
                ("rows_processed", OInt 0); ("total_rows", OInt 4);
                ("status", OStr "success")]), init courses).
Proof.
  assert (Hf : apply_filters plain_backend (df (init courses)) (ODict [("Course Name", OStr "Art")]) =
               Ok (mk_frame [("Course Name", ObjCol [])] 0)) by (vm_compute; reflexivity).
  split; [exact Hf |].
  exact (proj2 (percentage_on_empty_rows plain_backend (init courses) (OStr "share")
                  (ODict [("Course Name", OStr "Art")]) "Course Name" "  " "'" " "
                  "Computer Science" " " _ (ObjCol [])
                  ltac:(discriminate) eq_refl eq_refl eq_refl eq_refl
                  ltac:(right; left; reflexivity) eq_refl Hf eq_refl eq_refl)).
Defined.

End EmptyPercentage.

(* ----------------------------------------------------------------- *)
(** ** Key order of the cached dimensions *)
(* ----------------------------------------------------------------- *)

Module SortFacts.
Import PyStr Fingerprint OrderFacts.

Section Items.
Context {A : Type}.

Definition klt (a b : string * A) : Prop := str_ltb (las (fst a)) (las (fst b)) = true.

Lemma insert_kv_perm (kv : string * A) l : Permutation (insert_kv kv l) (kv :: l).
Proof.
  induction l as [| y l IH]; simpl; [reflexivity |].
  destruct (str_ltb _ _); [reflexivity |].
  rewrite IH. apply perm_swap.
Qed.

Lemma insert_kv_sorted (kv : string * A) l :
  StronglySorted klt l -> ~ In (fst kv) (map fst l) -> StronglySorted klt (insert_kv kv l).
Proof.
  induction l as [| z l IH]; simpl; intros Hs Hn.
  - repeat constructor.
  - inversion Hs as [| ? ? Hs' Hall]; subst.
    destruct (str_ltb (las (fst kv)) (las (fst z))) eqn:E.
    + constructor; [exact Hs |]. constructor; [exact E |].
      eapply Forall_impl; [| exact Hall]. intros w Hw. eapply str_ltb_trans; eauto.
    + constructor; [apply IH; tauto |].
      apply Forall_forall. intros w Hw.
      apply (Permutation_in _ (insert_kv_perm kv l)) in Hw as [<- | Hw].
      * destruct (str_ltb_total (las (fst kv)) (las (fst z))) as [H | H]; [| congruence | exact H].
        intros Hq. apply Hn. left. symmetry. now apply las_inj.
      * rewrite Forall_forall in Hall. auto.
Qed.

Lemma sort_items_spec (l : list (string * A)) :
  NoDup (map fst l) -> Permutation (sort_items l) l /\ StronglySorted klt (sort_items l).
Proof.
  unfold sort_items. induction l as [| x m IH] using rev_ind; simpl; intros Hnd.
  - split; constructor.
  - rewrite fold_left_app. simpl. rewrite map_app in Hnd. simpl in Hnd.
    apply NoDup_remove in Hnd as [Hd Hn]. rewrite app_nil_r in Hd, Hn.
    destruct (IH Hd) as [Hp Hs]. split.
    + rewrite insert_kv_perm, Hp. apply Permutation_cons_append.
    + apply insert_kv_sorted; [exact Hs |]. intros Hin. apply Hn.
      apply in_map_iff in Hin as (y & Ey & Hy). apply in_map_iff. exists y.
      split; [exact Ey |]. apply (Permutation_in _ Hp Hy).
Qed.

Lemma klt_irrefl a : ~ klt a a.
Proof. unfold klt. now rewrite str_ltb_irrefl. Qed.

Lemma sorted_perm_unique (l m : list (string * A)) :
  StronglySorted klt l -> StronglySorted klt m -> Permutation l m -> l = m.
Proof.
  revert m. induction l as [| a l IH]; intros m Hl Hm Hp.
  - symmetry. now apply Permutation_nil.
  - destruct m as [| b m]; [apply Permutation_sym, Permutation_nil in Hp; discriminate |].
    inversion Hl as [| ? ? Hl' Hla]; inversion Hm as [| ? ? Hm' Hmb]; subst.
    assert (a = b) as <-.
    { destruct (Permutation_in a Hp (or_introl eq_refl)) as [-> | Ha]; [reflexivity |].
      assert (Hb : In b (a :: l)) by (apply (Permutation_in b (Permutation_sym Hp)); now left).
      destruct Hb as [-> | Hb]; [reflexivity |].
      rewrite Forall_forall in Hla, Hmb.
      exfalso. apply (klt_irrefl a). unfold klt in *. eapply str_ltb_trans; [apply Hla, Hb | apply Hmb, Ha]. }
    f_equal. apply IH; auto. eapply Permutation_cons_inv. exact Hp.
Qed.

End Items.

End SortFacts.

Module KeyOrder.
Import PyStr Fingerprint SortFacts.

Lemma dumps_items_perm (kvs kvs' : list (string * json)) :
  NoDup (map fst kvs) -> Permutation kvs kvs' ->
  sort_items (map (fun kv => (fst kv, json_dumps (snd kv))) kvs) =
  sort_items (map (fun kv => (fst kv, json_dumps (snd kv))) kvs').
Proof.
  intros Hnd Hp.
  set (f := fun kv : string * json => (fst kv, json_dumps (snd kv))).
  assert (Hk : forall l, map fst (map f l) = map fst l) by (intros l; rewrite map_map; reflexivity).
  assert (Hnd' : NoDup (map fst kvs')) by (eapply Permutation_NoDup; [apply Permutation_map; exact Hp | exact Hnd]).
  destruct (sort_items_spec (map f kvs)) as [P1 S1]; [now rewrite Hk |].
  destruct (sort_items_spec (map f kvs')) as [P2 S2]; [now rewrite Hk |].
  apply sorted_perm_unique; auto.
  rewrite P1, P2. now apply Permutation_map.
Qed.

Lemma dumps_dict (kvs : list (string * json)) :
  json_dumps (JDict kvs) =
  ("{" ++ join ", " (map (fun kv => json_str (fst kv) ++ ": " ++ snd kv)%string
                         (sort_items (map (fun kv => (fst kv, json_dumps (snd kv))) kvs)))
   ++ "}")%string.
Proof. reflexivity. Qed.

(** X9. [json.dumps(..., sort_keys=True)] does not depend on the order
    of a dict's entries: two dicts with distinct keys holding the same
    entries in another order are written alike, so a visualization whose
    [dimensions] dict is reordered keeps its cache key. *)
Theorem cache_key_ignores_key_order (md5_hexdigest : string -> string) (v : visualization)
    (kvs kvs' : list (string * json)) :
  NoDup (map fst kvs) -> Permutation kvs kvs' -> dimensions v = JDict kvs ->
  json_dumps (JDict kvs) = json_dumps (JDict kvs') /\
  _generate_cache_key md5_hexdigest v =
  _generate_cache_key md5_hexdigest
    (mk_viz (id v) (visualization_type v) (JDict kvs') (filters v) (layout v)
            (display_options v) (updated_at v)).
Proof.
  intros Hnd Hp Hd.
  assert (E : json_dumps (JDict kvs) = json_dumps (JDict kvs')).
  { rewrite !dumps_dict. now rewrite (dumps_items_perm kvs kvs' Hnd Hp). }
  split; [exact E |].
  unfold _generate_cache_key, key_data. cbn [dimensions id filters updated_at].
  rewrite Hd, (dumps_dict [_; _; _; _]), (dumps_dict [_; _; _; _]). cbn [map fst snd].
  rewrite E. reflexivity.
Qed.

Lemma cache_key_ignores_key_order_witness :
  _generate_cache_key (fun s => s) viz_a =
  _generate_cache_key (fun s => s)
    (mk_viz (id viz_a) (visualization_type viz_a)
            (JDict [("period", JDict [("type", JStr "relative"); ("value", JStr "LAST_12_MONTHS")]);
                    ("data", JList [JInt 1])])
            (filters viz_a) (layout viz_a) (display_options viz_a) (updated_at viz_a)).
Proof.
  refine (proj2 (cache_key_ignores_key_order (fun s => s) viz_a
                   [("data", JList [JInt 1]);
                    ("period", JDict [("type", JStr "relative"); ("value", JStr "LAST_12_MONTHS")])]
                   _ _ _ _)).
  - repeat constructor; simpl; intuition discriminate.
  - apply perm_swap.
  - reflexivity.
Defined.

End KeyOrder.

(* ----------------------------------------------------------------- *)
(** ** [json.dumps] with [sort_keys=True] is injective up to key order *)
(* ----------------------------------------------------------------- *)

Module JsonFacts.
Import PyStr Fingerprint ProofDefs StrFacts FormulaFacts OrderFacts SortFacts FingerprintFacts.

(** Induction on JSON values through the lists they hold. *)
Section JsonInd.
Variable P : json -> Prop.
Hypothesis HNull : P JNull.
Hypothesis HBool : forall b, P (JBool b).
Hypothesis HInt : forall z, P (JInt z).
Hypothesis HStr : forall s, P (JStr s).
Hypothesis HList : forall l, Forall P l -> P (JList l).
Hypothesis HDict : forall kvs, Forall (fun kv => P (snd kv)) kvs -> P (JDict kvs).

Fixpoint json_ind' (j : json) : P j :=
  match j with
  | JNull => HNull
  | JBool b => HBool b
  | JInt z => HInt z
  | JStr s => HStr s
  | JList l =>
      HList l ((fix go (l : list json) : Forall P l :=
                  match l with
                  | [] => Forall_nil _
                  | x :: r => Forall_cons x (json_ind' x) (go r)
                  end) l)
  | JDict kvs =>
      HDict kvs ((fix go (l : list (string * json)) : Forall (fun kv => P (snd kv)) l :=
                    match l with
                    | [] => Forall_nil _
                    | (k, v) :: r => Forall_cons (k, v) (json_ind' v) (go r)
                    end) kvs)
  end.
End JsonInd.

(** [sort_items] on any list: a permutation, ordered, the identity on
    an ordered list, and blind to the values. *)
Definition kle {A} (a b : string * A) : Prop := str_ltb (las (fst b)) (las (fst a)) = false.

Lemma insert_kv_kle {A} (x : string * A) l :
  StronglySorted kle l -> StronglySorted kle (insert_kv x l).
Proof.
  induction l as [| y l IH]; simpl; intros Hs.
  - repeat constructor.
  - inversion Hs as [| ? ? Hs' Hall]; subst.
    destruct (str_ltb (las (fst x)) (las (fst y))) eqn:E.
    + constructor; [exact Hs |]. constructor.
      * unfold kle. destruct (str_ltb (las (fst y)) (las (fst x))) eqn:E2; [| reflexivity].
        pose proof (str_ltb_trans _ _ _ E E2) as H. rewrite str_ltb_irrefl in H. discriminate.
      * eapply Forall_impl; [| exact Hall]. intros w Hw. unfold kle in *.
        destruct (str_ltb (las (fst w)) (las (fst x))) eqn:E3; [| reflexivity].
        rewrite (str_ltb_trans _ _ _ E3 E) in Hw. discriminate.
    + constructor; [apply IH, Hs' |].
      apply Forall_forall. intros w Hw.
      apply (Permutation_in _ (insert_kv_perm x l)) in Hw as [<- | Hw].
      * exact E.
      * rewrite Forall_forall in Hall. auto.
Qed.

Lemma sort_items_kle {A} (l : list (string * A)) : StronglySorted kle (sort_items l).
Proof.
  unfold sort_items.
  assert (G : forall acc, StronglySorted kle acc ->
             StronglySorted kle (fold_left (fun acc kv => insert_kv kv acc) l acc)).
  { induction l as [| x l IH]; simpl; intros acc H; [exact H |]. apply IH, insert_kv_kle, H. }
  apply G. constructor.
Qed.

Lemma sort_items_perm {A} (l : list (string * A)) : Permutation (sort_items l) l.
Proof.
  unfold sort_items.
  assert (G : forall acc, Permutation (fold_left (fun acc kv => insert_kv kv acc) l acc) (acc ++ l)).
  { induction l as [| x l IH]; intros acc; simpl.
    - now rewrite app_nil_r.
    - rewrite IH, insert_kv_perm. simpl. apply Permutation_middle. }
  exact (G []).
Qed.

Lemma insert_kv_last {A} (x : string * A) acc :
  Forall (fun y => kle y x) acc -> insert_kv x acc = acc ++ [x].
Proof.
  induction acc as [| y acc IH]; simpl; intros H; [reflexivity |].
  inversion H as [| ? ? Hy H']; subst. unfold kle in Hy. rewrite Hy. f_equal. apply IH, H'.
Qed.

Lemma sorted_app_forall {A} (R : A -> A -> Prop) a x b :
  StronglySorted R (a ++ x :: b) -> Forall (fun y => R y x) a.
Proof.
  induction a as [| y a IH]; simpl; intros H; [constructor |].
  inversion H as [| ? ? H1 H2]; subst. constructor.
  - rewrite Forall_forall in H2. apply H2. apply in_app_iff. right. left. reflexivity.
  - apply IH, H1.
Qed.

Lemma sort_items_sorted_id {A} (l : list (string * A)) :
  StronglySorted kle l -> sort_items l = l.
Proof.
  unfold sort_items. intros H.
  assert (G : forall m acc : list (string * A), StronglySorted kle (acc ++ m) ->
             fold_left (fun acc kv => insert_kv kv acc) m acc = acc ++ m).
  { induction m as [| x m IH]; intros acc Hs; simpl.
    - now rewrite app_nil_r.
    - rewrite insert_kv_last by exact (sorted_app_forall _ _ _ _ Hs).
      rewrite IH; rewrite <- app_assoc; reflexivity || exact Hs. }
  exact (G l [] H).
Qed.

Lemma sort_items_idem {A} (l : list (string * A)) : sort_items (sort_items l) = sort_items l.
Proof. apply sort_items_sorted_id, sort_items_kle. Qed.

Lemma insert_kv_map {A C} (f : A -> C) (x : string * A) acc :
  insert_kv (fst x, f (snd x)) (map (fun kv => (fst kv, f (snd kv))) acc) =
  map (fun kv => (fst kv, f (snd kv))) (insert_kv x acc).
Proof.
  induction acc as [| y acc IH]; simpl; [reflexivity |].
  destruct (str_ltb (las (fst x)) (las (fst y))); simpl; [reflexivity | now rewrite IH].
Qed.

Lemma sort_items_map {A C} (f : A -> C) (l : list (string * A)) :
  sort_items (map (fun kv => (fst kv, f (snd kv))) l) =
  map (fun kv => (fst kv, f (snd kv))) (sort_items l).
Proof.
  unfold sort_items.
  assert (G : forall acc,
    fold_left (fun acc kv => insert_kv kv acc) (map (fun kv => (fst kv, f (snd kv))) l)
              (map (fun kv => (fst kv, f (snd kv))) acc) =
    map (fun kv => (fst kv, f (snd kv))) (fold_left (fun acc kv => insert_kv kv acc) l acc)).
  { induction l as [| x l IH]; intros acc; simpl; [reflexivity |]. rewrite insert_kv_map. apply IH. }
  exact (G []).
Qed.

(** [json.dumps] writes a value and its [canon] alike. *)
Lemma dumps_canon j : json_dumps (canon j) = json_dumps j.
Proof.
  induction j as [| b | z | s | l IH | kvs IH] using json_ind'; try reflexivity.
  - cbn [canon json_dumps]. rewrite map_map.
    replace (map (fun x => json_dumps (canon x)) l) with (map json_dumps l); [reflexivity |].
    apply map_ext_in. intros x Hx. rewrite Forall_forall in IH. symmetry. auto.
  - cbn [canon json_dumps].
    assert (L : map (fun kv => (fst kv, json_dumps (snd kv)))
                  (sort_items (map (fun kv => (fst kv, canon (snd kv))) kvs)) =
                map (fun kv => (fst kv, json_dumps (snd kv))) (sort_items kvs)).
    { rewrite (sort_items_map canon kvs), map_map. apply map_ext_in.
      intros [k v] Hx. apply (Permutation_in _ (sort_items_perm kvs)) in Hx.
      rewrite Forall_forall in IH. simpl. f_equal. apply (IH (k, v) Hx). }
    rewrite (sort_items_map json_dumps (sort_items _)), sort_items_idem, L,
      (sort_items_map json_dumps kvs).
    reflexivity.
Qed.

(** The characters that can start a number, and the classes of the
    first character of each kind of value. *)
Definition is_numch (c : ascii) : bool :=
  ascii_eqb c "-" || ((48 <=? nat_of_ascii c) && (nat_of_ascii c <=? 57))%nat.

Definition ch_cls (c : ascii) : nat :=
  if ascii_eqb c "n" then 1 else if ascii_eqb c "t" then 2 else if ascii_eqb c "f" then 3
  else if ascii_eqb c dquote then 4 else if ascii_eqb c "[" then 5
  else if ascii_eqb c "{" then 6 else if is_numch c then 7 else 0.

Definition json_cls (j : json) : nat :=
  match j with
  | JNull => 1 | JBool true => 2 | JBool false => 3 | JStr _ => 4
  | JList _ => 5 | JDict _ => 6 | JInt _ => 7
  end.

(** What may follow a value inside [json.dumps]: nothing, a comma or a
    closing bracket. *)
Definition stopb (r : list ascii) : bool :=
  match r with
  | [] => true
  | c :: _ => ascii_eqb c "," || ascii_eqb c "]" || ascii_eqb c "}"
  end.

(** [json.dumps] of a value is read back, up to the order of dict
    entries, from any text that starts with it and goes on with what
    may follow a value. *)
Definition parses (j1 : json) : Prop :=
  forall j2 r1 r2, las (json_dumps j1) ++ r1 = las (json_dumps j2) ++ r2 ->
    stopb r1 = true -> stopb r2 = true -> canon j1 = canon j2 /\ r1 = r2.

Definition entry (kv : string * string) : string := (json_str (fst kv) ++ ": " ++ snd kv)%string.

Lemma uint_numch d :
  forallb is_numch (las (NilEmpty.string_of_uint d)) = true.
Proof. induction d; simpl; try exact IHd; reflexivity. Qed.

Lemma Z_str_numch z : forallb is_numch (las (Z_str z)) = true /\ las (Z_str z) <> [].
Proof.
  unfold Z_str. destruct (Z.to_int z) as [d | d] eqn:E; cbn [NilEmpty.string_of_int].
  - split; [apply uint_numch |].
    destruct d; try discriminate.
    pose proof (DecimalZ.of_to z) as H. rewrite E in H. cbn in H. subst z. cbv in E. discriminate E.
  - split; [| discriminate]. exact (uint_numch d).
Qed.

Lemma Z_str_inj z1 z2 : Z_str z1 = Z_str z2 -> z1 = z2.
Proof.
  unfold Z_str. intros E. apply (f_equal NilEmpty.int_of_string) in E.
  rewrite !NilEmpty.isi in E. injection E as E.
  rewrite <- (DecimalZ.of_to z1), <- (DecimalZ.of_to z2), E. reflexivity.
Qed.

Lemma stop_numch y t : stopb (y :: t) = true -> is_numch y = false.
Proof.
  intros H. change (stopb [y] = true) in H.
  generalize (all_ascii_spec (fun y => negb (stopb [y]) || negb (is_numch y))
                ltac:(vm_compute; reflexivity) y).
  rewrite H. simpl. destruct (is_numch y); auto.
Qed.

Lemma split_stop a b r1 r2 :
  forallb is_numch a = true -> forallb is_numch b = true -> stopb r1 = true -> stopb r2 = true ->
  a ++ r1 = b ++ r2 -> a = b /\ r1 = r2.
Proof.
  revert b. induction a as [| x a IH]; intros [| y b] Ha Hb H1 H2 E; simpl in *.
  - auto.
  - exfalso. subst r1. apply stop_numch in H1. apply andb_true_iff in Hb as [Hy _]. congruence.
  - exfalso. subst r2. apply stop_numch in H2. apply andb_true_iff in Ha as [Hx _]. congruence.
  - injection E as -> E. apply andb_true_iff in Ha as [_ Ha]. apply andb_true_iff in Hb as [_ Hb].
    destruct (IH b Ha Hb H1 H2 E) as [-> ->]. auto.
Qed.

Lemma numch_cls c : is_numch c = true -> ch_cls c = 7.
Proof.
  generalize (all_ascii_spec (fun c => negb (is_numch c) || Nat.eqb (ch_cls c) 7)
                ltac:(vm_compute; reflexivity) c).
  intros H Hc. rewrite Hc in H. simpl in H. now apply Nat.eqb_eq.
Qed.

Lemma json_cls_pos j : json_cls j <> 0.
Proof. destruct j as [| [|] | | | |]; discriminate. Qed.

Lemma esc_head c : exists x t, json_escape_char c = x :: t /\ x <> dquote.
Proof.
  generalize (all_ascii_spec (fun c => match json_escape_char c with
                                       | x :: _ => negb (ascii_eqb x dquote)
                                       | [] => false
                                       end) ltac:(vm_compute; reflexivity) c).
  destruct (json_escape_char c) as [| x t]; [discriminate |].
  intros H. exists x, t. split; [reflexivity |]. intros ->.
  unfold ascii_eqb in H. rewrite Ascii.eqb_refl in H. discriminate.
Qed.

Lemma str_body_parse s1 s2 r1 r2 :
  flat_map json_escape_char s1 ++ dquote :: r1 = flat_map json_escape_char s2 ++ dquote :: r2 ->
  s1 = s2 /\ r1 = r2.
Proof.
  revert s2. induction s1 as [| c1 s1 IH]; intros [| c2 s2] E; simpl in E.
  - injection E as E. auto.
  - exfalso. destruct (esc_head c2) as (x & t & Ex & Hx). rewrite Ex in E.
    simpl in E. injection E as E1 _. congruence.
  - exfalso. destruct (esc_head c1) as (x & t & Ex & Hx). rewrite Ex in E.
    simpl in E. injection E as E1 _. congruence.
  - rewrite <- !app_assoc in E. apply escape_app in E as [-> E].
    apply IH in E as [-> ->]. auto.
Qed.

Lemma las_json_str s : las (json_str s) = dquote :: flat_map json_escape_char (las s) ++ [dquote].
Proof. unfold json_str, sol, las. now rewrite list_ascii_of_string_of_list_ascii. Qed.

Lemma json_str_parse k1 k2 r1 r2 :
  las (json_str k1) ++ r1 = las (json_str k2) ++ r2 -> k1 = k2 /\ r1 = r2.
Proof.
  rewrite !las_json_str. simpl. intros E. injection E as E. rewrite <- !app_assoc in E.
  simpl in E. apply str_body_parse in E as [E ->]. split; [now apply las_inj | reflexivity].
Qed.

Lemma las_join_cons sep x l :
  las (join sep (x :: l)) =
  las x ++ match l with [] => [] | _ :: _ => las sep ++ las (join sep l) end.
Proof.
  destruct l as [| y l].
  - cbn [join]. now rewrite app_nil_r.
  - change (join sep (x :: y :: l)) with (x ++ (sep ++ join sep (y :: l)))%string.
    now rewrite !las_append.
Qed.

Lemma D_list l :
  las (json_dumps (JList l)) = "["%char :: las (join ", " (map json_dumps l)) ++ ["]"%char].
Proof. cbn [json_dumps]. rewrite !las_append. reflexivity. Qed.

Lemma D_dict kvs :
  las (json_dumps (JDict kvs)) =
  "{"%char :: las (join ", " (map entry (map (fun kv => (fst kv, json_dumps (snd kv))) (sort_items kvs))))
    ++ ["}"%char].
Proof. cbn [json_dumps]. rewrite (sort_items_map json_dumps kvs). rewrite !las_append. reflexivity. Qed.

Lemma dumps_cls j : exists c t, las (json_dumps j) = c :: t /\ ch_cls c = json_cls j.
Proof.
  destruct j as [| [|] | z | s | l | kvs].
  - eexists _, _. split; reflexivity.
  - eexists _, _. split; reflexivity.
  - eexists _, _. split; reflexivity.
  - destruct (Z_str_numch z) as [Hn Hne]. cbn [json_dumps].
    destruct (las (Z_str z)) as [| c t]; [congruence |].
    exists c, t. split; [reflexivity |]. simpl in Hn. apply andb_true_iff in Hn as [Hc _].
    now apply numch_cls.
  - eexists _, _. split; [cbn [json_dumps]; apply las_json_str | reflexivity].
  - eexists _, _. split; [apply D_list | reflexivity].
  - eexists _, _. split; [apply D_dict | reflexivity].
Qed.

Lemma same_cls j1 j2 r1 r2 :
  las (json_dumps j1) ++ r1 = las (json_dumps j2) ++ r2 -> json_cls j1 = json_cls j2.
Proof.
  destruct (dumps_cls j1) as (c1 & t1 & E1 & C1), (dumps_cls j2) as (c2 & t2 & E2 & C2).
  rewrite E1, E2. simpl. intros E. injection E as -> _. congruence.
Qed.

Lemma not_first j c t r : las (json_dumps j) ++ r = c :: t -> ch_cls c = 0 -> False.
Proof.
  destruct (dumps_cls j) as (c1 & t1 & E1 & C1). rewrite E1. simpl. intros E Hc.
  injection E as -> _. apply (json_cls_pos j). congruence.
Qed.

Lemma items_tail (xs : list json) r :
  match map json_dumps xs with [] => [] | _ :: _ => las ", " ++ las (join ", " (map json_dumps xs)) end
    ++ "]"%char :: r =
  match xs with
  | [] => "]"%char :: r
  | _ :: _ => ","%char :: " "%char :: las (join ", " (map json_dumps xs)) ++ "]"%char :: r
  end.
Proof. destruct xs; reflexivity. Qed.

Lemma items_parse l1 :
  Forall parses l1 -> forall l2 r1 r2,
  las (join ", " (map json_dumps l1)) ++ "]"%char :: r1 =
  las (join ", " (map json_dumps l2)) ++ "]"%char :: r2 ->
  map canon l1 = map canon l2 /\ r1 = r2.
Proof.
  induction 1 as [| x xs Hx Hxs IH]; intros [| y ys] r1 r2 E.
  - cbn in E. injection E as ->. auto.
  - exfalso. cbn [map] in E. rewrite las_join_cons, <- app_assoc in E. symmetry in E.
    apply (not_first y _ _ _ E). reflexivity.
  - exfalso. cbn [map] in E. rewrite las_join_cons, <- app_assoc in E.
    apply (not_first x _ _ _ E). reflexivity.
  - cbn [map] in E. rewrite !las_join_cons, <- !app_assoc, !items_tail in E.
    destruct (Hx _ _ _ E) as [Hc Er]; [destruct xs; reflexivity | destruct ys; reflexivity |].
    destruct xs as [| x' xs'], ys as [| y' ys']; cbv beta match in Er.
    + injection Er as ->. cbn [map]. split; [congruence | reflexivity].
    + discriminate Er.
    + discriminate Er.
    + apply (f_equal (@tl ascii)), (f_equal (@tl ascii)) in Er. cbn [tl] in Er.
      apply IH in Er as [Hm ->].
      split; [| reflexivity]. cbn [map] in *. congruence.
Qed.

Lemma entry_las k s : las (entry (k, s)) = las (json_str k) ++ ":"%char :: " "%char :: las s.
Proof. unfold entry. cbn [fst snd]. rewrite !las_append. reflexivity. Qed.

Lemma entries_tail (xs : list (string * json)) r :
  match map entry (map (fun kv => (fst kv, json_dumps (snd kv))) xs) with
  | [] => []
  | _ :: _ => las ", " ++ las (join ", " (map entry (map (fun kv => (fst kv, json_dumps (snd kv))) xs)))
  end ++ "}"%char :: r =
  match xs with
  | [] => "}"%char :: r
  | _ :: _ => ","%char :: " "%char ::
              las (join ", " (map entry (map (fun kv => (fst kv, json_dumps (snd kv))) xs))) ++ "}"%char :: r
  end.
Proof. destruct xs; reflexivity. Qed.

Lemma entry_first k s t r : las (entry (k, s)) ++ r = "}"%char :: t -> False.
Proof. rewrite entry_las, las_json_str. simpl. intros E. injection E as E _. discriminate E. Qed.

Lemma entries_parse (S1 : list (string * json)) :
  Forall (fun kv => parses (snd kv)) S1 -> forall S2 r1 r2,
  las (join ", " (map entry (map (fun kv => (fst kv, json_dumps (snd kv))) S1))) ++ "}"%char :: r1 =
  las (join ", " (map entry (map (fun kv => (fst kv, json_dumps (snd kv))) S2))) ++ "}"%char :: r2 ->
  map (fun kv => (fst kv, canon (snd kv))) S1 = map (fun kv => (fst kv, canon (snd kv))) S2 /\ r1 = r2.
Proof.
  induction 1 as [| [k1 v1] xs Hx Hxs IH]; intros [| [k2 v2] ys] r1 r2 E.
  - cbn in E. injection E as ->. auto.
  - exfalso. cbn [map fst snd] in E. rewrite las_join_cons, <- app_assoc in E. symmetry in E.
    exact (entry_first _ _ _ _ E).
  - exfalso. cbn [map fst snd] in E. rewrite las_join_cons, <- app_assoc in E.
    exact (entry_first _ _ _ _ E).
  - cbn [map fst snd] in E. rewrite !las_join_cons, <- !app_assoc, !entries_tail in E.
    rewrite !entry_las, <- !app_assoc in E. apply json_str_parse in E as [<- E].
    injection E as E. cbn [snd] in Hx.
    destruct (Hx _ _ _ E) as [Hc Er]; [destruct xs; reflexivity | destruct ys; reflexivity |].
    destruct xs as [| x' xs'], ys as [| y' ys']; cbv beta match in Er.
    + injection Er as ->. cbn [map fst snd]. split; [congruence | reflexivity].
    + discriminate Er.
    + discriminate Er.
    + apply (f_equal (@tl ascii)), (f_equal (@tl ascii)) in Er. cbn [tl] in Er.
      apply IH in Er as [Hm ->].
      split; [| reflexivity]. cbn [map fst snd] in *. congruence.
Qed.

Lemma dumps_parses j : parses j.
Proof.
  induction j as [| b | z | s | l IH | kvs IH] using json_ind';
    intros j2 r1 r2 E H1 H2; pose proof (same_cls _ _ _ _ E) as Hc.
  - destruct j2 as [| [|] | | | |]; try discriminate Hc.
    apply app_inv_head in E. auto.
  - destruct j2 as [| [|] | | | |], b; try discriminate Hc;
      apply app_inv_head in E; auto.
  - destruct j2 as [| [|] | z2 | | |]; try discriminate Hc.
    cbn [json_dumps] in E.
    destruct (split_stop _ _ _ _ (proj1 (Z_str_numch z)) (proj1 (Z_str_numch z2)) H1 H2 E)
      as [Ez ->].
    apply las_inj, Z_str_inj in Ez. subst. auto.
  - destruct j2 as [| [|] | | s2 | |]; try discriminate Hc.
    cbn [json_dumps] in E. apply json_str_parse in E as [-> ->]. auto.
  - destruct j2 as [| [|] | | | l2 |]; try discriminate Hc.
    rewrite !D_list in E. cbn [app] in E. injection E as E. rewrite <- !app_assoc in E.
    cbn [app] in E. apply (items_parse l IH) in E as [Hm ->].
    cbn [canon]. rewrite Hm. auto.
  - destruct j2 as [| [|] | | | | kvs2]; try discriminate Hc.
    rewrite !D_dict in E. cbn [app] in E. injection E as E. rewrite <- !app_assoc in E.
    cbn [app] in E.
    assert (HS : Forall (fun kv => parses (snd kv)) (sort_items kvs)).
    { apply Forall_forall. intros x Hx. apply (Permutation_in _ (sort_items_perm kvs)) in Hx.
      rewrite Forall_forall in IH. exact (IH x Hx). }
    apply (entries_parse _ HS) in E as [Hm ->].
    cbn [canon]. rewrite !sort_items_map, Hm. auto.
Qed.

Lemma dumps_eq_canon j1 j2 : json_dumps j1 = json_dumps j2 <-> canon j1 = canon j2.
Proof.
  split.
  - intros E. apply (f_equal las) in E.
    assert (E' : las (json_dumps j1) ++ [] = las (json_dumps j2) ++ []) by now rewrite !app_nil_r.
    exact (proj1 (dumps_parses j1 j2 [] [] E' eq_refl eq_refl)).
  - intros E. now rewrite <- dumps_canon, E, dumps_canon.
Qed.

(** The text hashed for the cache key, cut at its four values. *)
Lemma key_string_parts v :
  las (json_dumps (key_data v)) =
  las ("{" ++ json_str "dimensions" ++ ": ")%string ++ las (json_dumps (dimensions v)) ++
  las (", " ++ json_str "filters" ++ ": ")%string ++ las (json_dumps (filters v)) ++
  las (", " ++ json_str "updated_at" ++ ": ")%string ++ las (json_dumps (updated_json v)) ++
  las (", " ++ json_str "viz_id" ++ ": ")%string ++ las (json_dumps (viz_id_json v)) ++ ["}"%char].
Proof.
  assert (E : json_dumps (key_data v) =
    ("{" ++ (((json_str "dimensions" ++ (": " ++ json_dumps (dimensions v))) ++
      (", " ++ ((json_str "filters" ++ (": " ++ json_dumps (filters v))) ++
      (", " ++ ((json_str "updated_at" ++ (": " ++ json_dumps (updated_json v))) ++
      (", " ++ (json_str "viz_id" ++ (": " ++ json_dumps (viz_id_json v))))))))) ++ "}"))%string)
    by reflexivity.
  rewrite E, !las_append, <- !app_assoc. reflexivity.
Qed.

End JsonFacts.

(* ----------------------------------------------------------------- *)
(** ** What the cache key depends on *)
(* ----------------------------------------------------------------- *)

Module CacheKeys.
Import PyStr Fingerprint ProofDefs StrFacts FormulaFacts OrderFacts FingerprintFacts JsonFacts.

Lemma canon_scalar_updated v : canon (updated_json v) = updated_json v.
Proof. unfold updated_json. destruct (updated_at v); reflexivity. Qed.

Lemma canon_scalar_viz_id v : canon (viz_id_json v) = viz_id_json v.
Proof. unfold viz_id_json. destruct (id v) as [z |]; [destruct (z =? 0)%Z |]; reflexivity. Qed.

(** C1 (amended). The string hashed for the cache key is
    [json.dumps(key_data, sort_keys=True)]; two visualizations get the
    same string exactly when they agree on the [viz_id] value (the id,
    or [preview]), on their dimensions and on their filters up to the
    order of dict entries, and on the [updated_at] value (its
    [isoformat()], or [preview]). Equal strings give equal keys for any
    hash; layout, type and display options do not enter the string. In
    particular two different [updated_at] values (neither the text
    [preview]) give different strings. *)
Theorem cache_key_components (md5_hexdigest : string -> string) (v1 v2 : visualization) :
  (json_dumps (key_data v1) = json_dumps (key_data v2) <->
     viz_id_json v1 = viz_id_json v2 /\
     canon (dimensions v1) = canon (dimensions v2) /\
     canon (filters v1) = canon (filters v2) /\
     updated_json v1 = updated_json v2) /\
  (json_dumps (key_data v1) = json_dumps (key_data v2) ->
     _generate_cache_key md5_hexdigest v1 = _generate_cache_key md5_hexdigest v2) /\
  (updated_at v1 <> updated_at v2 ->
     updated_at v1 <> Some "preview" -> updated_at v2 <> Some "preview" ->
     json_dumps (key_data v1) <> json_dumps (key_data v2)).
Proof.
  assert (Hiff : json_dumps (key_data v1) = json_dumps (key_data v2) <->
     viz_id_json v1 = viz_id_json v2 /\
     canon (dimensions v1) = canon (dimensions v2) /\
     canon (filters v1) = canon (filters v2) /\
     updated_json v1 = updated_json v2).
  { split.
    - intros E. apply (f_equal las) in E. rewrite !key_string_parts in E.
      apply app_inv_head in E.
      destruct (dumps_parses (dimensions v1) (dimensions v2) _ _ E eq_refl eq_refl) as [Hd E1].
      apply app_inv_head in E1.
      destruct (dumps_parses (filters v1) (filters v2) _ _ E1 eq_refl eq_refl) as [Hf E2].
      apply app_inv_head in E2.
      destruct (dumps_parses (updated_json v1) (updated_json v2) _ _ E2 eq_refl eq_refl) as [Hu E3].
      apply app_inv_head in E3.
      destruct (dumps_parses (viz_id_json v1) (viz_id_json v2) _ _ E3 eq_refl eq_refl) as [Hv _].
      rewrite !canon_scalar_updated in Hu. rewrite !canon_scalar_viz_id in Hv. auto.
    - intros (Hv & Hd & Hf & Hu). apply las_inj. rewrite !key_string_parts.
      apply dumps_eq_canon in Hd, Hf. now rewrite Hv, Hd, Hf, Hu. }
  split; [exact Hiff | split].
  - intros E. unfold _generate_cache_key. now rewrite E.
  - intros Hu H1 H2 E. apply Hiff in E as (_ & _ & _ & E). unfold updated_json in E.
    destruct (updated_at v1) as [a |], (updated_at v2) as [b |]; try congruence;
      injection E as E; congruence.
Qed.

(** [viz_a] with the entries of its [dimensions] dict in another order. *)
Definition viz_a_reordered : visualization :=
  mk_viz (id viz_a) (visualization_type viz_a)
         (JDict [("period", JDict [("value", JStr "LAST_12_MONTHS"); ("type", JStr "relative")]);
                 ("data", JList [JInt 1])])
         (filters viz_a) (layout viz_a) (display_options viz_a) (updated_at viz_a).

(** [viz_a] filtered on a district. *)
Definition viz_a_filtered : visualization :=
  mk_viz (id viz_a) (visualization_type viz_a) (dimensions viz_a)
         (JDict [("district", JStr "North")]) (layout viz_a) (display_options viz_a) (updated_at viz_a).

Lemma cache_key_components_witness :
  _generate_cache_key (fun s => s) viz_a = _generate_cache_key (fun s => s) viz_a_reordered /\
  json_dumps (key_data viz_a) <> json_dumps (key_data viz_a_filtered) /\
  json_dumps (key_data viz_a) <> json_dumps (key_data viz_c).
Proof.
  destruct (cache_key_components (fun s => s) viz_a viz_a_reordered) as [[_ R1] [R2 _]].
  destruct (cache_key_components (fun s => s) viz_a viz_a_filtered) as [[F1 _] _].
  destruct (cache_key_components (fun s => s) viz_a viz_c) as [_ [_ U]].
  split; [| split].
  - apply R2, R1. repeat split; reflexivity.
  - intros E. apply F1 in E as (_ & _ & Hf & _). vm_compute in Hf. discriminate Hf.
  - apply U; discriminate.
Defined.

(** C1: two visualizations that differ only in their layout get the same
    cache key, for any hash function. *)
Lemma layout_change_keeps_cache_key :
  (fun h => _generate_cache_key h viz_a) = (fun h => _generate_cache_key h viz_b) /\
  layout viz_a <> layout viz_b /\
  id viz_a = id viz_b /\ dimensions viz_a = dimensions viz_b /\
  filters viz_a = filters viz_b /\ updated_at viz_a = updated_at viz_b.
Proof. repeat split; try reflexivity. discriminate. Qed.

End CacheKeys.

(* ----------------------------------------------------------------- *)
(** ** Batches of indicators and formula edge cases *)
(* ----------------------------------------------------------------- *)

Module Batches.
Import PyStr Regex Frame Arith Indicators ProofDefs StrFacts FormulaFacts CountFacts Scenarios.

Lemma no_letter_ascii s : no_letter s -> existsb is_ascii_letter s = false.
Proof.
  intros H. apply not_true_iff_false. intros Hx. apply existsb_exists in Hx as (z & Hz & Hl).
  pose proof (H z Hz) as Hu.
  generalize (all_ascii_spec (fun a => is_upper_letter (upper a) || negb (is_ascii_letter a))
                ltac:(vm_compute; reflexivity) z).
  rewrite Hu, Hl. discriminate.
Qed.

(** X10. In [compute_multiple_indicators], an entry that is not a dict,
    after dict entries, makes the whole call raise: the [AttributeError]
    ['<type>' object has no attribute 'get'] of its [.get] (outside the
    [try]), unless an entry before it has already raised past
    [compute_indicator] (an exception that is not an [Exception]). The
    results of the entries before it are lost either way. *)
Theorem batch_non_dict_aborts (B : backend) (self : service) (pre post : list pyobj) (o : pyobj) :
  Forall (fun o => exists kvs, o = ODict kvs) pre ->
  (forall kvs, o <> ODict kvs) ->
  fst (compute_multiple_indicators B self (pre ++ o :: post)) =
    Raise (AttributeError ("'" ++ type_name o ++ "' object has no attribute 'get'")) \/
  exists e, fst (compute_multiple_indicators B self (pre ++ o :: post)) = Raise e /\
            is_exception e = false.
Proof.
  intros Hpre Ho. revert self. induction Hpre as [| x pre (kvs & ->) _ IH]; intros self.
  - cbn [app compute_multiple_indicators].
    destruct o; try (left; reflexivity). exfalso. eapply Ho. reflexivity.
  - cbn [app compute_multiple_indicators].
    destruct (compute_indicator B self (dict_get kvs "name") (dict_get kvs "formula")
                (dict_get kvs "filter_criteria")) as [[res | e] s1] eqn:Ec.
    + specialize (IH s1).
      destruct (compute_multiple_indicators B s1 (pre ++ o :: post)) as [rr s2].
      cbn [fst] in IH |- *.
      destruct IH as [-> | (e & -> & He)]; [left | right; exists e]; auto.
    + right. exists e. split; [reflexivity |].
      exact (proj1 (compute_indicator_raise B self _ _ _ e s1 Ec)).
Qed.

(** X13. A formula without letters (only numbers, operators, brackets
    and blanks) goes through every substitution pass unchanged, so its
    value does not depend on the dataset; [_evaluate_formula] leaves
    the service and the frame as they were. *)
Theorem letterless_formula_data_independent (B : backend) (self : service) (f : string) (d d' : frame) :
  no_letter (las f) ->
  substitute B f d = Ok (las f) /\
  fst (_evaluate_formula B self f d) = fst (_evaluate_formula B self f d') /\
  snd (_evaluate_formula B self f d) = (self, d).
Proof.
  intros Hs.
  assert (E : forall d0, substitute B f d0 = Ok (las f)).
  { intros d0. unfold substitute.
    repeat (rewrite call_pass_no_letter by (reflexivity || exact Hs); cbn [bind]).
    now apply percentage_pass_no_letter. }
  assert (Ev : forall d0, eval_float B (las f) self d0 =
                 (match arith_eval (las f) with Some r => r | None => eval_literal B (las f) end,
                  (self, d0))).
  { intros d0. unfold eval_float. destruct (arith_eval (las f)); [reflexivity |].
    rewrite no_letter_ascii by exact Hs. reflexivity. }
  split; [apply E |]. unfold _evaluate_formula. rewrite !E, !Ev.
  destruct (match arith_eval (las f) with Some r => r | None => eval_literal B (las f) end)
    as [x | e]; [| destruct (is_exception e)]; split; reflexivity.
Qed.

Lemma batch_non_dict_aborts_witness :
  fst (compute_multiple_indicators plain_backend (init survey)
         [ODict [("name", OStr "students"); ("formula", OStr "COUNT(Student ID)")]; OStr "courses"]) =
    Raise (AttributeError "'str' object has no attribute 'get'") /\
  (fst (compute_multiple_indicators plain_backend (init survey)
          ([ODict [("name", OStr "students"); ("formula", OStr "COUNT(Student ID)")]] ++ OStr "courses" :: [])) =
     Raise (AttributeError ("'" ++ type_name (OStr "courses") ++ "' object has no attribute 'get'")) \/
   exists e, fst (compute_multiple_indicators plain_backend (init survey)
          ([ODict [("name", OStr "students"); ("formula", OStr "COUNT(Student ID)")]] ++ OStr "courses" :: [])) =
     Raise e /\ is_exception e = false).
Proof.
  split; [vm_compute; reflexivity |].
  exact (batch_non_dict_aborts plain_backend (init survey)
           [ODict [("name", OStr "students"); ("formula", OStr "COUNT(Student ID)")]] []
           (OStr "courses")
           (Forall_cons _ (ex_intro _ _ eq_refl) (Forall_nil _))
           (fun kvs E => ltac:(discriminate E))).
Defined.

Lemma letterless_formula_data_independent_witness :
  substitute plain_backend "2 * (3 + 4)" survey = Ok (las "2 * (3 + 4)") /\
  fst (_evaluate_formula plain_backend (init survey) "2 * (3 + 4)" survey) =
  fst (_evaluate_formula plain_backend (init survey) "2 * (3 + 4)" ages) /\
  snd (_evaluate_formula plain_backend (init survey) "2 * (3 + 4)" survey) = (init survey, survey).
Proof.
  apply letterless_formula_data_independent.
  intros z Hz. simpl in Hz. intuition (subst; reflexivity).
Defined.

End Batches.

(* ----------------------------------------------------------------- *)
(** ** Cache round trip *)
(* ----------------------------------------------------------------- *)

Module CacheRoundTrip.
Import Cache CacheProofs.
Local Open Scope Z_scope.

Lemma save_to_cache_row (t : cache_table) now pid k data v :
  wf_table t -> data <> JNull ->
  exists t', _save_to_cache now pid k data (Some v) t = Ok t' /\ wf_table t' /\
    exists r, filter (fun x => String.eqb (cache_key x) k) (rows t') = [r] /\
              row_data r = data /\ row_expires_at r = now + ttl.
Proof.
  intros Hwf Hnn. pose proof Hwf as (Hid & Hkey & Hlt).
  destruct (save_to_cache_cases now pid k data (Some v) t Hwf) as [(t' & E & Ht') | (_ & Hd & _)];
    [| contradiction].
  exists t'; split; [exact E | split; [exact Ht' |]].
  simpl in E.
  rewrite (update_or_create_nonnull now k (mk_defaults pid (Some v) data (now + ttl)) t Hnn) in E.
  destruct (filter_key_unique (rows t) k Hkey) as [F | (r & Hin & Hk & F)];
    rewrite F in E; injection E as <-; cbn [rows].
  - exists (mk_row (next_id t) k pid (Some v) data (JDict []) now (now + ttl) 0).
    rewrite filter_app, F; simpl; rewrite String.eqb_refl; auto.
  - unfold save; cbn [rows row_id].
    set (r' := mk_row (row_id r) (cache_key r) pid (Some v) data (row_metadata r)
                      (row_created_at r) (now + ttl) (row_hit_count r)).
    assert (Hmap : forall x, In x (rows t) ->
              (if Nat.eqb (row_id x) (row_id r) then r' else x) =
              (if String.eqb (cache_key x) k then r' else x)).
    { intros x Hx.
      destruct (Nat.eqb_spec (row_id x) (row_id r)) as [E1 | E1];
      destruct (String.eqb_spec (cache_key x) k) as [E2 | E2]; auto.
      - exfalso; apply E2; rewrite (NoDup_map_inj row_id _ x r Hid Hx Hin E1); exact Hk.
      - exfalso; apply E1; rewrite <- Hk in E2;
          rewrite (NoDup_map_inj cache_key _ x r Hkey Hx Hin E2); reflexivity. }
    rewrite (map_ext_in _ _ _ Hmap).
    assert (Hr'k : String.eqb (cache_key r') k = true)
      by (simpl; rewrite Hk; apply String.eqb_refl).
    exists r'. split; [| split; reflexivity].
    assert (G : forall l, filter (fun x => String.eqb (cache_key x) k)
                             (map (fun x => if String.eqb (cache_key x) k then r' else x) l) =
                           map (fun _ => r') (filter (fun x => String.eqb (cache_key x) k) l)).
    { induction l as [| x l IH]; cbn [filter map]; [reflexivity |].
      destruct (String.eqb (cache_key x) k) eqn:Ex; cbn [filter map].
      - rewrite Hr'k, IH. reflexivity.
      - rewrite Ex. exact IH. }

    rewrite G, F. reflexivity.
Qed.

Lemma filter_and_single (l : list cache_row) k (P : cache_row -> bool) r :
  filter (fun x => String.eqb (cache_key x) k) l = [r] ->
  filter (fun x => String.eqb (cache_key x) k && P x) l = if P r then [r] else [].
Proof.
  induction l as [| x l IH]; simpl; [discriminate |].
  destruct (String.eqb (cache_key x) k) eqn:Ex; simpl.
  - intros E. injection E as <- E.
    rewrite (filter_none (fun y => String.eqb (cache_key y) k && P y));
      [destruct (P x); reflexivity |].
    intros y Hy. destruct (String.eqb (cache_key y) k) eqn:Ey; [| reflexivity].
    assert (Hin : In y (filter (fun x => String.eqb (cache_key x) k) l))
      by (apply filter_In; auto).
    rewrite E in Hin. destruct Hin.
  - exact IH.
Qed.

(** X14. A payload saved by [_save_to_cache] for a saved visualization
    at time [now] is returned by [_get_from_cache] under the same key at
    any time before [now + 24h], and is no longer returned from
    [now + 24h] on (the row stays in the table). The payload is not
    [None]: [data] is a [NOT NULL] column. *)
Theorem cache_save_then_get (t : cache_table) (now pid : Z) (k : string) (data : json)
    (vid : Z) (now' : Z) :
  wf_table t -> data <> JNull ->
  exists t', _save_to_cache now pid k data (Some vid) t = Ok t' /\
    (now' < now + ttl -> exists t'', _get_from_cache now' k t' = Ok (Some data, t'')) /\
    (now + ttl <= now' -> _get_from_cache now' k t' = Ok (None, t')).
Proof.
  intros Hwf Hnn.
  destruct (save_to_cache_row t now pid k data vid Hwf Hnn) as (t' & E & _ & r & F & Hd & He).
  exists t'. split; [exact E | split].
  - intros Hlt. unfold _get_from_cache, objects_get_live.
    rewrite (filter_and_single _ k (fun x => now' <? row_expires_at x) r F).
    rewrite He. replace (now' <? now + ttl) with true by (symmetry; apply Z.ltb_lt; exact Hlt).
    eexists. simpl. rewrite Hd. reflexivity.
  - intros Hge. unfold _get_from_cache, objects_get_live.
    rewrite (filter_and_single _ k (fun x => now' <? row_expires_at x) r F).
    rewrite He. replace (now' <? now + ttl) with false by (symmetry; apply Z.ltb_ge; exact Hge).
    reflexivity.
Qed.

Lemma cache_save_then_get_witness :
  exists t', _save_to_cache 0 7 "k1" (JDict []) (Some 3%Z) empty_table = Ok t' /\
    exists t'', _get_from_cache 10 "k1" t' = Ok (Some (JDict []), t'').
Proof.
  assert (Hwf : wf_table empty_table).
  { split; [constructor | split; [constructor | intros r []]]. }
  destruct (cache_save_then_get empty_table 0 7 "k1" (JDict []) 3 10 Hwf ltac:(discriminate))
    as (t' & E & Hlt & _).
  exists t'. split; [exact E |]. apply Hlt. vm_compute. reflexivity.
Defined.

End CacheRoundTrip.

(* ----------------------------------------------------------------- *)
(** ** Aggregation without dimensions *)
(* ----------------------------------------------------------------- *)

Module SingleCell.
Import PyStr Indicators Analytics AggregateFacts.

Lemma group_loop_no_dims data :
  group_loop [] [] data =
  match data with
  | [] => []
  | _ => [("_", mk_group "" "" (map value data))]
  end.
Proof.
  induction data as [| x l IH] using rev_ind; [reflexivity |].
  rewrite group_loop_snoc, IH.
  destruct l as [| y l]; simpl; [reflexivity |].
  rewrite map_app. reflexivity.
Qed.

(** X15. With a layout that lists no [rows] and no [columns] (e.g. an
    empty layout), every record has the row key and the column key [''],
    so [_aggregate_data] puts all records in the single cell [_], whose
    values are all the records' values in order. *)
Theorem aggregate_without_dimensions (py_sum : list PyFloat.t -> PyFloat.t) data layout :
  layout_get layout "rows" = [] -> layout_get layout "columns" = [] -> data <> [] ->
  _aggregate_data py_sum data layout = [("_", finish py_sum (mk_group "" "" (map value data)))].
Proof.
  intros Hr Hc Hd. unfold _aggregate_data.
  destruct data as [| x l] eqn:E; [congruence |]. rewrite <- E.
  rewrite Hr, Hc, group_loop_no_dims. subst data. reflexivity.
Qed.

Lemma aggregate_without_dimensions_witness :
  _aggregate_data seq_sum [demo_item] [] =
    [("_", finish seq_sum (mk_group "" "" [value demo_item]))].
Proof.
  exact (aggregate_without_dimensions seq_sum [demo_item] [] eq_refl eq_refl
           ltac:(discriminate)).
Defined.

End SingleCell.

